(** * go-roomba: the protocol engine of the iRobot Open Interface driver

    A shallow embedding of [constants] (op codes, sensor codes, the packet
    length table), of [serial.go] ([Pack], [Write], [Read]) and of the
    command, query and streaming functions of package [roomba]
    ([Drive], [Sensors], [QueryList], [ReadStream], [Stream]).

    Conventions.  A Go [byte] is a [Z] in [0, 256) and every byte
    operation that can overflow is written with its wrap-around ([wrap8]).
    A Go [int16] is a [Z]; conversions to unsigned go through [mod 2^16].
    Slices are lists, lengths and offsets are [nat].  The serial port, the
    pause channel and the output channel are fields of one explicit state
    ([world]) that every operation threads. *)

From Stdlib Require Import ZArith List Lia Bool.
From stdpp Require Import base gmap list.
Import ListNotations.
Local Open Scope Z_scope.

(** ** Package [constants] *)

Module Constants.

(** [type OpCode byte], [iota + 128]. *)
Definition Start : Z := 128.
Definition Baud : Z := 129.
Definition Control : Z := 130.
Definition Safe : Z := 131.
Definition Full : Z := 132.
Definition Spot : Z := 134.
Definition Cover : Z := 135.
Definition Demo : Z := 136.
Definition Drive : Z := 137.
Definition LowSideDrivers : Z := 138.
Definition LEDs : Z := 139.
Definition Song : Z := 140.
Definition Play : Z := 141.
Definition Sensors : Z := 142.
Definition Dock : Z := 143.
Definition PWMLowSideDrivers : Z := 144.
Definition DriveDirect : Z := 145.
Definition DigitalOutputs : Z := 147.
Definition SensorStream : Z := 148.
Definition QueryList : Z := 149.
Definition PauseResumeStream : Z := 150.

(** [type SensorCode byte], [iota + 7]. *)
Definition SENSOR_BUMP_WHEELS_DROPS : Z := 7.
Definition SENSOR_WALL : Z := 8.
Definition SENSOR_CLIFF_LEFT : Z := 9.
Definition SENSOR_CLIFF_FRONT_LEFT : Z := 10.
Definition SENSOR_CLIFF_FRONT_RIGHT : Z := 11.
Definition SENSOR_CLIFF_RIGHT : Z := 12.
Definition SENSOR_VIRTUAL_WALL : Z := 13.
Definition SENSOR_WHEEL_OVERCURRENT : Z := 14.
Definition SENSOR_IR_OMNI : Z := 17.
Definition SENSOR_BUTTONS : Z := 18.
Definition SENSOR_DISTANCE : Z := 19.
Definition SENSOR_ANGLE : Z := 20.
Definition SENSOR_CHARGING : Z := 21.
Definition SENSOR_VOLTAGE : Z := 22.
Definition SENSOR_CURRENT : Z := 23.
Definition SENSOR_TEMPERATURE : Z := 24.
Definition SENSOR_BATTERY_CHARGE : Z := 25.
Definition SENSOR_BATTERY_CAPACITY : Z := 26.
Definition SENSOR_WALL_SIGNAL : Z := 27.
Definition SENSOR_CLIFF_LEFT_SIGNAL : Z := 28.
Definition SENSOR_CLIFF_FRONT_LEFT_SIGNAL : Z := 29.
Definition SENSOR_CLIFF_FRONT_RIGHT_SIGNAL : Z := 30.
Definition SENSOR_CLIFF_RIGHT_SIGNAL : Z := 31.
Definition SENSOR_DIGITAL_INPUTS : Z := 32.
Definition SENSOR_ANALOG_INPUT : Z := 33.
Definition SENSOR_CHARGING_SOURCE : Z := 34.
Definition SENSOR_OI_MODE : Z := 35.
Definition SENSOR_SONG_NUMBER : Z := 36.
Definition SENSOR_SONG_PLAYING : Z := 37.
Definition SENSOR_NUM_STREAM_PACKETS : Z := 38.
Definition SENSOR_REQUESTED_VELOCITY : Z := 39.
Definition SENSOR_REQUESTED_RADIUS : Z := 40.
Definition SENSOR_RIGHT_VELOCITY : Z := 41.
Definition SENSOR_LEFT_VELOCITY : Z := 42.

(** The literal of [var SENSOR_PACKET_LENGTH = map[SensorCode]byte{...}],
    entry by entry and in the order of the source. *)
Definition packet_length_entries : list (Z * Z) :=
  [ (SENSOR_BUMP_WHEELS_DROPS, 1);
    (SENSOR_WALL, 1);
    (SENSOR_CLIFF_LEFT, 1);
    (SENSOR_CLIFF_FRONT_LEFT, 1);
    (SENSOR_CLIFF_FRONT_RIGHT, 1);
    (SENSOR_CLIFF_RIGHT, 1);
    (SENSOR_VIRTUAL_WALL, 1);
    (SENSOR_WHEEL_OVERCURRENT, 1);
    (15, 1);
    (16, 1);
    (SENSOR_IR_OMNI, 1);
    (SENSOR_BUTTONS, 1);
    (SENSOR_DISTANCE, 2);
    (SENSOR_ANGLE, 2);
    (SENSOR_CHARGING, 1);
    (SENSOR_VOLTAGE, 2);
    (SENSOR_CURRENT, 2);
    (SENSOR_TEMPERATURE, 1);
    (SENSOR_BATTERY_CHARGE, 2);
    (SENSOR_BATTERY_CAPACITY, 2);
    (SENSOR_WALL_SIGNAL, 2);
    (SENSOR_CLIFF_LEFT_SIGNAL, 2);
    (SENSOR_CLIFF_FRONT_LEFT_SIGNAL, 2);
    (SENSOR_CLIFF_FRONT_RIGHT_SIGNAL, 2);
    (SENSOR_CLIFF_RIGHT_SIGNAL, 2);
    (SENSOR_DIGITAL_INPUTS, 1);
    (SENSOR_ANALOG_INPUT, 2);
    (SENSOR_CHARGING_SOURCE, 1);
    (SENSOR_OI_MODE, 1);
    (SENSOR_SONG_NUMBER, 1);
    (SENSOR_SONG_PLAYING, 1);
    (SENSOR_NUM_STREAM_PACKETS, 1);
    (SENSOR_REQUESTED_VELOCITY, 2);
    (SENSOR_REQUESTED_RADIUS, 2);
    (SENSOR_RIGHT_VELOCITY, 2);
    (SENSOR_LEFT_VELOCITY, 2);
    (0, 26);
    (1, 10);
    (2, 6);
    (3, 10);
    (4, 14);
    (5, 12);
    (6, 52) ].

Definition SENSOR_PACKET_LENGTH : gmap Z Z := list_to_map packet_length_entries.

(** [v := SENSOR_PACKET_LENGTH[id]] without the [ok] result: Go yields the
    zero value for an absent key. *)
Definition packet_length_or_zero (id : Z) : Z :=
  default 0 (SENSOR_PACKET_LENGTH !! id).

End Constants.

Import Constants.

(** ** Bytes *)

(** Conversion to [byte] and byte arithmetic: everything is taken mod 256. *)
Definition wrap8 (z : Z) : Z := z mod 256.

(** [make([]byte, n)]: [n] zero bytes. *)
Definition make_bytes (n : nat) : list Z := replicate n 0.

(** [copy(dst[off:], src)] for a [src] that fits: the bytes of [src]
    replace those of [dst] from offset [off] on. *)
Definition copy_at (dst : list Z) (off : nat) (src : list Z) : list Z :=
  take off dst ++ src ++ drop (off + length src)%nat dst.

(** ** [serial.go]: the value encoder *)

(** The values handed to [Pack] in a [[]interface{}]: the fixed-width
    integers of the protocol, and Go's platform-sized [int], which
    [binary.Write] does not accept. *)
Inductive value : Type :=
| VInt8 (v : Z)
| VUint8 (v : Z)
| VInt16 (v : Z)
| VUint16 (v : Z)
| VInt (v : Z).

(** Conversion to [uint16]. *)
Definition wrap16 (z : Z) : Z := z mod 65536.

(** [binary.BigEndian.PutUint16(b, v)]:
    [b[0] = byte(v >> 8); b[1] = byte(v)]. *)
Definition PutUint16 (v : Z) : list Z :=
  [wrap8 (Z.shiftr v 8); wrap8 v].

(** [binary.Write(buf, binary.BigEndian, v)]: appends the encoding of a
    fixed-size value to the buffer, and fails on any other value.  The
    cases of the library for these types are [bs[0] = byte(v)] for
    [int8], [bs[0] = v] for [uint8], [order.PutUint16(bs, uint16(v))] for
    [int16] and [order.PutUint16(bs, v)] for [uint16]. *)
Definition binary_Write (buf : list Z) (v : value) : option (list Z) :=
  match v with
  | VInt8 x => Some (buf ++ [wrap8 x])
  | VUint8 x => Some (buf ++ [wrap8 x])
  | VInt16 x => Some (buf ++ PutUint16 (wrap16 x))
  | VUint16 x => Some (buf ++ PutUint16 x)
  | VInt _ => None
  end.

(** [func Pack(data []interface{}) []byte]: one [binary.Write] per value
    into a single buffer; [None] is [log.Fatal("failed packing bytes:")],
    which ends the process. *)
Fixpoint Pack_from (buf : list Z) (data : list value) : option (list Z) :=
  match data with
  | [] => Some buf
  | v :: data' =>
      match binary_Write buf v with
      | None => None
      | Some buf' => Pack_from buf' data'
      end
  end.

Definition Pack (data : list value) : option (list Z) := Pack_from [] data.

(** What the specification says of the encoder, in its own words: each
    value is tagged with its bit width, and the output is the
    concatenation of the big-endian representations. *)
Definition fixed_width (v : value) : Prop :=
  match v with VInt _ => False | _ => True end.

Definition width_bytes (v : value) : nat :=
  match v with
  | VInt8 _ | VUint8 _ => 1
  | VInt16 _ | VUint16 _ => 2
  | VInt _ => 0
  end.

Definition payload_of (v : value) : Z :=
  match v with
  | VInt8 x | VUint8 x | VInt16 x | VUint16 x | VInt x => x
  end.

(** The unsigned number a byte string denotes, most significant byte
    first. *)
Definition big_endian_value (bs : list Z) : Z :=
  fold_left (fun acc b => acc * 256 + b) bs 0.

(** [bs] is the big-endian representation of [v] at [v]'s width: the right
    number of bytes, each a byte, denoting [v] as an unsigned number
    (two's complement for a negative [v]). *)
Definition big_endian_repr (v : value) (bs : list Z) : Prop :=
  length bs = width_bytes v /\
  Forall (fun b => 0 <= b < 256) bs /\
  big_endian_value bs = payload_of v mod 2 ^ (8 * Z.of_nat (width_bytes v)).

(** ** The state the driver runs in *)

(** Go [error] values: those of the transport and those the driver builds
    with [fmt.Errorf]. *)
Inductive error : Type :=
| EOF                                   (* io.EOF *)
| PortError (code : nat)                (* any other error of the port *)
| InvalidVelocity (v : Z)               (* "invalid velocity: %d" *)
| InvalidRadius (r : Z)                 (* "invalid readius: %d" *)
| InvalidVelocities (right left : Z)    (* "invalid velocity. one of %d or %d" *)
| UnknownPacketId (id : Z)              (* "unknown packet id requested: %d" *)
| FailedWritingOpcode (opcode : Z)      (* "failed writing opcode %d ..." *)
| FailedWritingCommand (p : list Z)     (* "failed writing command ..." *)
| FailedReadingSensors (id : Z) (e : error).

(** How one [S.Write(p)] of the port goes: everything is accepted, or only
    the first [n] bytes are and the call reports [err]. *)
Inductive write_event : Type :=
| WriteAll
| WriteSome (n : nat) (err : option error).

(** What the driver does that an observer can see, in order. *)
Inductive event : Type :=
| EvRead (n : nat) (err : option error)   (* S.Read returned n, err *)
| EvWrite (p : list Z)                    (* S.Write accepted the bytes p *)
| EvPaused                                (* select received from StreamPaused *)
| EvSend (frame : list (list Z))          (* out <- result *)
| EvClose.                                (* close(out) *)

(** [rx]: what the port will deliver, one entry per batch of bytes that
    becomes available, with the error (if any) reported once the batch is
    consumed; a [Read] on an empty [rx] blocks for ever.
    [wx]: how the next writes go (all accepted once the list is used up).
    [tx]: the bytes the port has accepted.
    [StreamPaused]: what each successive non-blocking receive of the
    [select] in [ReadStream] finds ([true]: a pause request is waiting).
    [out], [out_closed]: the values sent on the session's channel and
    whether it has been closed.  [events]: the log, oldest first. *)
Record world : Type := mkWorld {
  rx : list (list Z * option error);
  wx : list write_event;
  tx : list Z;
  StreamPaused : list bool;
  out : list (list (list Z));
  out_closed : bool;
  events : list event
}.

Definition set_rx (r : list (list Z * option error)) (w : world) : world :=
  mkWorld r (wx w) (tx w) (StreamPaused w) (out w) (out_closed w) (events w).

Definition set_wx_tx (x : list write_event) (t : list Z) (w : world) : world :=
  mkWorld (rx w) x t (StreamPaused w) (out w) (out_closed w) (events w).

Definition set_StreamPaused (p : list bool) (w : world) : world :=
  mkWorld (rx w) (wx w) (tx w) p (out w) (out_closed w) (events w).

Definition set_out (o : list (list (list Z))) (c : bool) (w : world) : world :=
  mkWorld (rx w) (wx w) (tx w) (StreamPaused w) o c (events w).

Definition log (e : event) (w : world) : world :=
  mkWorld (rx w) (wx w) (tx w) (StreamPaused w) (out w) (out_closed w)
          (events w ++ [e]).

(** [roomba.S.Read(p)] with [len(p) = k].  The port hands over at most [k]
    bytes of the batch at the head of [rx]; what does not fit stays for
    the next call.  [None]: the call never returns. *)
Definition S_Read (k : nat) (w : world)
  : option ((list Z * option error) * world) :=
  match rx w with
  | [] => None
  | (bs, err) :: rest =>
      if (length bs <=? k)%nat
      then Some ((bs, err), log (EvRead (length bs) err) (set_rx rest w))
      else Some ((take k bs, None),
                 log (EvRead k None) (set_rx ((drop k bs, err) :: rest) w))
  end.

(** [roomba.S.Write(p)]: returns [(n, err)]. *)
Definition S_Write (p : list Z) (w : world) : (nat * option error) * world :=
  match wx w with
  | [] => ((length p, None), log (EvWrite p) (set_wx_tx [] (tx w ++ p) w))
  | WriteAll :: rest =>
      ((length p, None), log (EvWrite p) (set_wx_tx rest (tx w ++ p) w))
  | WriteSome n err :: rest =>
      let m := Nat.min n (length p) in
      ((m, err), log (EvWrite (take m p)) (set_wx_tx rest (tx w ++ take m p) w))
  end.

(** [func (roomba *Roomba) Write(opcode constants.OpCode, p []byte) error] *)
Definition Write (opcode : Z) (p : list Z) (w : world) : option error * world :=
  let '((n, err), w1) := S_Write [opcode] w in
  if negb (n =? 1)%nat || bool_decide (is_Some err)
  then (Some (FailedWritingOpcode opcode), w1)
  else
    let '((n, err), w2) := S_Write p w1 in
    if negb (n =? length p)%nat || bool_decide (is_Some err)
    then (Some (FailedWritingCommand p), w2)
    else (None, w2).

(** [func (roomba *Roomba) WriteByte(opcode constants.OpCode) error] *)
Definition WriteByte (opcode : Z) (w : world) : option error * world :=
  Write opcode [] w.

(** [func (roomba *Roomba) Read(p []byte) (n int, err error)] *)
Definition Read (k : nat) (w : world) : option ((list Z * option error) * world) :=
  S_Read k w.

(** How a call of the driver ends. *)
Inductive outcome (A : Type) : Type :=
| Returns (a : A)
| Blocks            (* blocked for ever in a read of the port *)
| Panics            (* run-time panic *)
| OutOfFuel.        (* the bound on the number of iterations was too small *)
Arguments Returns {A} a.
Arguments Blocks {A}.
Arguments Panics {A}.
Arguments OutOfFuel {A}.

(** A bound on the number of reads the port can still answer: every read
    into a non-empty slice removes an entry of [rx] or at least one byte
    of its head. *)
Definition rx_weight (r : list (list Z * option error)) : nat :=
  fold_right (fun ev acc => (S (length ev.1) + acc)%nat) O r.

Definition read_fuel (w : world) : nat := S (rx_weight (rx w)).

(** ** The command layer *)

(** [func (roomba *Roomba) Drive(velocity, radius int16) error].  [None]
    for the world: [Pack] ended the process. *)
Definition Drive (velocity radius : Z) (w : world) : option (option error * world) :=
  if negb ((-500 <=? velocity) && (velocity <=? 500))
  then Some (Some (InvalidVelocity velocity), w)
  else if negb ((-2000 <=? radius) && (radius <=? 2000))
  then Some (Some (InvalidRadius radius), w)
  else match Pack [VInt16 velocity; VInt16 radius] with
       | None => None
       | Some p => Some (Write Constants.Drive p w)
       end.

(** [func (roomba *Roomba) DirectDrive(right, left int16) error] *)
Definition DirectDrive (right left : Z) (w : world) : option (option error * world) :=
  if negb ((-500 <=? right) && (right <=? 500))
     || negb ((-500 <=? left) && (left <=? 500))
  then Some (Some (InvalidVelocities right left), w)
  else match Pack [VInt16 right; VInt16 left] with
       | None => None
       | Some p => Some (Write Constants.DriveDirect p w)
       end.

(** ** The synchronous query engine *)

(** The read loop of [Sensors], which [QueryList] repeats for each entry
    with [result[i]] in place of [result]:
<<
    for byte(n) < bytesToRead {
        resultView := result[n:]
        bytesToRead -= byte(n)
        n, err = roomba.Read(resultView)
        if err != nil { return result, fmt.Errorf(...) }
    }
>>
    [n] is the count returned by the previous [Read] (0 before the first),
    [bytesToRead] a [byte].  The slice expression [result[n:]] panics when
    [n] exceeds [len(result)]. *)
Fixpoint read_loop (fuel : nat) (packetId : Z) (result : list Z) (n : nat)
    (bytesToRead : Z) (w : world) : outcome (list Z * option error) * world :=
  match fuel with
  | O => (OutOfFuel, w)
  | S fuel' =>
      if wrap8 (Z.of_nat n) <? bytesToRead then
        if (length result <? n)%nat then (Panics, w)
        else
          let bytesToRead' := wrap8 (bytesToRead - wrap8 (Z.of_nat n)) in
          match Read (length result - n) w with
          | None => (Blocks, w)
          | Some ((bs, err), w') =>
              let result' := copy_at result n bs in
              match err with
              | Some e =>
                  (Returns (result', Some (FailedReadingSensors packetId e)), w')
              | None =>
                  read_loop fuel' packetId result' (length bs) bytesToRead' w'
              end
          end
      else (Returns (result, None), w)
  end.

(** [func (roomba *Roomba) Sensors(packetId constants.SensorCode) ([]byte, error)].
    The value of [roomba.Write] is dropped. *)
Definition Sensors (packetId : Z) (w : world)
  : outcome (list Z * option error) * world :=
  match SENSOR_PACKET_LENGTH !! packetId with
  | None => (Returns ([], Some (UnknownPacketId packetId)), w)
  | Some bytesToRead =>
      let '(_, w1) := Write Constants.Sensors [packetId] w in
      read_loop (read_fuel w1) packetId (make_bytes (Z.to_nat bytesToRead))
                O bytesToRead w1
  end.

(** The second loop of [QueryList]: [result[i]] for each requested id in
    turn.  [result] is [make([][]byte, len(packetIds))]; a nil entry is the
    empty list. *)
Fixpoint QueryList_read (packetIds : list Z) (i : nat) (result : list (list Z))
    (w : world) : outcome (list (list Z) * option error) * world :=
  match packetIds with
  | [] => (Returns (result, None), w)
  | packetId :: rest =>
      let bytesToRead := packet_length_or_zero packetId in
      match read_loop (read_fuel w) packetId
                      (make_bytes (Z.to_nat bytesToRead)) O bytesToRead w with
      | (Returns (buf, None), w') =>
          QueryList_read rest (S i) (<[i := buf]> result) w'
      | (Returns (buf, Some e), w') =>
          (Returns (<[i := buf]> result, Some e), w')
      | (Blocks, w') => (Blocks, w')
      | (Panics, w') => (Panics, w')
      | (OutOfFuel, w') => (OutOfFuel, w')
      end
  end.

(** [func (roomba *Roomba) QueryList(packetIds []constants.SensorCode) ([][]byte, error)] *)
Definition QueryList (packetIds : list Z) (w : world)
  : outcome (list (list Z) * option error) * world :=
  match list_find (fun id => SENSOR_PACKET_LENGTH !! id = None) packetIds with
  | Some (_, id) => (Returns ([], Some (UnknownPacketId id)), w)
  | None =>
      let b := wrap8 (Z.of_nat (length packetIds)) :: packetIds in
      let '(_, w1) := Write Constants.QueryList b w in
      QueryList_read packetIds O (replicate (length packetIds) []) w1
  end.

(** A port that answers with the given batches and accepts every write. *)
Definition port (batches : list (list Z * option error)) : world :=
  mkWorld batches [] [] [] [] false [].

Definition ok (bs : list Z) : list Z * option error := (bs, None).

(** ** The streaming engine *)

(** The messages of the [log.Fatalf] calls of [ReadStream]; each ends the
    process ([os.Exit(1)]). *)
Inductive fatal : Type :=
| BadHeader                          (* "stream data doesn't start with header 19" *)
| BadLength (got expected : Z)       (* "invalid N-bytes: %d, expected %d." *)
| BadPacketData                      (* "error reading packet data" *)
| MissingChecksum                    (* "missing checksum" *)
| ChecksumMismatch (sum : Z).        (* "computed checksum didn't match: %d" *)

(** The first loop of [ReadStream]: [dataLength += packetLength] on a
    [byte]; [None] when an id is not in the table. *)
Fixpoint stream_data_length (packetIds : list Z) (dataLength : Z) : option Z :=
  match packetIds with
  | [] => Some dataLength
  | packetId :: rest =>
      match SENSOR_PACKET_LENGTH !! packetId with
      | None => None
      | Some packetLength => stream_data_length rest (wrap8 (dataLength + packetLength))
      end
  end.

(** [len(buf)] for [buf := make([]byte, dataLength+byte(len(packetIds))+3)]:
    the sum is a [byte]. *)
Definition stream_buf_len (packetIds : list Z) (dataLength : Z) : nat :=
  Z.to_nat (wrap8 (wrap8 (dataLength + wrap8 (Z.of_nat (length packetIds))) + 3)).

(** How the accumulation of one frame ends. *)
Inductive frame_read : Type :=
| FrameFull        (* bytesRead reached len(buf) *)
| FrameEOF         (* err == io.EOF: return *)
| FrameRetry       (* any other error: goto Loop *)
| FrameBlocked     (* S.Read never returns *)
| FrameOutOfFuel.

(** The accumulation loop:
<<
    for bytesRead < len(buf) {
        n, err := roomba.S.Read(buf[bytesRead:])
        if n != 0 { bytesRead += n }
        if err != nil {
            if err == io.EOF { return }
            goto Loop
        }
    }
>> *)
Fixpoint read_frame (fuel : nat) (buf : list Z) (bytesRead : nat) (w : world)
  : frame_read * list Z * world :=
  match fuel with
  | O => (FrameOutOfFuel, buf, w)
  | S fuel' =>
      if (bytesRead <? length buf)%nat then
        match S_Read (length buf - bytesRead) w with
        | None => (FrameBlocked, buf, w)
        | Some ((bs, err), w') =>
            let buf' := copy_at buf bytesRead bs in
            let bytesRead' := (bytesRead + length bs)%nat in
            match err with
            | Some EOF => (FrameEOF, buf', w')
            | Some _ => (FrameRetry, buf', w')
            | None => read_frame fuel' buf' bytesRead' w'
            end
        end
      else (FrameFull, buf, w)
  end.

(** The inner loop of the frame walk, on the in-memory reader [bufR] whose
    unread part is [r]:
<<
    for bytesToRead > 0 {
        n, err := bufR.Read(result[i][bytesRead:])
        bytesRead += n
        bytesToRead -= n
        if err != nil { log.Fatalf("error reading packet data") }
    }
>>
    [bytes.Reader.Read] returns [0, io.EOF] when nothing is left, and
    otherwise copies as much as fits and returns no error.  [dst] is
    [result[i]]; [None] is the [log.Fatalf].  Every pass that does not end
    the process reads at least one byte, so [bytesToRead] passes are
    enough ([fuel] is one more). *)
Fixpoint read_payload_loop (fuel : nat) (dst : list Z) (bytesRead bytesToRead : nat)
    (r : list Z) : option (list Z * list Z) :=
  match bytesToRead with
  | O => Some (dst, r)
  | S _ =>
      match fuel with
      | O => None
      | S fuel' =>
          match r with
          | [] => None
          | _ :: _ =>
              let n := Nat.min (length dst - bytesRead) (length r) in
              read_payload_loop fuel' (copy_at dst bytesRead (take n r))
                                (bytesRead + n) (bytesToRead - n) (drop n r)
          end
      end
  end.

(** [result[i] = make([]byte, bytesToRead)] and the loop. *)
Definition read_payload (bytesToRead : nat) (r : list Z) : option (list Z * list Z) :=
  read_payload_loop (S bytesToRead) (make_bytes bytesToRead) O bytesToRead r.

(** [for _, b := range result[i] { sum += b }] *)
Definition add_bytes (sum : Z) (bs : list Z) : Z :=
  fold_left (fun s b => wrap8 (s + b)) bs sum.

Inductive walk : Type :=
| WalkEnd (r : list Z) (sum : Z) (filled : list (list Z))
| WalkFatal (m : fatal)
| WalkPanic.

(** The walk over the entries of a frame:
<<
    packetId, err := bufR.ReadByte()
    for ; err == nil; packetId, err = bufR.ReadByte() {
        sum += packetId
        bytesToRead := int(constants.SENSOR_PACKET_LENGTH[constants.SensorCode(packetId)])
        bytesRead := 0
        result[i] = make([]byte, bytesToRead)
        ... inner loop ...
        for _, b := range result[i] { sum += b }
        i += 1
        if bufR.Len() == 1 { break }
    }
>>
    [slots] is [len(result) - i]: the assignment to [result[i]] panics when
    no slot is left.  [filled] holds [result[0..i)]. *)
Fixpoint frame_entries (slots : nat) (r : list Z) (sum : Z)
    (filled : list (list Z)) : walk :=
  match r with
  | [] => WalkEnd [] sum filled
  | packetId :: r1 =>
      let sum1 := wrap8 (sum + packetId) in
      let bytesToRead := Z.to_nat (packet_length_or_zero packetId) in
      match slots with
      | O => WalkPanic
      | S slots' =>
          match read_payload bytesToRead r1 with
          | None => WalkFatal BadPacketData
          | Some (payload, r2) =>
              let sum2 := add_bytes sum1 payload in
              if (length r2 =? 1)%nat
              then WalkEnd r2 sum2 (filled ++ [payload])
              else frame_entries slots' r2 sum2 (filled ++ [payload])
          end
      end
  end.

(** What becomes of a fully accumulated frame. *)
Inductive frame_outcome : Type :=
| FrameOk (result : list (list Z))     (* out <- result *)
| FrameFatal (m : fatal)               (* log.Fatalf *)
| FramePanic.

(** The part of [ReadStream] under the comment "Process frame.".  The
    arguments of the second [log.Fatalf] include [buf[1]], which panics on
    a buffer of one byte. *)
Definition process_frame (packetIds : list Z) (buf : list Z) : frame_outcome :=
  match buf with
  | [] => FrameFatal BadHeader
  | b :: r1 =>
      if negb (b =? 19) then FrameFatal BadHeader
      else
        let expected := wrap8 (Z.of_nat (length buf) - 3) in
        match r1 with
        | [] => FramePanic
        | b1 :: r2 =>
            if negb (b1 =? expected)
            then FrameFatal (BadLength b1 (Z.of_nat (length buf) - 3))
            else
              match frame_entries (length packetIds) r2 expected [] with
              | WalkPanic => FramePanic
              | WalkFatal m => FrameFatal m
              | WalkEnd r sum filled =>
                  match r with
                  | [] => FrameFatal MissingChecksum
                  | expectedChecksum :: _ =>
                      let sum' := wrap8 (sum + expectedChecksum) in
                      if negb (sum' =? 0) then FrameFatal (ChecksumMismatch sum')
                      else FrameOk (filled ++
                                    replicate (length packetIds - length filled) [])
                  end
              end
        end
  end.

(** How the goroutine running [ReadStream] ends. *)
Inductive reader_exit : Type :=
| ExitUnknownPacket     (* return after "unknown packet id requested" *)
| ExitPaused            (* return of the pause case *)
| ExitEOF               (* return on io.EOF *)
| ExitFatal (m : fatal) (* log.Fatalf: the process exits *)
| ExitPanic             (* run-time panic: the process dies *)
| ExitBlocked           (* blocked for ever in S.Read *)
| ExitOutOfFuel.

(** The [select] at the head of the loop: a non-blocking receive. *)
Definition poll_pause (w : world) : bool * world :=
  match StreamPaused w with
  | [] => (false, w)
  | b :: rest => (b, set_StreamPaused rest w)
  end.

(** [out <- result] (the consumer is taken to be receiving) and
    [close(out)]. *)
Definition send_out (result : list (list Z)) (w : world) : world :=
  log (EvSend result) (set_out (out w ++ [result]) (out_closed w) w).

Definition close_out (w : world) : world :=
  log EvClose (set_out (out w) true w).

(** The [for] loop of [ReadStream].  [goto Loop] re-enters the [select],
    whose default case starts with [bytesRead := 0]. *)
Fixpoint stream_loop (fuel : nat) (packetIds : list Z) (buf : list Z) (w : world)
  : reader_exit * world :=
  match fuel with
  | O => (ExitOutOfFuel, w)
  | S fuel' =>
      let '(paused, w0) := poll_pause w in
      if paused then
        let '(_, w1) := Write PauseResumeStream [0] (log EvPaused w0) in
        (ExitPaused, close_out w1)
      else
        match read_frame (read_fuel w0) buf O w0 with
        | (FrameOutOfFuel, _, w1) => (ExitOutOfFuel, w1)
        | (FrameBlocked, _, w1) => (ExitBlocked, w1)
        | (FrameEOF, _, w1) => (ExitEOF, w1)
        | (FrameRetry, buf1, w1) => stream_loop fuel' packetIds buf1 w1
        | (FrameFull, buf1, w1) =>
            match process_frame packetIds buf1 with
            | FrameFatal m => (ExitFatal m, w1)
            | FramePanic => (ExitPanic, w1)
            | FrameOk result =>
                stream_loop fuel' packetIds buf1 (send_out result w1)
            end
        end
  end.

(** [func (roomba *Roomba) ReadStream(packetIds []constants.SensorCode, out chan<- [][]byte)] *)
Definition ReadStream (packetIds : list Z) (w : world) : reader_exit * world :=
  match stream_data_length packetIds 0 with
  | None => (ExitUnknownPacket, w)
  | Some dataLength =>
      stream_loop (read_fuel w) packetIds
                  (make_bytes (stream_buf_len packetIds dataLength)) w
  end.

(** [func (roomba *Roomba) Stream(packetIds []constants.SensorCode) (<-chan [][]byte, error)].
    [out := make(chan [][]byte)] is a fresh, open channel; the goroutine
    started by [go roomba.ReadStream(packetIds, out)] is run to its end. *)
Inductive stream_result : Type :=
| StreamFailed (e : error)
| StreamStarted (reader : reader_exit).

Definition Stream (packetIds : list Z) (w : world) : stream_result * world :=
  let b := wrap8 (Z.of_nat (length packetIds)) :: packetIds in
  let '(err, w1) := Write SensorStream b w in
  match err with
  | Some e => (StreamFailed e, w1)
  | None =>
      let '(x, w2) := ReadStream packetIds (set_out [] false w1) in
      (StreamStarted x, w2)
  end.

(** What a consumer that has received every value sent on [out] finds at
    its next receive. *)
Inductive receive : Type :=
| SeesClosed          (* the receive returns: the channel is closed *)
| BlocksForever       (* nobody will send or close *)
| ProcessGone.        (* the process no longer runs *)

Definition next_receive (x : reader_exit) (w : world) : receive :=
  match x with
  | ExitFatal _ | ExitPanic => ProcessGone
  | _ => if out_closed w then SeesClosed else BlocksForever
  end.

Definition streaming (batches : list (list Z * option error)) (pauses : list bool)
  : world :=
  mkWorld batches [] [] pauses [] false [].


(** The bytes [binary.Write] appends for one value. *)
Definition encoding (v : value) : list Z :=
  match v with
  | VInt8 x | VUint8 x => [wrap8 x]
  | VInt16 x => PutUint16 (wrap16 x)
  | VUint16 x => PutUint16 x
  | VInt _ => []
  end.

(** ** Classes of table entries *)

(** The group packets 0 to 6 and their lengths. *)
Definition group_packets : list (Z * Z) :=
  [(0, 26); (1, 10); (2, 6); (3, 10); (4, 14); (5, 12); (6, 52)].

Definition single_or_group (e : Z * Z) : Prop :=
  (7 <= e.1 <= 42 /\ (e.2 = 1 \/ e.2 = 2)) \/ e ∈ group_packets.

#[local] Instance single_or_group_dec (e : Z * Z) : Decision (single_or_group e).
Proof. unfold single_or_group. apply _. Defined.

(** ** Stream frames on the wire *)

(** The wire format of a stream frame, in the words of the specification:
    [[0x13][length][(sensorCode, payload) ...][checksum]], where [length]
    counts the bytes of the entries. *)
Definition entry_bytes (e : Z * list Z) : list Z := e.1 :: e.2.

Definition frame_body (entries : list (Z * list Z)) : list Z :=
  concat (map entry_bytes entries).

Definition wire_frame (entries : list (Z * list Z)) (checksum : Z) : list Z :=
  19 :: Z.of_nat (length (frame_body entries)) :: frame_body entries ++ [checksum].

(** The unsigned sum of the bytes, mod 256. *)
Definition byte_sum (bs : list Z) : Z := fold_right Z.add 0 bs mod 256.

(** The bytes the checksum covers: from the length byte to the checksum
    byte, both included. *)
Definition checked_bytes (entries : list (Z * list Z)) (checksum : Z) : list Z :=
  Z.of_nat (length (frame_body entries)) :: frame_body entries ++ [checksum].

(** ** Runs of the stream reader *)

(** The runs of [stream_loop], without the iteration bound: one rule for
    each way an iteration of the [for] loop of [ReadStream] can go. *)
Inductive stream_run (packetIds : list Z)
  : list Z -> world -> reader_exit -> world -> Prop :=
| run_paused buf w w0 :
    poll_pause w = (true, w0) ->
    stream_run packetIds buf w ExitPaused
               (close_out (Write PauseResumeStream [0] (log EvPaused w0)).2)
| run_blocked buf w w0 buf1 w1 :
    poll_pause w = (false, w0) ->
    read_frame (read_fuel w0) buf O w0 = (FrameBlocked, buf1, w1) ->
    stream_run packetIds buf w ExitBlocked w1
| run_eof buf w w0 buf1 w1 :
    poll_pause w = (false, w0) ->
    read_frame (read_fuel w0) buf O w0 = (FrameEOF, buf1, w1) ->
    stream_run packetIds buf w ExitEOF w1
| run_retry buf w w0 buf1 w1 x w' :
    poll_pause w = (false, w0) ->
    read_frame (read_fuel w0) buf O w0 = (FrameRetry, buf1, w1) ->
    stream_run packetIds buf1 w1 x w' ->
    stream_run packetIds buf w x w'
| run_fatal buf w w0 buf1 w1 m :
    poll_pause w = (false, w0) ->
    read_frame (read_fuel w0) buf O w0 = (FrameFull, buf1, w1) ->
    process_frame packetIds buf1 = FrameFatal m ->
    stream_run packetIds buf w (ExitFatal m) w1
| run_panic buf w w0 buf1 w1 :
    poll_pause w = (false, w0) ->
    read_frame (read_fuel w0) buf O w0 = (FrameFull, buf1, w1) ->
    process_frame packetIds buf1 = FramePanic ->
    stream_run packetIds buf w ExitPanic w1
| run_deliver buf w w0 buf1 w1 result x w' :
    poll_pause w = (false, w0) ->
    read_frame (read_fuel w0) buf O w0 = (FrameFull, buf1, w1) ->
    process_frame packetIds buf1 = FrameOk result ->
    stream_run packetIds buf1 (send_out result w1) x w' ->
    stream_run packetIds buf w x w'.

(** Kinds of events. *)
Definition is_read (e : event) : Prop :=
  match e with EvRead _ _ => True | _ => False end.

Definition is_round_event (e : event) : Prop :=
  match e with EvRead _ _ | EvSend _ => True | _ => False end.

Definition is_write (e : event) : Prop :=
  match e with EvWrite _ => True | _ => False end.

(** The frames sent and the bytes written in a stretch of the log. *)
Fixpoint sent_frames (tr : list event) : list (list (list Z)) :=
  match tr with
  | [] => []
  | EvSend f :: tr' => f :: sent_frames tr'
  | _ :: tr' => sent_frames tr'
  end.

Fixpoint written_bytes (tr : list event) : list Z :=
  match tr with
  | [] => []
  | EvWrite p :: tr' => p ++ written_bytes tr'
  | _ :: tr' => written_bytes tr'
  end.

(** Where the reader polls for a pause, the [select] at the head of its
    loop: nothing has happened yet in the session, or the last thing it did
    was [out <- result], or a read of the port has just returned an error
    ([goto Loop]).  After a read that succeeded it is inside the
    accumulation loop, or about to process the frame. *)
Definition at_loop_head (pre : list event) : Prop :=
  match last pre with
  | None => True
  | Some (EvSend _) => True
  | Some (EvRead _ (Some _)) => True
  | Some _ => False
  end.

(** The number of bytes the reader has taken from the port since it last
    delivered a frame, or since the start of the session. *)
Definition pending_bytes (pre : list event) : nat :=
  fold_left (fun n e => match e with
                        | EvSend _ => O
                        | EvRead k _ => (n + k)%nat
                        | _ => n
                        end) pre O.

(** A frame boundary, in the words of the specification: the reader is
    "between frame reads", not "in the middle of accumulating a frame's
    bytes": it has taken no byte from the port that does not belong to a
    frame it has delivered. *)
Definition at_frame_boundary (pre : list event) : Prop :=
  pending_bytes pre = O.

(** ** Well-behaved ports and refused frames *)

(** The bytes a port will deliver, and a port that reports no error. *)
Definition rx_bytes (r : list (list Z * option error)) : list Z :=
  concat (map fst r).

Definition error_free (r : list (list Z * option error)) : Prop :=
  Forall (fun ev => ev.2 = None) r.

(** The integrity violations of a stream frame, for a session of
    [packetIds]: the header byte is not 19; or the length byte is not the
    frame length minus 3; or the frame is well formed except that the bytes
    from the length byte to the checksum byte do not sum to 0 mod 256. *)
Inductive integrity_violation (packetIds : list Z) (frame : list Z) : Prop :=
| violation_header :
    head frame <> Some 19 ->
    integrity_violation packetIds frame
| violation_length b1 rest :
    frame = 19 :: b1 :: rest ->
    b1 <> wrap8 (Z.of_nat (length frame) - 3) ->
    integrity_violation packetIds frame
| violation_checksum entries checksum :
    frame = wire_frame entries checksum ->
    entries <> [] ->
    length entries = length packetIds ->
    Forall (fun e => Z.of_nat (length e.2) = packet_length_or_zero e.1) entries ->
    byte_sum (checked_bytes entries checksum) <> 0 ->
    integrity_violation packetIds frame.

(** What C2 asks of a session that ends on a violation: the consumer sees
    the channel closed, in a process that still runs. *)
Definition ends_session_only (x : reader_exit) (w : world) : Prop :=
  out_closed w = true /\ next_receive x w = SeesClosed.

(** ** The rest of the command layer *)

Module Roomba.

(** [func (roomba *Roomba) Start() error] *)
Definition Start (w : world) : option error * world :=
  WriteByte Constants.Start w.

(** [func (roomba *Roomba) Passive() error] *)
Definition Passive (w : world) : option error * world := Start w.

(** [func (roomba *Roomba) Safe() error] *)
Definition Safe (w : world) : option error * world :=
  WriteByte Constants.Safe w.

(** [func (roomba *Roomba) Full() error] *)
Definition Full (w : world) : option error * world :=
  WriteByte Constants.Full w.

(** [func (roomba *Roomba) Control() error]: the value of
    [roomba.Passive()] is dropped. *)
Definition Control (w : world) : option error * world :=
  let '(_, w1) := Passive w in
  WriteByte Constants.Control w1.

(** [func (roomba *Roomba) Clean() error] *)
Definition Clean (w : world) : option error * world :=
  WriteByte Constants.Cover w.

(** [func (roomba *Roomba) Spot() error] *)
Definition Spot (w : world) : option error * world :=
  WriteByte Constants.Spot w.

(** [func (roomba *Roomba) SeekDock() error] *)
Definition SeekDock (w : world) : option error * world :=
  WriteByte Constants.Dock w.

(** [func (roomba *Roomba) Stop() error] *)
Definition Stop (w : world) : option (option error * world) := Drive 0 0 w.

(** [func (roomba *Roomba) LEDs(advance, play bool, powerColor, powerIntensity byte) error].
    [None]: [Pack] ended the process. *)
Definition LEDs (advance play : bool) (powerColor powerIntensity : Z) (w : world)
  : option (option error * world) :=
  let ledBits := 0 in
  let ledBits := if advance then wrap8 (ledBits + 8) else ledBits in
  let ledBits := if play then wrap8 (ledBits + 2) else ledBits in
  match Pack [VUint8 ledBits; VUint8 powerColor; VUint8 powerIntensity] with
  | None => None
  | Some p => Some (Write Constants.LEDs p w)
  end.

End Roomba.

(** ** Decoding, as the simulator does it *)

(** [binary.BigEndian.Uint16(b)]: [uint16(b[1]) | uint16(b[0])<<8]; [None]
    when [b] is shorter than two bytes (index out of range). *)
Definition Uint16 (b : list Z) : option Z :=
  match b with
  | b0 :: b1 :: _ => Some (Z.lor b1 (Z.shiftl b0 8))
  | _ => None
  end.

(** Conversion of a [uint16] to [int16]. *)
Definition to_int16 (z : Z) : Z := (z + 32768) mod 65536 - 32768.

(** [binary.Read(bytes.NewReader(data), binary.BigEndian, &v)] for
    [v int16]: two bytes are read and [v = int16(order.Uint16(bs))];
    [None] when fewer than two bytes are there (the call returns an error
    and leaves [v] alone). *)
Definition binary_Read_int16 (data : list Z) : option Z :=
  option_map to_int16 (Uint16 data).

(** ** Ports that do not split a payload *)

(** [served payloads r r']: the port [r] delivers the payloads one after
    the other and no payload is split between two batches; [r'] is what
    the port still holds afterwards. *)
Inductive served : list (list Z) -> list (list Z * option error)
                   -> list (list Z * option error) -> Prop :=
| served_nil r : served [] r r
| served_whole p ps rest r' :
    served ps rest r' ->
    served (p :: ps) ((p, None) :: rest) r'
| served_part p ps tl err rest r' :
    tl <> [] ->
    served ps ((tl, err) :: rest) r' ->
    served (p :: ps) ((p ++ tl, err) :: rest) r'.

(** ** Sessions *)

(** The sum of the registered lengths of the ids of a session. *)
Definition total_length (packetIds : list Z) : Z :=
  fold_right (fun id acc => packet_length_or_zero id + acc) 0 packetIds.

(** An entry with the payload length that the table gives its id. *)
Definition table_length (e : Z * list Z) : Prop :=
  Z.of_nat (length e.2) = packet_length_or_zero e.1.

(** A buffer that the frame processing of [ReadStream] accepts, with the
    value it delivers: the buffer is a frame on the wire (header 19,
    length byte, entries with the payload lengths of the table, checksum
    byte) whose bytes from the length byte on sum to 0 mod 256, and the
    value holds the payloads of its entries in order, one slot for each id
    of the session. *)
Definition checked_frame (packetIds buf : list Z) (result : list (list Z)) : Prop :=
  process_frame packetIds buf = FrameOk result /\
  length result = length packetIds /\
  exists entries checksum,
    buf = wire_frame entries checksum /\
    entries <> [] /\
    Forall table_length entries /\
    byte_sum (checked_bytes entries checksum) = 0 /\
    result = map snd entries ++ replicate (length packetIds - length entries) [].

(** ** Opening the port *)

(** The errors of [Open]: its own, or the one of [serial.OpenPort]. *)
Inductive open_error : Type :=
| InvalidBaudRate (baud : Z)   (* "invalid baud rate: %d. Must be one of 115200, 19200" *)
| OpenPortFailed (e : error).

Section Opening.

(** [serial.OpenPort(&serial.Config{Name: name, Baud: baud})] of package
    goserial: the opened port, or an error.  A port name is a Go string, a
    sequence of bytes. *)
Variable OpenPort : list Z -> Z -> world + error.

(** [func (roomba *Roomba) Open(baud uint) error]: the value of
    [roomba.S] afterwards ([None]: [S] was not assigned) and the error. *)
Definition Open (PortName : list Z) (baud : Z) : option world * option open_error :=
  if negb (baud =? 115200) && negb (baud =? 19200)
  then (None, Some (InvalidBaudRate baud))
  else match OpenPort PortName baud with
       | inr err => (None, Some (OpenPortFailed err))
       | inl p => (Some p, None)
       end.

(** [func MakeRoomba(portName string)]: [S] and the error. *)
Definition MakeRoomba (portName : list Z) : option world * option open_error :=
  let baud := 57600 in
  Open portName baud.

End Opening.

(** ** Package [sim]: the simulator *)

Module Sim.

(** [var MockSensorValues = map[constants.SensorCode][]byte{...}].  The
    four values made with [roomba.Pack] are written with [packed]; [Pack]
    does not fail on them. *)
Definition packed (data : list value) : list Z := default [] (Pack data).

Definition mock_entries : list (Z * list Z) :=
  [ (SENSOR_BUMP_WHEELS_DROPS, [3]);
    (SENSOR_VIRTUAL_WALL, [5]);
    (SENSOR_CLIFF_RIGHT, [42]);
    (SENSOR_TEMPERATURE, [25]);
    (SENSOR_OI_MODE, [2]);
    (SENSOR_SONG_NUMBER, [1]);
    (SENSOR_DISTANCE, [10; 20]);
    (SENSOR_WALL, [35]);
    (SENSOR_BATTERY_CHARGE, packed [VUint16 1000]);
    (SENSOR_BATTERY_CAPACITY, packed [VUint16 1500]);
    (SENSOR_CURRENT, packed [VInt16 (-747)]);
    (SENSOR_CLIFF_FRONT_LEFT_SIGNAL, packed [VUint8 2; VUint8 25]) ].

Definition MockSensorValues : gmap Z (list Z) := list_to_map mock_entries.

(** [type RoombaSimulator struct].  [rw_in] is the read side of [rw], the
    pipe the client writes to: one entry for each write of the client that
    the simulator has not read to its end, in order; an entry can carry
    the error of a closed pipe.  [writeQ] holds the values sent on the
    channel and not yet received.  The field [WrittenBytes] is assigned
    nowhere and left out. *)
Record RoombaSimulator : Type := mkSim {
  rw_in : list (list Z * option error);
  writeQ : list (list Z);
  ReadBytes : list Z;
  RequestedVelocity : list Z;
  RequestedRadius : list Z
}.

Definition set_rw_in (r : list (list Z * option error)) (s : RoombaSimulator)
  : RoombaSimulator :=
  mkSim r (writeQ s) (ReadBytes s) (RequestedVelocity s) (RequestedRadius s).

Definition set_writeQ (q : list (list Z)) (s : RoombaSimulator) : RoombaSimulator :=
  mkSim (rw_in s) q (ReadBytes s) (RequestedVelocity s) (RequestedRadius s).

Definition set_ReadBytes (b : list Z) (s : RoombaSimulator) : RoombaSimulator :=
  mkSim (rw_in s) (writeQ s) b (RequestedVelocity s) (RequestedRadius s).

Definition set_RequestedVelocity (v : list Z) (s : RoombaSimulator) : RoombaSimulator :=
  mkSim (rw_in s) (writeQ s) (ReadBytes s) v (RequestedRadius s).

Definition set_RequestedRadius (r : list Z) (s : RoombaSimulator) : RoombaSimulator :=
  mkSim (rw_in s) (writeQ s) (ReadBytes s) (RequestedVelocity s) r.

(** The methods of the simulator run in the goroutine of [serve]: a
    computation takes the state and ends with a value, blocked or in a
    panic, in a new state.  [log.Printf] is not modelled. *)
Definition M (A : Type) : Type := RoombaSimulator -> outcome A * RoombaSimulator.

Definition ret {A : Type} (a : A) : M A := fun s => (Returns a, s).

Definition bind {A B : Type} (m : M A) (k : A -> M B) : M B :=
  fun s =>
    match m s with
    | (Returns a, s') => k a s'
    | (Blocks, s') => (Blocks, s')
    | (Panics, s') => (Panics, s')
    | (OutOfFuel, s') => (OutOfFuel, s')
    end.

Definition panic {A : Type} : M A := fun s => (Panics, s).

Definition get : M RoombaSimulator := fun s => (Returns s, s).

Definition modify (f : RoombaSimulator -> RoombaSimulator) : M unit :=
  fun s => (Returns tt, f s).

Notation "'let*' x ':=' m 'in' k" := (bind m (fun x => k))
  (at level 10, x name, m at level 100, k at level 200).

(** [func (sim *RoombaSimulator) read(n int) []byte].  [sim.rw.Read] is
    the read of a pipe, which hands over at most [n] bytes of the write at
    its head, as [S_Read] does; a read of another length than [n] gives
    the empty slice and the bytes it took are gone. *)
Definition read (n : nat) : M (list Z) :=
  fun s =>
    match S_Read n (port (rw_in s)) with
    | None => (Blocks, s)
    | Some ((buf, _), w) =>
        if negb (n =? length buf)%nat
        then (Returns [], set_rw_in (rx w) s)
        else (Returns buf, set_ReadBytes (ReadBytes s ++ buf) (set_rw_in (rx w) s))
    end.

(** The capacity of [writeQ]: [make(chan []byte, 15)]. *)
Definition writeQ_capacity : nat := 15.

(** [func (sim *RoombaSimulator) write(b []byte)]: the send [sim.writeQ <- b],
    in the schedule in which the writer goroutine has received nothing of
    what is waiting: with 15 values waiting the send blocks.  A send that
    goes through here goes through in every schedule, and the channel
    being first-in first-out, the values received and their order are the
    same in all of them. *)
Definition write (b : list Z) : M unit :=
  fun s =>
    if (length (writeQ s) <? writeQ_capacity)%nat
    then (Returns tt, set_writeQ (writeQ s ++ [b]) s)
    else (Blocks, s).

(** [x[0]]: a run-time panic on the empty slice. *)
Definition index0 (x : list Z) : M Z :=
  match x with
  | [] => panic
  | b :: _ => ret b
  end.

(** The value sent for a packet id by the cases [Sensors] and [QueryList]
    of [executeCMD]; [value] stays nil when nothing is found. *)
Definition requested_value (packetId : Z) (s : RoombaSimulator) : list Z :=
  match MockSensorValues !! packetId with
  | Some value => value
  | None =>
      if packetId =? SENSOR_REQUESTED_RADIUS then RequestedRadius s
      else if packetId =? SENSOR_REQUESTED_VELOCITY then RequestedVelocity s
      else []
  end.

(** The body of the loop of the case [QueryList], [nPackets] times. *)
Fixpoint query_loop (nPackets : nat) : M unit :=
  match nPackets with
  | O => ret tt
  | S n =>
      let* b := read 1 in
      let* packetId := index0 b in
      let* s := get in
      let* _ := write (requested_value packetId s) in
      query_loop n
  end.

(** The first loop of the case [SensorStream]:
    [packetIds[i] = constants.SensorCode(sim.read(1)[0])]. *)
Fixpoint read_ids (nBytes : nat) : M (list Z) :=
  match nBytes with
  | O => ret []
  | S n =>
      let* b := read 1 in
      let* packetId := index0 b in
      let* packetIds := read_ids n in
      ret (packetId :: packetIds)
  end.

(** The value streamed for a packet id: the mock value, or as many zero
    bytes as the table gives the id. *)
Definition stream_value (packetId : Z) : list Z :=
  match MockSensorValues !! packetId with
  | Some mockValue => mockValue
  | None => make_bytes (Z.to_nat (packet_length_or_zero packetId))
  end.

(** [sensorValues]: packet ids and values, no headers. *)
Definition sensorValues (packetIds : list Z) : list Z :=
  flat_map (fun packetId => packetId :: stream_value packetId) packetIds.

(** [checksum := byte(0); for _, b := range bs { checksum -= b }] *)
Definition checksum (bs : list Z) : Z :=
  fold_left (fun c b => wrap8 (c - b)) bs 0.

(** [output.Bytes()] of the case [SensorStream]. *)
Definition stream_output (packetIds : list Z) : list Z :=
  let messageLen := wrap8 (Z.of_nat (length (sensorValues packetIds))) in
  let output := 19 :: messageLen :: sensorValues packetIds in
  output ++ [checksum (tl output)].

Inductive exec_error : Type :=
| FailedReadingOpcode.  (* "failed reading opcode" *)

(** [func (sim *RoombaSimulator) executeCMD() error].  In the case
    [DriveDirect] the slice [data[:2]] of an empty [data] is a run-time
    panic; the two velocities are only logged. *)
Definition executeCMD : M (option exec_error) :=
  let* cmdBuf := read 1 in
  match cmdBuf with
  | [opcode] =>
      let* _ :=
        if opcode =? Constants.Sensors then
          let* b := read 1 in
          let* packetId := index0 b in
          let* s := get in
          write (requested_value packetId s)
        else if opcode =? Constants.QueryList then
          let* b := read 1 in
          let* nPackets := index0 b in
          query_loop (Z.to_nat nPackets)
        else if opcode =? Constants.SensorStream then
          let* b := read 1 in
          let* nBytes := index0 b in
          let* packetIds := read_ids (Z.to_nat nBytes) in
          write (stream_output packetIds)
        else if opcode =? Constants.Start then ret tt
        else if opcode =? Constants.Safe then ret tt
        else if opcode =? Constants.PauseResumeStream then
          let* b := read 1 in
          let* _ := index0 b in
          ret tt
        else if opcode =? Constants.DriveDirect then
          let* data := read 4 in
          match data with
          | [] => panic
          | _ => ret tt
          end
        else if opcode =? Constants.Drive then
          let* v := read 2 in
          let* _ := modify (set_RequestedVelocity v) in
          let* r := read 2 in
          modify (set_RequestedRadius r)
        else ret tt in
      ret None
  | _ => ret (Some FailedReadingOpcode)
  end.

(** The loop of [serve], [for { sim.executeCMD() }]: it ends blocked in a
    read or in a panic, never by returning. *)
Fixpoint serve (fuel : nat) (s : RoombaSimulator) : outcome Empty_set * RoombaSimulator :=
  match fuel with
  | O => (OutOfFuel, s)
  | S fuel' =>
      match executeCMD s with
      | (Returns _, s') => serve fuel' s'
      | (Blocks, s') => (Blocks, s')
      | (Panics, s') => (Panics, s')
      | (OutOfFuel, s') => (OutOfFuel, s')
      end
  end.

Definition serve_fuel (s : RoombaSimulator) : nat := S (rx_weight (rw_in s)).

(** The goroutine of [serve] that writes: what it writes to [rw], one
    write for each value, given the values it receives from the channel.
    It stops at the first empty value. *)
Fixpoint writer (received : list (list Z)) : list (list Z) :=
  match received with
  | [] => []
  | bs :: rest => if (length bs =? 0)%nat then [] else bs :: writer rest
  end.

(** [func (sim *RoombaSimulator) Stop()] *)
Definition Stop : M unit := write [].

(** [func MakeRoombaSim()], for a client that makes the given writes. *)
Definition MakeRoombaSim (client : list (list Z * option error)) : RoombaSimulator :=
  mkSim client [] [] [0; 0] [0; 0].

(** What the client finds in its port: the writes of the writer
    goroutine. *)
Definition replies (s : RoombaSimulator) : list (list Z * option error) :=
  map ok (writer (writeQ s)).

End Sim.

(** The entries of the frame the simulator streams for a list of ids. *)
Definition stream_entries (packetIds : list Z) : list (Z * list Z) :=
  map (fun id => (id, Sim.stream_value id)) packetIds.

(** What a pipe holds once the bytes before [bs] of the write at its head
    are read: a write that is read to its end is gone. *)
Definition remaining (bs : list Z) (rest : list (list Z * option error))
  : list (list Z * option error) :=
  match bs with
  | [] => rest
  | _ => ok bs :: rest
  end.

(** The writes of the driver, one for each [S.Write], in a stretch of the
    log. *)
Fixpoint writes_of (tr : list event) : list (list Z) :=
  match tr with
  | [] => []
  | EvWrite p :: tr' => p :: writes_of tr'
  | _ :: tr' => writes_of tr'
  end.

(** * Properties *)

(** ** Sensor registry *)

Example lookup_distance : SENSOR_PACKET_LENGTH !! SENSOR_DISTANCE = Some 2.
Proof. vm_compute. reflexivity. Qed.

Example lookup_43 : SENSOR_PACKET_LENGTH !! 43 = None.
Proof. vm_compute. reflexivity. Qed.

(** Every entry of the table is one of the literal's. *)
Lemma packet_length_entry (code len : Z) :
  SENSOR_PACKET_LENGTH !! code = Some len -> (code, len) ∈ packet_length_entries.
Proof. apply elem_of_list_to_map_2. Qed.

Lemma entries_single_or_group : Forall single_or_group packet_length_entries.
Proof.
  apply (bool_decide_unpack (Forall single_or_group packet_length_entries)).
  vm_compute. exact I.
Qed.

(** C6, as stated, fails: packet 0 is registered with 26 bytes. *)
Lemma packet_length_not_one_or_two :
  ~ (forall code len : Z,
        SENSOR_PACKET_LENGTH !! code = Some len -> len = 1 \/ len = 2).
Proof.
  intros H. assert (E : SENSOR_PACKET_LENGTH !! 0 = Some 26) by (vm_compute; reflexivity).
  apply H in E. lia.
Qed.

(** C6 (amended).  A code registered in [SENSOR_PACKET_LENGTH] is either a
    single sensor packet, 7 to 42, whose length is 1 or 2 bytes, or one of
    the group packets 0 to 6; and the table holds each of the group packets
    0 to 6, with the lengths 26, 10, 6, 10, 14, 12 and 52 bytes. *)
Theorem packet_length_one_or_two_or_group :
  (forall code len : Z,
      SENSOR_PACKET_LENGTH !! code = Some len ->
      (7 <= code <= 42 /\ (len = 1 \/ len = 2)) \/ (code, len) ∈ group_packets) /\
  (forall code len : Z,
      (code, len) ∈ group_packets -> SENSOR_PACKET_LENGTH !! code = Some len) /\
  map (fun code => SENSOR_PACKET_LENGTH !! code) [0; 1; 2; 3; 4; 5; 6]
  = [Some 26; Some 10; Some 6; Some 10; Some 14; Some 12; Some 52].
Proof.
  split_and!.
  - intros code len H. apply packet_length_entry in H.
    pose proof entries_single_or_group as F.
    rewrite Forall_forall in F. exact (F _ H).
  - intros code len H. unfold group_packets in H.
    repeat (apply elem_of_cons in H; destruct H as [H|H];
            [injection H as -> ->; vm_compute; reflexivity|]).
    apply elem_of_nil in H. contradiction.
  - vm_compute. reflexivity.
Qed.

Lemma packet_length_one_or_two_or_group_witness :
  SENSOR_PACKET_LENGTH !! SENSOR_DISTANCE = Some 2 /\
  ((7 <= SENSOR_DISTANCE <= 42 /\ (2 = 1 \/ 2 = 2))
   \/ (SENSOR_DISTANCE, 2) ∈ group_packets) /\
  SENSOR_PACKET_LENGTH !! 6 = Some 52.
Proof.
  split_and!.
  - vm_compute. reflexivity.
  - apply (proj1 packet_length_one_or_two_or_group SENSOR_DISTANCE 2).
    vm_compute. reflexivity.
  - apply (proj1 (proj2 packet_length_one_or_two_or_group) 6 52).
    unfold group_packets. do 6 apply list_elem_of_further. apply list_elem_of_here.
Defined.

(** ** Value encoder *)

Example Pack_drive_payload :
  Pack [VInt16 200; VInt16 (-100)] = Some [0x00; 0xC8; 0xFF; 0x9C].
Proof. reflexivity. Qed.

Example Pack_go_int : Pack [VInt16 200; VInt 3] = None.
Proof. reflexivity. Qed.

Lemma wrap8_range (z : Z) : 0 <= wrap8 z < 256.
Proof. unfold wrap8. apply Z.mod_pos_bound. lia. Qed.

Lemma wrap8_small (z : Z) : 0 <= z < 256 -> wrap8 z = z.
Proof. intros H. unfold wrap8. apply Z.mod_small. exact H. Qed.

(** The two bytes [PutUint16] stores denote the value mod 2^16. *)
Lemma PutUint16_value (x : Z) : big_endian_value (PutUint16 x) = x mod 2 ^ 16.
Proof.
  unfold big_endian_value, PutUint16, wrap8. cbn [fold_left].
  rewrite Z.shiftr_div_pow2 by lia.
  change (2 ^ 16) with (256 * 256). change (2 ^ 8) with 256.
  rewrite (Z.rem_mul_r x 256 256) by lia. lia.
Qed.

Lemma encoding_big_endian (v : value) :
  fixed_width v -> big_endian_repr v (encoding v).
Proof.
  destruct v as [x|x|x|x|x]; cbn; intros F; try contradiction;
    (split; [reflexivity|split]).
  all: try (repeat constructor; apply wrap8_range).
  all: try apply PutUint16_value.
  all: try (rewrite PutUint16_value; unfold wrap16;
            change (2 ^ 16) with 65536; apply Z.mod_mod; lia).
  all: unfold big_endian_value, wrap8; cbn [fold_left];
       change (2 ^ (8 * Z.of_nat 1)) with 256; lia.
Qed.

(** [Pack_from] only ever appends, and appends the encodings in order. *)
Lemma Pack_from_fixed (data : list value) (buf : list Z) :
  Forall fixed_width data ->
  Pack_from buf data = Some (buf ++ concat (map encoding data)).
Proof.
  intros F. revert buf. induction F as [|v data Fv _ IH]; intros buf; cbn.
  - rewrite app_nil_r. reflexivity.
  - destruct v; cbn in Fv |- *; try contradiction;
      rewrite IH, <- app_assoc; reflexivity.
Qed.

(** C8.  [Pack] maps a sequence of fixed-width integers to the
    concatenation, in order, of their big-endian representations, with
    nothing before, between or after them: the output is [concat chunks]
    where the i-th chunk has the width of the i-th value and denotes it,
    most significant byte first.  In particular [int16(-500)], [int16(2000)]
    gives the bytes FE 0C 07 D0. *)
Theorem Pack_big_endian_concat (data : list value) :
  Forall fixed_width data ->
  (exists chunks : list (list Z),
      Pack data = Some (concat chunks) /\
      Forall2 big_endian_repr data chunks /\
      length (concat chunks) = sum_list (map width_bytes data)) /\
  Pack [VInt16 (-500); VInt16 2000] = Some [0xFE; 0x0C; 0x07; 0xD0].
Proof.
  intros F. split; [|reflexivity].
  exists (map encoding data). split; [|split].
  - unfold Pack. rewrite (Pack_from_fixed data [] F). reflexivity.
  - induction F as [|v data Fv _ IH]; cbn; constructor.
    + apply encoding_big_endian, Fv.
    + exact IH.
  - induction F as [|v data Fv _ IH]; cbn; [reflexivity|].
    rewrite length_app, IH.
    destruct v; cbn in Fv |- *; try contradiction; reflexivity.
Qed.

Lemma Pack_big_endian_concat_witness :
  Forall fixed_width [VInt16 (-500); VInt16 2000; VUint8 255] /\
  exists chunks : list (list Z),
    Pack [VInt16 (-500); VInt16 2000; VUint8 255] = Some (concat chunks) /\
    Forall2 big_endian_repr [VInt16 (-500); VInt16 2000; VUint8 255] chunks /\
    length (concat chunks) = 5%nat.
Proof.
  assert (F : Forall fixed_width [VInt16 (-500); VInt16 2000; VUint8 255])
    by (repeat constructor).
  split; [exact F|].
  exact (proj1 (Pack_big_endian_concat _ F)).
Defined.

(** ** Command layer *)

Example Drive_ok :
  option_map (fun r => (r.1, tx r.2)) (Drive 200 (-100) (port []))
  = Some (None, [137; 0x00; 0xC8; 0xFF; 0x9C]).
Proof. vm_compute. reflexivity. Qed.

Example Drive_501 :
  option_map (fun r => (r.1, tx r.2)) (Drive 501 0 (port []))
  = Some (Some (InvalidVelocity 501), []).
Proof. vm_compute. reflexivity. Qed.

Example Drive_turn_in_place :
  option_map (fun r => (r.1, tx r.2)) (Drive 100 (-1) (port []))
  = Some (None, [137; 0x00; 0x64; 0xFF; 0xFF]).
Proof. vm_compute. reflexivity. Qed.

(** C5 (the code at the failing input).  [Drive] never writes anything for
    the radius 32767, the "straight" value of its own documentation: the
    range check on the radius has no exception for it, so for a velocity in
    [-500, 500] the call returns the error "invalid readius: 32767", and
    for any other velocity the error on the velocity; the port is left as
    it was. *)
Theorem Drive_straight_sentinel_rejected (velocity : Z) (w : world) :
  Drive velocity 32767 w =
  Some (Some (if (-500 <=? velocity) && (velocity <=? 500)
              then InvalidRadius 32767 else InvalidVelocity velocity), w).
Proof.
  unfold Drive. destruct ((-500 <=? velocity) && (velocity <=? 500)); reflexivity.
Qed.

(** ** Synchronous queries *)

Example Sensors_one_read :
  (Sensors SENSOR_DISTANCE (port [ok [10; 20]])).1 = Returns ([10; 20], None).
Proof. vm_compute. reflexivity. Qed.

Example Sensors_two_reads :
  (Sensors SENSOR_DISTANCE (port [ok [10]; ok [20]])).1 = Returns ([10; 20], None).
Proof. vm_compute. reflexivity. Qed.

Example Sensors_writes_request :
  tx (Sensors SENSOR_DISTANCE (port [ok [10; 20]])).2 = [0x8E; 19].
Proof. vm_compute. reflexivity. Qed.

Example QueryList_two :
  (QueryList [SENSOR_WALL; SENSOR_DISTANCE] (port [ok [35]; ok [10]; ok [20]])).1
  = Returns ([[35]; [10; 20]], None).
Proof. vm_compute. reflexivity. Qed.

(** C1 (the code at the failing input).  Packet 2 is registered with 6
    bytes.  When the port delivers the bytes 1 2 3 4 5 6 as 1 | 2 | 3 4 5 6,
    [Sensors] returns 1 3 4 5 6 0 without an error: the third read goes to
    [result[n:]] where [n] is the count of the second read alone (1), not
    the number of bytes accumulated (2).  Delivered as 1 2 | 3 4 | 5 6 the
    result is 1 2 5 6 0 0.  A two-byte packet is hit as well when a read
    returns no byte: 10 | (nothing) | 20 gives 20 0. *)
Theorem Sensors_three_fragments :
  SENSOR_PACKET_LENGTH !! 2 = Some 6 /\
  (Sensors 2 (port [ok [1]; ok [2]; ok [3; 4; 5; 6]])).1
    = Returns ([1; 3; 4; 5; 6; 0], None) /\
  (Sensors 2 (port [ok [1; 2]; ok [3; 4]; ok [5; 6]])).1
    = Returns ([1; 2; 5; 6; 0; 0], None) /\
  (Sensors SENSOR_DISTANCE (port [ok [10]; ok []; ok [20]])).1
    = Returns ([20; 0], None).
Proof. vm_compute. repeat split; reflexivity. Qed.

(** ** Streaming *)

Example stream_one_frame_then_pause :
  let '(x, w) := ReadStream [SENSOR_BUMP_WHEELS_DROPS]
                   (streaming [ok [19; 2]; ok [7; 5; 242]] [false; true]) in
  x = ExitPaused /\ out w = [[[5]]] /\ out_closed w = true /\ tx w = [0x96; 0].
Proof. vm_compute. repeat split; reflexivity. Qed.

(** *** Frame validation *)

Lemma add_bytes_app (s : Z) (a b : list Z) :
  add_bytes s (a ++ b) = add_bytes (add_bytes s a) b.
Proof. unfold add_bytes. apply fold_left_app. Qed.

(** Wrapping after every addition or once at the end is the same. *)
Lemma add_bytes_sum (s : Z) (bs : list Z) :
  wrap8 (add_bytes s bs) = (s + fold_right Z.add 0 bs) mod 256.
Proof.
  revert s. induction bs as [|b bs IH]; intros s; cbn.
  - unfold wrap8. f_equal. lia.
  - change (fold_left (fun s0 b0 => wrap8 (s0 + b0)) bs (wrap8 (s + b)))
      with (add_bytes (wrap8 (s + b)) bs).
    rewrite IH. unfold wrap8.
    rewrite Zplus_mod_idemp_l. f_equal. lia.
Qed.

(** The inner loop in closed form: nothing to read; or one read that fills
    the payload; or too few bytes left, and the process ends. *)
Lemma read_payload_closed (bytesToRead : nat) (r : list Z) :
  read_payload bytesToRead r
  = if (bytesToRead =? 0)%nat then Some ([], r)
    else if (bytesToRead <=? length r)%nat
         then Some (take bytesToRead r, drop bytesToRead r)
         else None.
Proof.
  unfold read_payload, make_bytes. destruct bytesToRead as [|m]; [reflexivity|].
  cbn [Nat.eqb read_payload_loop].
  destruct r as [|b r]; [reflexivity|].
  rewrite length_replicate, Nat.sub_0_r.
  destruct (Nat.leb_spec (S m) (length (b :: r))) as [L|L].
  - rewrite Nat.min_l by lia. rewrite Nat.sub_diag.
    cbn [read_payload_loop Nat.add]. f_equal. f_equal.
    unfold copy_at. rewrite take_0. cbn [app Nat.add].
    rewrite drop_ge; [apply app_nil_r|].
    rewrite length_take, length_replicate. lia.
  - rewrite Nat.min_r by lia.
    rewrite drop_all.
    destruct (S m - length (b :: r))%nat as [|k] eqn:E; [lia|].
    destruct m as [|m']; [cbn in L; lia|]. reflexivity.
Qed.

Lemma read_payload_exact (payload rest : list Z) :
  read_payload (length payload) (payload ++ rest) = Some (payload, rest).
Proof.
  rewrite read_payload_closed. destruct payload as [|b payload]; [reflexivity|].
  cbn [length Nat.eqb].
  assert (L : (S (length payload) <=? length ((b :: payload) ++ rest))%nat = true).
  { apply Nat.leb_le. rewrite length_app. cbn. lia. }
  rewrite L. f_equal.
  change (S (length payload)) with (length (b :: payload)).
  rewrite take_app_length, drop_app_length. reflexivity.
Qed.

(** The walk over a frame made of entries with the lengths of the table
    consumes exactly the entries and stops in front of the checksum. *)
Lemma frame_entries_body (entries : list (Z * list Z)) :
  forall (slots : nat) (sum checksum : Z) (filled : list (list Z)),
    entries <> [] ->
    (length entries <= slots)%nat ->
    Forall (fun e => Z.of_nat (length e.2) = packet_length_or_zero e.1) entries ->
    frame_entries slots (frame_body entries ++ [checksum]) sum filled
    = WalkEnd [checksum] (add_bytes sum (frame_body entries))
              (filled ++ map snd entries).
Proof.
  induction entries as [|[code payload] rest IH];
    intros slots sum checksum filled Hne Hslots Hlen; [congruence|].
  apply Forall_cons in Hlen as [Hp Hrest]. cbn [fst snd] in Hp.
  destruct slots as [|slots']; [cbn in Hslots; lia|].
  change (frame_body ((code, payload) :: rest))
    with ((code :: payload) ++ frame_body rest).
  cbn [app frame_entries].
  rewrite <- Hp, Nat2Z.id, <- app_assoc, read_payload_exact.
  change (add_bytes sum (code :: payload ++ frame_body rest))
    with (add_bytes (wrap8 (sum + code)) (payload ++ frame_body rest)).
  rewrite add_bytes_app.
  destruct rest as [|e rest'].
  - reflexivity.
  - assert (L : (length (frame_body (e :: rest') ++ [checksum]) =? 1)%nat = false).
    { apply Nat.eqb_neq. unfold frame_body. cbn.
      rewrite !length_app. cbn. lia. }
    rewrite L, IH, <- app_assoc; [reflexivity|congruence| |exact Hrest].
    cbn in Hslots |- *. lia.
Qed.

Lemma wire_frame_length (entries : list (Z * list Z)) (checksum : Z) :
  length (wire_frame entries checksum) = (length (frame_body entries) + 3)%nat.
Proof. unfold wire_frame. cbn. rewrite length_app. cbn. lia. Qed.

(** What [process_frame] makes of a well-formed frame: the checksum
    decides, and nothing else does. *)
Lemma process_wire_frame (packetIds : list Z) (entries : list (Z * list Z))
    (checksum : Z) :
  entries <> [] ->
  length entries = length packetIds ->
  Forall (fun e => Z.of_nat (length e.2) = packet_length_or_zero e.1) entries ->
  (length (wire_frame entries checksum) <= 255)%nat ->
  process_frame packetIds (wire_frame entries checksum)
  = if byte_sum (checked_bytes entries checksum) =? 0
    then FrameOk (map snd entries)
    else FrameFatal (ChecksumMismatch (byte_sum (checked_bytes entries checksum))).
Proof.
  intros Hne Hk Hlen Hsz.
  pose proof (wire_frame_length entries checksum) as HL.
  assert (HN : wrap8 (Z.of_nat (length (wire_frame entries checksum)) - 3)
               = Z.of_nat (length (frame_body entries))).
  { rewrite HL.
    replace (Z.of_nat (length (frame_body entries) + 3) - 3)
      with (Z.of_nat (length (frame_body entries))) by lia.
    apply wrap8_small. lia. }
  unfold process_frame.
  change (wire_frame entries checksum)
    with (19 :: Z.of_nat (length (frame_body entries))
             :: frame_body entries ++ [checksum]) at 1.
  cbv iota. change (19 =? 19) with true. cbn [negb].
  rewrite HN, Z.eqb_refl. cbn [negb].
  rewrite (frame_entries_body entries (length packetIds) _ checksum [])
    by (try assumption; lia).
  assert (HS : wrap8 (add_bytes (Z.of_nat (length (frame_body entries)))
                                (frame_body entries) + checksum)
               = byte_sum (checked_bytes entries checksum)).
  { change (wrap8 (add_bytes (Z.of_nat (length (frame_body entries)))
                             (frame_body entries) + checksum))
      with (add_bytes (add_bytes (Z.of_nat (length (frame_body entries)))
                                 (frame_body entries)) [checksum]).
    rewrite <- add_bytes_app.
    rewrite <- (wrap8_small (add_bytes _ (frame_body entries ++ [checksum]))).
    - rewrite add_bytes_sum. reflexivity.
    - rewrite add_bytes_app. cbn. apply wrap8_range. }
  rewrite HS. cbn [app].
  rewrite length_map, Hk, Nat.sub_diag. cbn [replicate]. rewrite app_nil_r.
  destruct (byte_sum (checked_bytes entries checksum) =? 0); reflexivity.
Qed.

Example frame_ok :
  process_frame [SENSOR_BUMP_WHEELS_DROPS; SENSOR_DISTANCE]
                (wire_frame [(7, [3]); (19, [10; 20])] 192)
  = FrameOk [[3]; [10; 20]].
Proof. vm_compute. reflexivity. Qed.

(** A session without ids: the walk takes the checksum for a packet id and
    the assignment to [result[0]] panics. *)
Example frame_of_empty_session : process_frame [] [19; 0; 0] = FramePanic.
Proof. vm_compute. reflexivity. Qed.

Example frame_bit_flip :
  process_frame [SENSOR_BUMP_WHEELS_DROPS; SENSOR_DISTANCE]
                (wire_frame [(7, [3]); (19, [10; 21])] 192)
  = FrameFatal (ChecksumMismatch 1).
Proof. vm_compute. reflexivity. Qed.


(** *** What the primitives touch *)

Lemma rx_weight_cons (bs : list Z) (e : option error) (r : list (list Z * option error)) :
  rx_weight ((bs, e) :: r) = (S (length bs) + rx_weight r)%nat.
Proof. reflexivity. Qed.

(** A read only consumes [rx] and logs itself. *)
Lemma S_Read_frame (k : nat) (w w' : world) (bs : list Z) (err : option error) :
  S_Read k w = Some ((bs, err), w') ->
  wx w' = wx w /\ tx w' = tx w /\ StreamPaused w' = StreamPaused w /\
  out w' = out w /\ out_closed w' = out_closed w /\
  events w' = events w ++ [EvRead (length bs) err] /\
  (length bs <= k)%nat /\
  (rx_weight (rx w') <= rx_weight (rx w))%nat /\
  ((1 <= k)%nat -> (rx_weight (rx w') < rx_weight (rx w))%nat).
Proof.
  unfold S_Read. destruct (rx w) as [|[bs0 e0] rest] eqn:E; [discriminate|].
  destruct (Nat.leb_spec (length bs0) k) as [L|L]; intros H;
    inversion H; subst; clear H; cbn; rewrite ?E, ?rx_weight_cons.
  - split_and!; try reflexivity; try lia.
  - rewrite !length_take, !length_drop.
    replace (k `min` length bs0)%nat with k by lia.
    split_and!; try reflexivity; try lia.
Qed.

Lemma S_Read_blocks (k : nat) (w : world) : S_Read k w = None <-> rx w = [].
Proof.
  unfold S_Read. destruct (rx w) as [|[bs e] rest]; [tauto|].
  destruct (length bs <=? k)%nat; split; discriminate.
Qed.

(** A write only moves [wx] and [tx] and logs what the port accepted. *)
Lemma S_Write_frame (p : list Z) (w : world) :
  let w' := (S_Write p w).2 in
  rx w' = rx w /\ StreamPaused w' = StreamPaused w /\
  out w' = out w /\ out_closed w' = out_closed w /\
  exists q, events w' = events w ++ [EvWrite q] /\ tx w' = tx w ++ q /\
            (wx w = [] -> q = p /\ wx w' = [] /\ (S_Write p w).1 = (length p, None)).
Proof.
  unfold S_Write. destruct (wx w) as [|[|n err] rest] eqn:E; cbn;
    (split_and!; try reflexivity; eexists; split_and!; try reflexivity;
     intros W; try discriminate W; split_and!; reflexivity).
Qed.

Lemma Write_frame (opcode : Z) (p : list Z) (w : world) :
  let w' := (Write opcode p w).2 in
  rx w' = rx w /\ StreamPaused w' = StreamPaused w /\
  out w' = out w /\ out_closed w' = out_closed w /\
  exists wr, events w' = events w ++ wr /\ Forall is_write wr /\
             tx w' = tx w ++ written_bytes wr /\
             (wx w = [] ->
              wr = [EvWrite [opcode]; EvWrite p] /\ wx w' = [] /\
              (Write opcode p w).1 = None).
Proof.
  unfold Write.
  pose proof (S_Write_frame [opcode] w) as H1.
  destruct (S_Write [opcode] w) as [[n err] w1]. cbn [snd fst] in H1.
  destruct H1 as (R1 & P1 & O1 & C1 & q1 & E1 & T1 & A1).
  destruct (negb (n =? 1)%nat || bool_decide (is_Some err)) eqn:B1; cbn [snd fst].
  - split_and!; try assumption. exists [EvWrite q1].
    split_and!; [assumption|repeat constructor|cbn; rewrite app_nil_r; assumption|].
    intros W. destruct (A1 W) as (_ & _ & A). inversion A; subst. discriminate B1.
  - pose proof (S_Write_frame p w1) as H2.
    destruct (S_Write p w1) as [[n2 err2] w2]. cbn [snd fst] in H2.
    destruct H2 as (R2 & P2 & O2 & C2 & q2 & E2 & T2 & A2).
    assert (G : rx w2 = rx w /\ StreamPaused w2 = StreamPaused w /\
                out w2 = out w /\ out_closed w2 = out_closed w /\
                exists wr, events w2 = events w ++ wr /\ Forall is_write wr /\
                  tx w2 = tx w ++ written_bytes wr /\
                  (wx w = [] -> wr = [EvWrite [opcode]; EvWrite p] /\ wx w2 = [] /\
                                (n2, err2) = (length p, None))).
    { split_and!; try congruence. exists [EvWrite q1; EvWrite q2].
      split_and!.
      - rewrite E2, E1, <- app_assoc. reflexivity.
      - repeat constructor.
      - cbn. rewrite app_nil_r, T2, T1, <- app_assoc. reflexivity.
      - intros H. destruct (A1 H) as (-> & W1 & _).
        destruct (A2 W1) as (-> & W2 & A).
        split_and!; [reflexivity|exact W2|exact A]. }
    destruct G as (G1 & G2 & G3 & G4 & wr & G5 & G6 & G7 & G8).
    destruct (negb (n2 =? length p)%nat || bool_decide (is_Some err2)) eqn:B2;
      cbn [snd fst]; split_and!; try assumption; exists wr;
      split_and!; try assumption; intros W; destruct (G8 W) as (Gw & Gx & Gr);
      split_and!; try assumption; try reflexivity.
    inversion Gr; subst. rewrite Nat.eqb_refl in B2. discriminate B2.
Qed.

(** *** The accumulation loop *)

(** What one accumulation does to the world: it only reads.  Every read
    shrinks [rx], so the bound [read_fuel] is never reached; a retry is
    preceded by a read that failed; a full frame over a non-empty buffer
    took at least one read. *)
Lemma read_frame_spec (fuel : nat) :
  forall (buf : list Z) (n : nat) (w : world) r buf' w',
    read_frame fuel buf n w = (r, buf', w') ->
    wx w' = wx w /\ tx w' = tx w /\ StreamPaused w' = StreamPaused w /\
    out w' = out w /\ out_closed w' = out_closed w /\
    exists reads,
      events w' = events w ++ reads /\ Forall is_read reads /\
      (rx_weight (rx w') + length reads <= rx_weight (rx w))%nat /\
      match r with
      | FrameRetry => exists m e, last reads = Some (EvRead m (Some e))
      | FrameFull => ((n < length buf)%nat /\ exists m, last reads = Some (EvRead m None))
                     \/ (reads = [] /\ buf' = buf /\ (length buf <= n)%nat)
      | FrameOutOfFuel => (fuel <= rx_weight (rx w))%nat
      | _ => True
      end.
Proof.
  induction fuel as [|fuel IH]; intros buf n w r buf' w' H; cbn [read_frame] in H.
  - inversion H; subst. split_and!; try reflexivity.
    exists []. rewrite app_nil_r. split_and!; [reflexivity|constructor|cbn; lia|lia].
  - destruct (Nat.ltb_spec n (length buf)) as [L|L].
    + destruct (S_Read (length buf - n) w) as [[[bs err] w1]|] eqn:R.
      * apply S_Read_frame in R as (X1 & X2 & X3 & X4 & X5 & X6 & X7 & X8 & X9).
        assert (X10 : (rx_weight (rx w1) < rx_weight (rx w))%nat) by (apply X9; lia).
        destruct err as [e|].
        -- assert (G : wx w1 = wx w /\ tx w1 = tx w /\
                       StreamPaused w1 = StreamPaused w /\ out w1 = out w /\
                       out_closed w1 = out_closed w /\
                       events w1 = events w ++ [EvRead (length bs) (Some e)] /\
                       Forall is_read [EvRead (length bs) (Some e)] /\
                       (rx_weight (rx w1) + length [EvRead (length bs) (Some e)]
                        <= rx_weight (rx w))%nat).
           { split_and!; try assumption; [repeat constructor|cbn; lia]. }
           destruct G as (G1 & G2 & G3 & G4 & G5 & G6 & G7 & G8).
           destruct e; inversion H; subst; split_and!; try assumption;
             eexists; split_and!; try eassumption; try exact I;
             eexists; eexists; reflexivity.
        -- apply IH in H as (Y1 & Y2 & Y3 & Y4 & Y5 & reads & Y6 & Y7 & Y8 & Y9).
           split_and!; try congruence.
           exists (EvRead (length bs) None :: reads). split_and!.
           ++ rewrite Y6, X6, <- app_assoc. reflexivity.
           ++ constructor; [exact I|exact Y7].
           ++ cbn [length]. lia.
           ++ destruct r; try exact I.
              ** left. split; [exact L|].
                 destruct Y9 as [[_ [m Hm]]|[-> _]].
                 --- exists m. rewrite last_cons, Hm. reflexivity.
                 --- eexists. reflexivity.
              ** destruct Y9 as (m & e & Hm). exists m, e.
                 rewrite last_cons, Hm. reflexivity.
              ** lia.
      * inversion H; subst. split_and!; try reflexivity.
        exists []. rewrite app_nil_r. split_and!; [reflexivity|constructor|cbn; lia|exact I].
    + inversion H; subst. split_and!; try reflexivity.
      exists []. rewrite app_nil_r. split_and!; [reflexivity|constructor|cbn; lia|].
      right. split_and!; [reflexivity|reflexivity|exact L].
Qed.

Lemma read_frame_enough_fuel (buf : list Z) (w : world) buf' w' :
  read_frame (read_fuel w) buf O w <> (FrameOutOfFuel, buf', w').
Proof.
  intros H. apply read_frame_spec in H as (_ & _ & _ & _ & _ & reads & _ & _ & _ & F).
  unfold read_fuel in F. lia.
Qed.

Lemma poll_pause_frame (w w0 : world) (b : bool) :
  poll_pause w = (b, w0) ->
  rx w0 = rx w /\ wx w0 = wx w /\ tx w0 = tx w /\ out w0 = out w /\
  out_closed w0 = out_closed w /\ events w0 = events w.
Proof.
  unfold poll_pause. destruct (StreamPaused w) as [|b' rest]; intros H;
    inversion H; subst; split_and!; reflexivity.
Qed.

(** *** From the bounded loop to its runs *)

Section StreamRuns.

(** The ids of the session, fixed for all its iterations. *)
Variable packetIds : list Z.

Lemma stream_loop_run (fuel : nat) :
  forall (buf : list Z) (w : world) x w',
    stream_loop fuel packetIds buf w = (x, w') ->
    x <> ExitOutOfFuel ->
    stream_run packetIds buf w x w'.
Proof.
  induction fuel as [|fuel IH]; intros buf w x w' H Hx; cbn [stream_loop] in H.
  - inversion H; subst. contradiction.
  - destruct (poll_pause w) as [paused w0] eqn:P. destruct paused.
    + destruct (Write PauseResumeStream [0] (log EvPaused w0)) as [r w1] eqn:W.
      inversion H; subst.
      replace w1 with (Write PauseResumeStream [0] (log EvPaused w0)).2
        by (rewrite W; reflexivity).
      apply run_paused. exact P.
    + destruct (read_frame (read_fuel w0) buf 0 w0) as [[r buf1] w1] eqn:R.
      destruct r.
      * destruct (process_frame packetIds buf1) as [result|m|] eqn:F.
        -- eapply run_deliver; eauto.
        -- inversion H; subst. eapply run_fatal; eauto.
        -- inversion H; subst. eapply run_panic; eauto.
      * inversion H; subst. eapply run_eof; eauto.
      * eapply run_retry; eauto.
      * inversion H; subst. eapply run_blocked; eauto.
      * inversion H; subst. contradiction.
Qed.

(** The bound of [ReadStream] is enough: the loop never stops for want of
    iterations. *)
Lemma stream_loop_enough_fuel (fuel : nat) :
  forall (buf : list Z) (w : world),
    (rx_weight (rx w) < fuel)%nat ->
    (stream_loop fuel packetIds buf w).1 <> ExitOutOfFuel.
Proof.
  induction fuel as [|fuel IH]; intros buf w Hf; [lia|].
  cbn [stream_loop].
  destruct (poll_pause w) as [paused w0] eqn:P.
  apply poll_pause_frame in P as (P1 & _).
  destruct paused.
  - destruct (Write PauseResumeStream [0] (log EvPaused w0)). cbn. discriminate.
  - destruct (read_frame (read_fuel w0) buf 0 w0) as [[r buf1] w1] eqn:R.
    pose proof R as R'.
    apply read_frame_spec in R' as (_ & _ & _ & _ & _ & reads & _ & _ & Wt & Sh).
    rewrite P1 in Wt.
    destruct r; cbn; try discriminate.
    + destruct (process_frame packetIds buf1) as [result|m|] eqn:F;
        cbn; try discriminate.
      apply IH. change (rx (send_out result w1)) with (rx w1).
      destruct Sh as [[_ [m Hm]]|(_ & -> & L)].
      * destruct reads; [discriminate|]. cbn in Wt. lia.
      * destruct buf; [|cbn in L; lia]. cbn in F. discriminate.
    + apply IH. destruct Sh as (m & e & Hm).
      destruct reads; [discriminate|]. cbn in Wt. lia.
    + unfold read_fuel in Sh. lia.
Qed.

(** *** The shape of a run *)

Lemma at_loop_head_app (l1 l2 : list event) :
  at_loop_head l2 -> (l2 = [] -> at_loop_head l1) ->
  at_loop_head (l1 ++ l2).
Proof.
  unfold at_loop_head. rewrite last_app.
  destruct (last l2) as [e|] eqn:E; [tauto|].
  intros _ H. apply H. apply last_None. exact E.
Qed.

Lemma sent_frames_app (l1 l2 : list event) :
  sent_frames (l1 ++ l2) = sent_frames l1 ++ sent_frames l2.
Proof.
  induction l1 as [|e l1 IH]; [reflexivity|].
  destruct e; cbn; rewrite IH; reflexivity.
Qed.

Lemma sent_frames_reads (l : list event) : Forall is_read l -> sent_frames l = [].
Proof.
  induction 1 as [|e l He _ IH]; [reflexivity|].
  destruct e; cbn in He |- *; try contradiction. exact IH.
Qed.

Lemma reads_are_round_events (l : list event) :
  Forall is_read l -> Forall is_round_event l.
Proof.
  intros H. eapply Forall_impl; [exact H|].
  intros e; destruct e; cbn; tauto.
Qed.

(** A run that ends in the accumulation, or on the frame it accumulated,
    has done nothing but reads since the head of the loop. *)
Ltac ends_after_reads R :=
  let reads := fresh "reads" in
  let F := fresh "F" in
  apply read_frame_spec in R as (? & ? & ? & ? & ? & reads & ? & F & _);
  exists reads; split_and!; try congruence;
  [ apply reads_are_round_events, F
  | rewrite sent_frames_reads, app_nil_r by exact F; congruence ].

(** Every run is a sequence of rounds (reads and deliveries) followed, when
    it ends on a pause, by the pause itself, one [Write] and the close; the
    pause comes at the head of the loop; nothing but a pause closes the channel
    or writes to the port. *)
Lemma stream_run_summary (buf : list Z) (w : world) x w' :
  stream_run packetIds buf w x w' ->
  exists rounds,
    Forall is_round_event rounds /\
    out w' = out w ++ sent_frames rounds /\
    match x with
    | ExitPaused =>
        at_loop_head rounds /\
        out_closed w' = true /\
        exists wr,
          events w' = events w ++ rounds ++ EvPaused :: wr ++ [EvClose] /\
          Forall is_write wr /\
          tx w' = tx w ++ written_bytes wr /\
          (wx w = [] -> wr = [EvWrite [PauseResumeStream]; EvWrite [0]])
    | _ =>
        events w' = events w ++ rounds /\
        out_closed w' = out_closed w /\ tx w' = tx w /\ wx w' = wx w
    end.
Proof.
  induction 1 as
    [ buf w w0 P
    | buf w w0 buf1 w1 P R
    | buf w w0 buf1 w1 P R
    | buf w w0 buf1 w1 x w' P R _ IH
    | buf w w0 buf1 w1 m P R F
    | buf w w0 buf1 w1 P R F
    | buf w w0 buf1 w1 result x w' P R F _ IH ];
    apply poll_pause_frame in P as (P1 & P2 & P3 & P4 & P5 & P6).
  - exists []. split; [constructor|]. 
    pose proof (Write_frame PauseResumeStream [0] (log EvPaused w0))
      as (W1 & W2 & W3 & W4 & wr & W5 & W6 & W7 & W8).
    cbn [out close_out log set_out out_closed events tx] in *.
    split; [rewrite W3, P4, app_nil_r; reflexivity|].
    split; [exact I|]. split; [reflexivity|].
    exists wr. split_and!.
    + rewrite W5, P6, <- !app_assoc. reflexivity.
    + exact W6.
    + rewrite W7, P3. reflexivity.
    + intros Hw. apply W8. cbn. congruence.
  - ends_after_reads R.
  - ends_after_reads R.
  - apply read_frame_spec in R
      as (R1 & R2 & R3 & R4 & R5 & reads & R6 & R7 & _ & m & e & Hm).
    destruct IH as (rounds & I1 & I2 & I3).
    exists (reads ++ rounds). split_and!.
    + apply Forall_app. split; [apply reads_are_round_events, R7|exact I1].
    + rewrite sent_frames_app, sent_frames_reads by exact R7. cbn. congruence.
    + destruct x;
        try (destruct I3 as (J1 & J2 & J3 & J4); split_and!; try congruence;
             rewrite J1, R6, P6, <- app_assoc; reflexivity).
      destruct I3 as (J1 & J2 & wr & J3 & J4 & J5 & J6).
      split_and!; [|exact J2|].
      * apply at_loop_head_app; [exact J1|intros _].
        unfold at_loop_head. rewrite Hm. exact I.
      * exists wr. split_and!; [|exact J4|congruence|intros Hw; apply J6; congruence].
        rewrite J3, R6, P6, <- !app_assoc. reflexivity.
  - ends_after_reads R.
  - ends_after_reads R.
  - apply read_frame_spec in R as (R1 & R2 & R3 & R4 & R5 & reads & R6 & R7 & _).
    destruct IH as (rounds & I1 & I2 & I3).
    cbn [out send_out log set_out out_closed events tx wx] in *.
    exists (reads ++ EvSend result :: rounds). split_and!.
    + apply Forall_app. split; [apply reads_are_round_events, R7|].
      constructor; [exact I|exact I1].
    + rewrite sent_frames_app, sent_frames_reads by exact R7. cbn.
      rewrite I2, R4, P4, <- app_assoc. reflexivity.
    + destruct x;
        try (destruct I3 as (J1 & J2 & J3 & J4); split_and!; try congruence;
             rewrite J1, R6, P6, <- !app_assoc; reflexivity).
      destruct I3 as (J1 & J2 & wr & J3 & J4 & J5 & J6).
      split_and!; [|exact J2|].
      * change (reads ++ EvSend result :: rounds)
          with (reads ++ [EvSend result] ++ rounds).
        rewrite app_assoc.
        apply at_loop_head_app; [exact J1|intros _].
        unfold at_loop_head. rewrite last_snoc. exact I.
      * exists wr. split_and!; [|exact J4|congruence|intros Hw; apply J6; congruence].
        rewrite J3, R6, P6, <- !app_assoc. reflexivity.
Qed.

Lemma ReadStream_enough_fuel (w : world) :
  (ReadStream packetIds w).1 <> ExitOutOfFuel.
Proof.
  unfold ReadStream. destruct (stream_data_length packetIds 0); [|discriminate].
  apply stream_loop_enough_fuel. unfold read_fuel. lia.
Qed.

Lemma ReadStream_run (w : world) x w' :
  ReadStream packetIds w = (x, w') ->
  (stream_data_length packetIds 0 = None /\ x = ExitUnknownPacket /\ w' = w) \/
  (exists dataLength,
      stream_data_length packetIds 0 = Some dataLength /\
      stream_run packetIds (make_bytes (stream_buf_len packetIds dataLength)) w x w').
Proof.
  intros H. pose proof (ReadStream_enough_fuel w) as T.
  rewrite H in T. cbn in T. unfold ReadStream in H.
  destruct (stream_data_length packetIds 0) as [dl|].
  - right. exists dl. split; [reflexivity|].
    eapply stream_loop_run; eassumption.
  - left. inversion H; subst. auto.
Qed.

End StreamRuns.

(** The position of an event that occurs once is determined. *)
Lemma split_at_unique {A : Type} (a : A) (l1 l2 l1' l2' : list A) :
  l1 ++ a :: l2 = l1' ++ a :: l2' -> a ∉ l1 -> a ∉ l2 -> l1 = l1' /\ l2 = l2'.
Proof.
  revert l1'. induction l1 as [|c l1 IH]; intros l1' E N1 N2.
  - destruct l1' as [|b l1']; cbn in E.
    + inversion E. auto.
    + inversion E; subst. exfalso. apply N2, elem_of_app. right.
      apply list_elem_of_here.
  - destruct l1' as [|b l1']; cbn in E.
    + inversion E; subst. exfalso. apply N1, list_elem_of_here.
    + inversion E; subst. apply not_elem_of_cons in N1 as [_ N1].
      destruct (IH l1' H1 N1 N2) as [-> ->]. auto.
Qed.

Lemma round_events_no_pause (l : list event) :
  Forall is_round_event l -> EvPaused ∉ l.
Proof.
  intros F H. rewrite Forall_forall in F. apply F in H. exact H.
Qed.

Lemma writes_no_pause (l : list event) :
  Forall is_write l -> EvPaused ∉ l ++ [EvClose].
Proof.
  intros F H. apply elem_of_app in H as [H|H].
  - rewrite Forall_forall in F. apply F in H. exact H.
  - apply list_elem_of_singleton in H. discriminate H.
Qed.

(** On a port that reports no error no read fails. *)
Lemma S_Read_error_free (k : nat) (w w' : world) (bs : list Z) (err : option error) :
  S_Read k w = Some ((bs, err), w') ->
  error_free (rx w) ->
  err = None /\ error_free (rx w').
Proof.
  unfold S_Read, error_free. destruct (rx w) as [|[bs0 e0] rest] eqn:E; [discriminate|].
  destruct (length bs0 <=? k)%nat; intros H F; inversion H; subst; clear H;
    inversion F; subst; cbn [rx log set_rx snd] in *.
  - auto.
  - split; [reflexivity|]. constructor; assumption.
Qed.

Lemma read_frame_error_free (fuel : nat) :
  forall (buf : list Z) (n : nat) (w : world) r buf' w',
    read_frame fuel buf n w = (r, buf', w') ->
    error_free (rx w) ->
    error_free (rx w') /\
    exists reads,
      events w' = events w ++ reads /\
      Forall (fun e => exists k, e = EvRead k None) reads.
Proof.
  induction fuel as [|fuel IH]; intros buf n w r buf' w' H F; cbn [read_frame] in H.
  - inversion H; subst. split; [exact F|]. exists []. rewrite app_nil_r.
    split; [reflexivity|constructor].
  - destruct (n <? length buf)%nat.
    + destruct (S_Read (length buf - n) w) as [[[bs err] w1]|] eqn:R.
      * destruct (S_Read_error_free _ _ _ _ _ R F) as [-> F1].
        apply S_Read_frame in R as (_ & _ & _ & _ & _ & X6 & _).
        apply IH in H as (F' & reads & E & A); [|exact F1].
        split; [exact F'|]. exists (EvRead (length bs) None :: reads). split.
        -- rewrite E, X6, <- app_assoc. reflexivity.
        -- constructor; [eauto|exact A].
      * inversion H; subst. split; [exact F|]. exists []. rewrite app_nil_r.
        split; [reflexivity|constructor].
    + inversion H; subst. split; [exact F|]. exists []. rewrite app_nil_r.
      split; [reflexivity|constructor].
Qed.

(** So the log of a run on such a port holds no failed read. *)
Lemma stream_run_error_free (packetIds buf : list Z) (w : world) x w' :
  stream_run packetIds buf w x w' ->
  error_free (rx w) ->
  exists tr,
    events w' = events w ++ tr /\
    Forall (fun e => forall k err, e <> EvRead k (Some err)) tr.
Proof.
  assert (Ok : forall reads,
             Forall (fun e => exists k, e = EvRead k None) reads ->
             Forall (fun e => forall k err, e <> EvRead k (Some err)) reads).
  { intros reads A. eapply Forall_impl; [exact A|].
    intros e [k ->] k' err. discriminate. }
  induction 1 as
    [ buf w w0 P
    | buf w w0 buf1 w1 P R
    | buf w w0 buf1 w1 P R
    | buf w w0 buf1 w1 x w' P R _ IH
    | buf w w0 buf1 w1 m P R F
    | buf w w0 buf1 w1 P R F
    | buf w w0 buf1 w1 result x w' P R F _ IH ];
    intros He; apply poll_pause_frame in P as (P1 & P2 & P3 & P4 & P5 & P6);
    rewrite <- P1 in He.
  - pose proof (Write_frame PauseResumeStream [0] (log EvPaused w0))
      as (_ & _ & _ & _ & wr & W5 & W6 & _).
    exists (EvPaused :: wr ++ [EvClose]). split.
    + cbn [events close_out log set_out] in *. rewrite W5, P6, <- !app_assoc.
      reflexivity.
    + constructor; [discriminate|]. apply Forall_app. split.
      * eapply Forall_impl; [exact W6|]. intros e We k err ->. exact We.
      * constructor; [discriminate|constructor].
  - apply read_frame_error_free in R as (_ & reads & E & A); [|exact He].
    exists reads. split; [congruence|apply Ok, A].
  - apply read_frame_error_free in R as (_ & reads & E & A); [|exact He].
    exists reads. split; [congruence|apply Ok, A].
  - apply read_frame_error_free in R as (F1 & reads & E & A); [|exact He].
    destruct (IH F1) as (tr & E' & A').
    exists (reads ++ tr). split; [rewrite E', E, P6, <- app_assoc; reflexivity|].
    apply Forall_app. split; [apply Ok, A|exact A'].
  - apply read_frame_error_free in R as (_ & reads & E & A); [|exact He].
    exists reads. split; [congruence|apply Ok, A].
  - apply read_frame_error_free in R as (_ & reads & E & A); [|exact He].
    exists reads. split; [congruence|apply Ok, A].
  - apply read_frame_error_free in R as (F1 & reads & E & A); [|exact He].
    destruct (IH F1) as (tr & E' & A').
    cbn [events send_out log set_out] in E'.
    exists (reads ++ EvSend result :: tr). split.
    + rewrite E', E, P6, <- !app_assoc. reflexivity.
    + apply Forall_app. split; [apply Ok, A|].
      constructor; [discriminate|exact A'].
Qed.

Lemma pending_bytes_app (l1 l2 : list event) :
  pending_bytes (l1 ++ l2)
  = fold_left (fun n e => match e with
                          | EvSend _ => O
                          | EvRead k _ => (n + k)%nat
                          | _ => n
                          end) l2 (pending_bytes l1).
Proof. unfold pending_bytes. apply fold_left_app. Qed.

(** At the head of the loop the reader is at a frame boundary, unless a
    failed read has sent it there. *)
Lemma loop_head_boundary_or_failed_read (pre : list event) :
  at_loop_head pre ->
  at_frame_boundary pre \/ exists n e, last pre = Some (EvRead n (Some e)).
Proof.
  unfold at_loop_head, at_frame_boundary.
  destruct pre as [|e0 pre0] using rev_ind; [left; reflexivity|].
  rewrite last_snoc. destruct e0 as [n [e|]| | | |]; try contradiction; intros _.
  - right. eauto.
  - left. rewrite pending_bytes_app. reflexivity.
Qed.

(** C7, as stated, fails: the port delivers the first three bytes of the
    frame 19 2 7 5 242 together with an error; [goto Loop] takes the reader
    to the [select], where the pause is waiting.  The pause is observed
    with three of the five bytes of a frame taken from the port; the rest
    of the frame stays in the port. *)
Lemma pause_taken_mid_frame :
  let w := streaming [([19; 2; 7], Some (PortError 1)); ok [5; 242]] [false; true] in
  let r := ReadStream [SENSOR_BUMP_WHEELS_DROPS] w in
  let pre := [EvRead 3 (Some (PortError 1))] in
  r.1 = ExitPaused /\
  events r.2 = pre ++ EvPaused :: [EvWrite [0x96]; EvWrite [0x00]; EvClose] /\
  pending_bytes pre = 3%nat /\
  ~ at_frame_boundary pre /\
  rx r.2 = [ok [5; 242]] /\ out r.2 = [].
Proof.
  split_and!; try (vm_compute; reflexivity).
  unfold at_frame_boundary. vm_compute. discriminate.
Qed.

(** C7 (amended).  Take any run of [ReadStream] in whose log the pause is
    observed, and split the log there.  Then (1) the reader was at the head
    of its loop: before the pause it had done nothing yet, or had just
    delivered a frame, or a read of the port had just failed; so it was at
    a frame boundary unless the last thing before the pause was a failed
    read, it always is on a port that reports no read error, and the pause
    is never observed after a successful read of a part of a frame; (2) what follows is one [Write] of the pause command and
    [close(out)], nothing else, and the reader returns; when the port takes
    the writes, the bytes written are exactly 0x96 0x00, once; (3) the
    channel is closed and carries exactly the frames delivered before the
    pause. *)
Theorem pause_only_at_loop_head (packetIds : list Z) (w : world) x w'
    (pre post : list event) :
  ReadStream packetIds w = (x, w') ->
  events w' = events w ++ pre ++ EvPaused :: post ->
  at_loop_head pre /\
  (at_frame_boundary pre \/ exists n e, last pre = Some (EvRead n (Some e))) /\
  (forall n, last pre <> Some (EvRead n None)) /\
  (error_free (rx w) -> at_frame_boundary pre) /\
  x = ExitPaused /\
  (exists wr, post = wr ++ [EvClose] /\ Forall is_write wr /\
              tx w' = tx w ++ written_bytes wr) /\
  (wx w = [] ->
   post = [EvWrite [0x96]; EvWrite [0x00]; EvClose] /\ tx w' = tx w ++ [0x96; 0x00]) /\
  out_closed w' = true /\
  out w' = out w ++ sent_frames pre.
Proof.
  intros H E.
  apply ReadStream_run in H as [(_ & _ & ->)|(dl & _ & Hrun)].
  { exfalso. rewrite <- (app_nil_r (events w)) in E at 1.
    apply app_inv_head in E. destruct pre; discriminate E. }
  pose proof (stream_run_error_free _ _ _ _ _ Hrun) as Hok.
  apply stream_run_summary in Hrun as (rounds & F & O & S).
  assert (Hx : x = ExitPaused).
  { destruct x; try reflexivity; destruct S as (S1 & _); rewrite S1 in E;
      apply app_inv_head in E; exfalso;
      apply (round_events_no_pause rounds F); rewrite E;
      apply elem_of_app; right; apply list_elem_of_here. }
  subst x. destruct S as (B & C & wr & S1 & S2 & S3 & S4).
  rewrite S1 in E. apply app_inv_head in E.
  apply split_at_unique in E as [-> <-];
    [|apply round_events_no_pause, F|apply writes_no_pause, S2].
  split_and!; try assumption; try reflexivity.
  - apply loop_head_boundary_or_failed_read, B.
  - intros n L. unfold at_loop_head in B. rewrite L in B. exact B.
  - intros He. destruct (Hok He) as (tr & Et & A).
    rewrite S1 in Et. apply app_inv_head in Et. subst tr.
    apply Forall_app in A as [A _].
    destruct (loop_head_boundary_or_failed_read _ B) as [G|(n & e & L)];
      [exact G|].
    exfalso. rewrite Forall_forall in A.
    apply (A (EvRead n (Some e)) ltac:(apply last_Some in L as [l' ->];
                                       apply elem_of_app; right;
                                       apply list_elem_of_here) n e).
    reflexivity.
  - exists wr. auto.
  - intros Hw. rewrite S3, (S4 Hw). split; reflexivity.
Qed.

Lemma pause_only_at_loop_head_witness :
  let w := streaming [ok [19; 2]; ok [7; 5; 242]; ok [19; 2]] [false; true] in
  let pre := [EvRead 2 None; EvRead 3 None; EvSend [[5]]] in
  at_loop_head pre /\
  at_frame_boundary pre /\
  (ReadStream [SENSOR_BUMP_WHEELS_DROPS] w).1 = ExitPaused /\
  tx (ReadStream [SENSOR_BUMP_WHEELS_DROPS] w).2 = [0x96; 0x00] /\
  out (ReadStream [SENSOR_BUMP_WHEELS_DROPS] w).2 = [[[5]]].
Proof.
  intros w pre.
  destruct (pause_only_at_loop_head [SENSOR_BUMP_WHEELS_DROPS] w
              (ReadStream [SENSOR_BUMP_WHEELS_DROPS] w).1
              (ReadStream [SENSOR_BUMP_WHEELS_DROPS] w).2
              pre [EvWrite [0x96]; EvWrite [0x00]; EvClose])
    as (B & _ & _ & G & X & _ & T & _ & O).
  - destruct (ReadStream [SENSOR_BUMP_WHEELS_DROPS] w). reflexivity.
  - vm_compute. reflexivity.
  - split_and!; [exact B| |exact X|exact (proj2 (T eq_refl))|exact O].
    apply G. repeat constructor.
Defined.

(** A pause that arrives while a frame is cut short by a failed read: the
    reader has given up the two bytes it held, and takes the pause at the
    head of the loop. *)
Example pause_after_failed_read :
  let w := streaming [ok [19; 2]; ([], Some (PortError 1)); ok [7; 5; 242]]
                     [false; true] in
  (ReadStream [SENSOR_BUMP_WHEELS_DROPS] w).1 = ExitPaused /\
  events (ReadStream [SENSOR_BUMP_WHEELS_DROPS] w).2
  = [EvRead 2 None; EvRead 0 (Some (PortError 1));
     EvPaused; EvWrite [0x96]; EvWrite [0x00]; EvClose] /\
  out (ReadStream [SENSOR_BUMP_WHEELS_DROPS] w).2 = [].
Proof. vm_compute. split_and!; reflexivity. Qed.

(** *** A pause that is waiting is taken *)

(** When a pause request is waiting at the head of the loop, the reader
    takes it there, before any read. *)
Lemma waiting_pause_is_taken (packetIds : list Z) (w : world) (dataLength : Z)
    (pauses : list bool) :
  stream_data_length packetIds 0 = Some dataLength ->
  StreamPaused w = true :: pauses ->
  wx w = [] ->
  exists w',
    ReadStream packetIds w = (ExitPaused, w') /\
    events w' = events w ++ [EvPaused; EvWrite [0x96]; EvWrite [0x00]; EvClose] /\
    tx w' = tx w ++ [0x96; 0x00] /\
    out w' = out w /\ out_closed w' = true /\ rx w' = rx w.
Proof.
  intros Hdl Hp Hw. unfold ReadStream. rewrite Hdl.
  unfold read_fuel. cbn [stream_loop]. unfold poll_pause. rewrite Hp.
  pose proof (Write_frame PauseResumeStream [0]
                (log EvPaused (set_StreamPaused pauses w)))
    as (W1 & _ & W3 & _ & wr & W5 & _ & W7 & W8).
  destruct (W8 Hw) as (-> & _ & _).
  destruct (Write PauseResumeStream [0] (log EvPaused (set_StreamPaused pauses w)))
    as [r w1].
  cbn [fst snd] in *. eexists. split; [reflexivity|].
  cbn [events tx out out_closed rx close_out log set_out set_StreamPaused] in *.
  rewrite W5, W7, W3, W1, <- !app_assoc. cbn. split_and!; reflexivity.
Qed.

(** *** Sessions that end without a pause *)






(** *** The read loop of the queries *)

Lemma packet_length_bound (code len : Z) :
  SENSOR_PACKET_LENGTH !! code = Some len -> 1 <= len <= 52.
Proof.
  intros H. apply packet_length_entry in H.
  assert (F : Forall (fun e : Z * Z => 1 <= e.2 <= 52) packet_length_entries).
  { apply (bool_decide_unpack
             (Forall (fun e : Z * Z => 1 <= e.2 <= 52) packet_length_entries)).
    vm_compute. exact I. }
  rewrite Forall_forall in F. exact (F _ H).
Qed.

Lemma packet_length_or_zero_bound (code : Z) : 0 <= packet_length_or_zero code <= 52.
Proof.
  unfold packet_length_or_zero.
  destruct (SENSOR_PACKET_LENGTH !! code) as [len|] eqn:E; cbn; [|lia].
  apply packet_length_bound in E. lia.
Qed.

Lemma copy_at_length (dst : list Z) (off : nat) (src : list Z) :
  (off + length src <= length dst)%nat ->
  length (copy_at dst off src) = length dst.
Proof.
  intros H. unfold copy_at. rewrite !length_app, length_take, length_drop. lia.
Qed.

(** On a buffer that is at least as long as what is still to be read, the
    loop neither panics nor runs out of iterations: it returns, or waits
    for ever on a silent port. *)
Lemma read_loop_total (fuel : nat) :
  forall (packetId : Z) (result : list Z) (n : nat) (bytesToRead : Z) (w : world),
    (rx_weight (rx w) < fuel)%nat ->
    (n <= length result)%nat ->
    bytesToRead <= Z.of_nat (length result) ->
    (length result <= 255)%nat ->
    (read_loop fuel packetId result n bytesToRead w).1 <> OutOfFuel /\
    (read_loop fuel packetId result n bytesToRead w).1 <> Panics.
Proof.
  induction fuel as [|fuel IH]; intros packetId result n btr w Hf Hn Hb Hr; [lia|].
  cbn [read_loop].
  assert (Wn : wrap8 (Z.of_nat n) = Z.of_nat n) by (apply wrap8_small; lia).
  rewrite Wn.
  destruct (Z.ltb_spec (Z.of_nat n) btr) as [L|L]; [|cbn; split; discriminate].
  destruct (Nat.ltb_spec (length result) n) as [L2|_]; [lia|].
  unfold Read.
  destruct (S_Read (length result - n) w) as [[[bs err] w1]|] eqn:R;
    [|cbn; split; discriminate].
  apply S_Read_frame in R as (_ & _ & _ & _ & _ & _ & X7 & _ & X9).
  destruct err as [e|]; [cbn; split; discriminate|].
  apply IH.
  - assert (rx_weight (rx w1) < rx_weight (rx w))%nat by (apply X9; lia). lia.
  - rewrite copy_at_length; lia.
  - rewrite copy_at_length by lia. rewrite wrap8_small; lia.
  - rewrite copy_at_length; lia.
Qed.

Lemma make_bytes_length (n : nat) : length (make_bytes n) = n.
Proof. apply length_replicate. Qed.

Lemma Sensors_total (packetId : Z) (w : world) :
  (Sensors packetId w).1 <> OutOfFuel /\ (Sensors packetId w).1 <> Panics.
Proof.
  unfold Sensors.
  destruct (SENSOR_PACKET_LENGTH !! packetId) as [len|] eqn:E;
    [|cbn; split; discriminate].
  apply packet_length_bound in E.
  destruct (Write Constants.Sensors [packetId] w) as [r w1].
  apply read_loop_total; rewrite ?make_bytes_length; unfold read_fuel; lia.
Qed.

Lemma QueryList_read_total (packetIds : list Z) :
  forall (i : nat) (result : list (list Z)) (w : world),
    (QueryList_read packetIds i result w).1 <> OutOfFuel /\
    (QueryList_read packetIds i result w).1 <> Panics.
Proof.
  induction packetIds as [|packetId rest IH]; intros i result w;
    cbn [QueryList_read]; [cbn; split; discriminate|].
  pose proof (packet_length_or_zero_bound packetId) as B.
  pose proof (read_loop_total (read_fuel w) packetId
                (make_bytes (Z.to_nat (packet_length_or_zero packetId))) O
                (packet_length_or_zero packetId) w) as T.
  rewrite make_bytes_length in T.
  destruct T as [T1 T2]; try (unfold read_fuel; lia).
  destruct (read_loop (read_fuel w) packetId
              (make_bytes (Z.to_nat (packet_length_or_zero packetId))) 0
              (packet_length_or_zero packetId) w) as [[[buf [e|]]| | |] w1];
    cbn in T1, T2 |- *; try (split; discriminate); try contradiction.
  apply IH.
Qed.

Lemma QueryList_total (packetIds : list Z) (w : world) :
  (QueryList packetIds w).1 <> OutOfFuel /\ (QueryList packetIds w).1 <> Panics.
Proof.
  unfold QueryList.
  destruct (list_find (fun id => SENSOR_PACKET_LENGTH !! id = None) packetIds)
    as [[k id]|]; [cbn; split; discriminate|].
  destruct (Write Constants.QueryList
              (wrap8 (Z.of_nat (length packetIds)) :: packetIds) w) as [r w1].
  apply QueryList_read_total.
Qed.

(** *** Where the read loop of the queries is right *)

Lemma copy_at_0_full (n : nat) (bs : list Z) :
  (length bs <= n)%nat ->
  copy_at (make_bytes n) 0 bs = bs ++ make_bytes (n - length bs).
Proof.
  intros H. unfold copy_at, make_bytes. rewrite take_0. cbn [app Nat.add].
  f_equal. rewrite drop_replicate. reflexivity.
Qed.

Lemma copy_at_tail (bs1 bs2 : list Z) :
  copy_at (bs1 ++ make_bytes (length bs2)) (length bs1) bs2 = bs1 ++ bs2.
Proof.
  unfold copy_at. rewrite take_app_length.
  rewrite drop_ge by (rewrite length_app, make_bytes_length; lia).
  rewrite app_nil_r. reflexivity.
Qed.

(** With the bytes of a packet in one batch, or in two batches of which the
    first is not empty, [Sensors] returns them in order. *)
Lemma Sensors_two_fragments (packetId len : Z) (bs1 bs2 : list Z) (w : world) :
  SENSOR_PACKET_LENGTH !! packetId = Some len ->
  Z.of_nat (length bs1 + length bs2) = len ->
  bs1 <> [] ->
  rx w = [ok bs1; ok bs2] ->
  (Sensors packetId w).1 = Returns (bs1 ++ bs2, None).
Proof.
  intros Hreg Hlen Hne Hrx. unfold Sensors. rewrite Hreg.
  pose proof (packet_length_bound _ _ Hreg) as B.
  pose proof (Write_frame Constants.Sensors [packetId] w) as (R & _).
  destruct (Write Constants.Sensors [packetId] w) as [r w1]. cbn [fst snd] in R.
  rewrite Hrx in R. unfold read_fuel. rewrite R.
  assert (L1 : (0 < length bs1)%nat) by (destruct bs1; [congruence|cbn; lia]).
  change (rx_weight [ok bs1; ok bs2])
    with (S (length bs1) + (S (length bs2) + 0))%nat.
  replace (S (S (length bs1) + (S (length bs2) + 0)))%nat
    with (S (S (S (length bs1 + length bs2)))) by lia.
  cbn [read_loop]. change (wrap8 (Z.of_nat 0)) with 0.
  destruct (Z.ltb_spec 0 len) as [_|]; [|lia].
  rewrite make_bytes_length.
  destruct (Nat.ltb_spec (Z.to_nat len) 0) as [|_]; [lia|].
  unfold Read, S_Read at 1. rewrite R. unfold ok at 1.
  destruct (Nat.leb_spec (length bs1) (Z.to_nat len - 0)) as [_|]; [|lia].
  rewrite copy_at_0_full by lia.
  replace (Z.to_nat len - length bs1)%nat with (length bs2) by lia.
  rewrite Z.sub_0_r, (wrap8_small len) by lia.
  rewrite (wrap8_small (Z.of_nat (length bs1))) by lia.
  destruct (Z.ltb_spec (Z.of_nat (length bs1)) len) as [L2|L2].
  - rewrite length_app, make_bytes_length.
    destruct (Nat.ltb_spec (length bs1 + length bs2) (length bs1)) as [|_]; [lia|].
    unfold S_Read. cbn [rx log set_rx]. unfold ok.
    destruct (Nat.leb_spec (length bs2) (length bs1 + length bs2 - length bs1))
      as [_|]; [|lia].
    rewrite copy_at_tail.
    rewrite (wrap8_small (len - Z.of_nat (length bs1))) by lia.
    rewrite (wrap8_small (Z.of_nat (length bs2))) by lia.
    destruct (Z.ltb_spec (Z.of_nat (length bs2)) (len - Z.of_nat (length bs1)))
      as [|_]; [lia|]. reflexivity.
  - assert (length bs2 = O) by lia.
    destruct bs2; [|discriminate]. cbn [fst]. reflexivity.
Qed.


(** *** What a query returns depends on the reads alone *)

Lemma S_Read_rx_only (k : nat) (w1 w2 : world) :
  rx w1 = rx w2 ->
  match S_Read k w1, S_Read k w2 with
  | Some (r1, w1'), Some (r2, w2') => r1 = r2 /\ rx w1' = rx w2'
  | None, None => True
  | _, _ => False
  end.
Proof.
  intros E. unfold S_Read. rewrite E.
  destruct (rx w2) as [|[bs err] rest]; [exact I|].
  destruct (length bs <=? k)%nat; cbn; split; reflexivity.
Qed.

Lemma read_loop_rx_only (fuel : nat) :
  forall (packetId : Z) (result : list Z) (n : nat) (bytesToRead : Z) (w1 w2 : world),
    rx w1 = rx w2 ->
    (read_loop fuel packetId result n bytesToRead w1).1
    = (read_loop fuel packetId result n bytesToRead w2).1 /\
    rx (read_loop fuel packetId result n bytesToRead w1).2
    = rx (read_loop fuel packetId result n bytesToRead w2).2.
Proof.
  induction fuel as [|fuel IH]; intros packetId result n btr w1 w2 E;
    cbn [read_loop]; [split; [reflexivity|exact E]|].
  destruct (wrap8 (Z.of_nat n) <? btr); [|split; [reflexivity|exact E]].
  destruct (length result <? n)%nat; [split; [reflexivity|exact E]|].
  unfold Read. pose proof (S_Read_rx_only (length result - n) w1 w2 E) as R.
  destruct (S_Read (length result - n) w1) as [[[bs1 e1] w1']|],
           (S_Read (length result - n) w2) as [[[bs2 e2] w2']|];
    try contradiction; [|split; [reflexivity|exact E]].
  destruct R as [R1 R2]. inversion R1; subst.
  destruct e2; [split; [reflexivity|exact R2]|].
  apply IH, R2.
Qed.

Lemma QueryList_read_rx_only (packetIds : list Z) :
  forall (i : nat) (result : list (list Z)) (w1 w2 : world),
    rx w1 = rx w2 ->
    (QueryList_read packetIds i result w1).1 = (QueryList_read packetIds i result w2).1 /\
    rx (QueryList_read packetIds i result w1).2 = rx (QueryList_read packetIds i result w2).2.
Proof.
  induction packetIds as [|packetId rest IH]; intros i result w1 w2 E;
    cbn [QueryList_read]; [split; [reflexivity|exact E]|].
  unfold read_fuel. rewrite E.
  pose proof (read_loop_rx_only (S (rx_weight (rx w2))) packetId
                (make_bytes (Z.to_nat (packet_length_or_zero packetId))) O
                (packet_length_or_zero packetId) w1 w2 E) as [R1 R2].
  destruct (read_loop (S (rx_weight (rx w2))) packetId
              (make_bytes (Z.to_nat (packet_length_or_zero packetId))) 0
              (packet_length_or_zero packetId) w1) as [o1 w1'],
           (read_loop (S (rx_weight (rx w2))) packetId
              (make_bytes (Z.to_nat (packet_length_or_zero packetId))) 0
              (packet_length_or_zero packetId) w2) as [o2 w2'].
  cbn [fst snd] in R1, R2. subst o2.
  destruct o1 as [[buf [e|]]| | |]; cbn [fst snd]; try (split; [reflexivity|exact R2]).
  apply IH, R2.
Qed.

(** The only error the read loop returns is that of a failed read. *)
Lemma read_loop_error (fuel : nat) :
  forall (packetId : Z) (result : list Z) (n : nat) (bytesToRead : Z) (w : world)
         (buf : list Z) (e : error),
    (read_loop fuel packetId result n bytesToRead w).1 = Returns (buf, Some e) ->
    exists e0, e = FailedReadingSensors packetId e0.
Proof.
  induction fuel as [|fuel IH]; intros packetId result n btr w buf e;
    cbn [read_loop]; [discriminate|].
  destruct (wrap8 (Z.of_nat n) <? btr); [|discriminate].
  destruct (length result <? n)%nat; [discriminate|].
  destruct (Read (length result - n) w) as [[[bs [e1|]] w1]|]; cbn [fst].
  - intros H. inversion H. eexists. reflexivity.
  - apply IH.
  - discriminate.
Qed.

Lemma QueryList_read_error (packetIds : list Z) :
  forall (i : nat) (result : list (list Z)) (w : world)
         (bufs : list (list Z)) (e : error),
    (QueryList_read packetIds i result w).1 = Returns (bufs, Some e) ->
    exists id e0, e = FailedReadingSensors id e0.
Proof.
  induction packetIds as [|packetId rest IH]; intros i result w bufs e;
    cbn [QueryList_read]; [discriminate|].
  pose proof (read_loop_error (read_fuel w) packetId
                (make_bytes (Z.to_nat (packet_length_or_zero packetId))) O
                (packet_length_or_zero packetId) w) as E.
  destruct (read_loop (read_fuel w) packetId
              (make_bytes (Z.to_nat (packet_length_or_zero packetId))) 0
              (packet_length_or_zero packetId) w) as [[[buf [e1|]]| | |] w1];
    cbn [fst] in *; try discriminate.
  - intros H. inversion H; subst. exists packetId.
    apply (E buf e). reflexivity.
  - apply IH.
Qed.

(** C10.  [Sensors] and [QueryList] do not look at what [roomba.Write]
    returns.  For a registered packet, [Sensors] is its read loop, run on
    the port as the write left it, whatever the write returned; for a list
    of registered packets [QueryList] likewise goes on to read every entry.
    So the value and the error that the caller gets are the same whether
    the port takes the request, takes a part of it, or refuses it: they
    depend on the reads alone, and no error of the write reaches the
    caller. *)
Theorem queries_ignore_write_result (w : world) (packetId bytesToRead : Z)
    (packetIds : list Z) :
  SENSOR_PACKET_LENGTH !! packetId = Some bytesToRead ->
  Forall (fun id => SENSOR_PACKET_LENGTH !! id <> None) packetIds ->
  let ws := Write Constants.Sensors [packetId] w in
  let wq := Write Constants.QueryList
                  (wrap8 (Z.of_nat (length packetIds)) :: packetIds) w in
  Sensors packetId w
  = read_loop (read_fuel ws.2) packetId (make_bytes (Z.to_nat bytesToRead)) O
              bytesToRead ws.2 /\
  QueryList packetIds w
  = QueryList_read packetIds O (replicate (length packetIds) []) wq.2 /\
  (forall (wx' : list write_event),
      (Sensors packetId (set_wx_tx wx' (tx w) w)).1 = (Sensors packetId w).1 /\
      (QueryList packetIds (set_wx_tx wx' (tx w) w)).1 = (QueryList packetIds w).1) /\
  (forall buf e, (Sensors packetId w).1 = Returns (buf, Some e) ->
                 exists e0, e = FailedReadingSensors packetId e0) /\
  (forall bufs e, (QueryList packetIds w).1 = Returns (bufs, Some e) ->
                  exists id e0, e = FailedReadingSensors id e0) /\
  (Sensors packetId w).1 <> OutOfFuel /\ (QueryList packetIds w).1 <> OutOfFuel.
Proof.
  intros Hreg Hall ws wq.
  assert (Hfind : list_find (fun id => SENSOR_PACKET_LENGTH !! id = None) packetIds = None).
  { apply list_find_None. exact Hall. }
  split_and!.
  - unfold Sensors. rewrite Hreg. subst ws.
    destruct (Write Constants.Sensors [packetId] w). reflexivity.
  - unfold QueryList. rewrite Hfind. subst wq.
    destruct (Write Constants.QueryList
                (wrap8 (Z.of_nat (length packetIds)) :: packetIds) w). reflexivity.
  - intros wx'. split.
    + unfold Sensors. rewrite Hreg.
      pose proof (Write_frame Constants.Sensors [packetId] w) as (R1 & _).
      pose proof (Write_frame Constants.Sensors [packetId] (set_wx_tx wx' (tx w) w))
        as (R2 & _).
      destruct (Write Constants.Sensors [packetId] w) as [r1 w1],
               (Write Constants.Sensors [packetId] (set_wx_tx wx' (tx w) w)) as [r2 w2].
      cbn [fst snd rx set_wx_tx] in R1, R2.
      unfold read_fuel. rewrite R1, R2.
      apply read_loop_rx_only. congruence.
    + unfold QueryList. rewrite Hfind.
      pose proof (Write_frame Constants.QueryList
                    (wrap8 (Z.of_nat (length packetIds)) :: packetIds) w) as (R1 & _).
      pose proof (Write_frame Constants.QueryList
                    (wrap8 (Z.of_nat (length packetIds)) :: packetIds)
                    (set_wx_tx wx' (tx w) w)) as (R2 & _).
      destruct (Write Constants.QueryList
                  (wrap8 (Z.of_nat (length packetIds)) :: packetIds) w) as [r1 w1],
               (Write Constants.QueryList
                  (wrap8 (Z.of_nat (length packetIds)) :: packetIds)
                  (set_wx_tx wx' (tx w) w)) as [r2 w2].
      cbn [fst snd rx set_wx_tx] in R1, R2.
      apply QueryList_read_rx_only. congruence.
  - intros buf e. unfold Sensors. rewrite Hreg.
    destruct (Write Constants.Sensors [packetId] w) as [r w1].
    apply read_loop_error.
  - intros bufs e. unfold QueryList. rewrite Hfind.
    destruct (Write Constants.QueryList
                (wrap8 (Z.of_nat (length packetIds)) :: packetIds) w) as [r w1].
    apply QueryList_read_error.
  - apply Sensors_total.
  - apply QueryList_total.
Qed.

Lemma queries_ignore_write_result_witness :
  let w := mkWorld [ok [35]; ok [10; 20]] [WriteSome 0 (Some (PortError 5))]
                   [] [] [] false [] in
  (Write Constants.QueryList [2; SENSOR_WALL; SENSOR_DISTANCE] w).1
  = Some (FailedWritingOpcode 149) /\
  (QueryList [SENSOR_WALL; SENSOR_DISTANCE] w).1 = Returns ([[35]; [10; 20]], None) /\
  tx (QueryList [SENSOR_WALL; SENSOR_DISTANCE] w).2 = [].
Proof.
  intros w.
  assert (H1 : SENSOR_PACKET_LENGTH !! SENSOR_DISTANCE = Some 2)
    by (vm_compute; reflexivity).
  assert (H2 : Forall (fun id => SENSOR_PACKET_LENGTH !! id <> None)
                      [SENSOR_WALL; SENSOR_DISTANCE])
    by (repeat constructor; vm_compute; discriminate).
  destruct (queries_ignore_write_result w SENSOR_DISTANCE 2
              [SENSOR_WALL; SENSOR_DISTANCE] H1 H2) as (_ & Q & _).
  rewrite Q. vm_compute. split_and!; reflexivity.
Defined.

Example Sensors_write_refused :
  let w := mkWorld [ok [10; 20]] [WriteSome 0 (Some (PortError 5))]
                   [] [] [] false [] in
  (Write Constants.Sensors [SENSOR_DISTANCE] w).1 = Some (FailedWritingOpcode 142) /\
  (Sensors SENSOR_DISTANCE w).1 = Returns ([10; 20], None) /\
  tx (Sensors SENSOR_DISTANCE w).2 = [].
Proof. vm_compute. split_and!; reflexivity. Qed.

(** *** Accumulation on a port without errors *)

Lemma rx_bytes_cons (bs : list Z) (e : option error) (r : list (list Z * option error)) :
  rx_bytes ((bs, e) :: r) = bs ++ rx_bytes r.
Proof. reflexivity. Qed.

(** However the port cuts the bytes into batches, the accumulation loop
    fills the rest of the buffer with the next bytes of the port, in order,
    and leaves the following bytes in the port. *)
Lemma read_frame_accumulates (fuel : nat) :
  forall (buf : list Z) (n : nat) (w : world),
    (rx_weight (rx w) < fuel)%nat ->
    (n <= length buf)%nat ->
    error_free (rx w) ->
    (length buf - n <= length (rx_bytes (rx w)))%nat ->
    exists w',
      read_frame fuel buf n w
      = (FrameFull, take n buf ++ take (length buf - n) (rx_bytes (rx w)), w') /\
      rx_bytes (rx w') = drop (length buf - n) (rx_bytes (rx w)) /\
      error_free (rx w').
Proof.
  induction fuel as [|fuel IH]; intros buf n w Hf Hn He Hb; [lia|].
  cbn [read_frame].
  destruct (Nat.ltb_spec n (length buf)) as [L|L].
  - unfold S_Read.
    destruct (rx w) as [|[bs err] rest] eqn:E.
    { cbn in Hb. lia. }
    apply Forall_cons in He as [He1 He2]. cbn in He1. subst err.
    rewrite rx_bytes_cons in Hb |- *. rewrite rx_weight_cons in Hf.
    rewrite length_app in Hb.
    destruct (Nat.leb_spec (length bs) (length buf - n)) as [K|K].
    + set (w1 := log (EvRead (length bs) None) (set_rx rest w)).
      assert (Hlen : length (copy_at buf n bs) = length buf)
        by (apply copy_at_length; lia).
      destruct (IH (copy_at buf n bs) (n + length bs)%nat w1) as (w' & R & B & F).
      * unfold w1; cbn [rx log set_rx]. lia.
      * rewrite Hlen. lia.
      * exact He2.
      * unfold w1; cbn [rx log set_rx]. rewrite Hlen. lia.
      * exists w'. split_and!; [|rewrite B|exact F].
        -- rewrite R. f_equal. f_equal. rewrite Hlen.
           unfold w1; cbn [rx log set_rx]. unfold copy_at.
           rewrite app_assoc.
           rewrite take_app_ge by (rewrite length_app, length_take; lia).
           rewrite length_app, length_take.
           replace (n + length bs - (n `min` length buf + length bs))%nat with O by lia.
           rewrite take_0, app_nil_r, <- app_assoc. f_equal.
           rewrite take_app_ge by lia. f_equal. f_equal. lia.
        -- unfold w1; cbn [rx log set_rx]. rewrite Hlen.
           rewrite drop_app_ge by lia. f_equal. lia.
    + set (k := (length buf - n)%nat) in *.
      set (w1 := log (EvRead k None) (set_rx ((drop k bs, None) :: rest) w)).
      assert (Hk : length (take k bs) = k) by (rewrite length_take; lia).
      assert (Hlen : length (copy_at buf n (take k bs)) = length buf)
        by (apply copy_at_length; lia).
      destruct (IH (copy_at buf n (take k bs)) (n + length (take k bs))%nat w1)
        as (w' & R & B & F).
      * unfold w1; cbn [rx log set_rx]. rewrite rx_weight_cons, length_drop. lia.
      * rewrite Hlen. lia.
      * constructor; [reflexivity|exact He2].
      * rewrite Hlen. lia.
      * exists w'. split_and!; [|rewrite B|exact F].
        -- rewrite R. f_equal. f_equal. rewrite Hlen, Hk.
           replace (length buf - (n + k))%nat with O by lia.
           rewrite take_0, app_nil_r.
           rewrite take_ge by lia.
           unfold copy_at. rewrite Hk.
           rewrite (drop_ge buf) by lia. rewrite app_nil_r.
           rewrite take_app_le by lia. reflexivity.
        -- unfold w1; cbn [rx log set_rx]. rewrite Hlen, Hk, rx_bytes_cons.
           replace (length buf - (n + k))%nat with O by lia.
           rewrite drop_0. rewrite drop_app_le by lia. reflexivity.
  - exists w. replace (length buf - n)%nat with O by lia.
    rewrite take_0, drop_0, app_nil_r, take_ge by lia. auto.
Qed.

(** *** The first frame of a session *)

(** When no pause is waiting and the port delivers, without an error and
    in any number of batches, at least the bytes of one frame, the first
    iteration accumulates exactly those bytes and goes by what
    [process_frame] makes of them. *)
Lemma stream_loop_first_frame (packetIds : list Z) (fuel : nat)
    (buf : list Z) (w : world) (frame more : list Z) :
  (rx_weight (rx w) < S fuel)%nat ->
  error_free (rx w) ->
  rx_bytes (rx w) = frame ++ more ->
  length frame = length buf ->
  head (StreamPaused w) <> Some true ->
  exists w1,
    out w1 = out w /\ out_closed w1 = out_closed w /\ tx w1 = tx w /\
    wx w1 = wx w /\ rx_bytes (rx w1) = more /\ error_free (rx w1) /\
    (rx_weight (rx w1) <= rx_weight (rx w))%nat /\
    stream_loop (S fuel) packetIds buf w
    = match process_frame packetIds frame with
      | FrameFatal m => (ExitFatal m, w1)
      | FramePanic => (ExitPanic, w1)
      | FrameOk result => stream_loop fuel packetIds frame (send_out result w1)
      end.
Proof.
  intros Hf He Hb Hl Hp. cbn [stream_loop].
  destruct (poll_pause w) as [paused w0] eqn:P.
  assert (paused = false) as ->.
  { unfold poll_pause in P. destruct (StreamPaused w) as [|[|] ps];
      inversion P; subst; try reflexivity. exfalso. apply Hp. reflexivity. }
  apply poll_pause_frame in P as (P1 & P2 & P3 & P4 & P5 & P6).
  destruct (read_frame_accumulates (read_fuel w0) buf O w0) as (w1 & R & B & F).
  - unfold read_fuel. lia.
  - lia.
  - rewrite P1. exact He.
  - rewrite P1, Hb, length_app. lia.
  - rewrite P1, Hb, Nat.sub_0_r, <- Hl in R, B.
    rewrite take_0, take_app_length in R. rewrite drop_app_length in B.
    cbn [app] in R.
    pose proof R as R'.
    apply read_frame_spec in R' as (R1 & R2 & R3 & R4 & R5 & reads & _ & _ & Wt & _).
    exists w1. split_and!; try congruence.
    + rewrite <- P1. lia.
    + rewrite R. destruct (process_frame packetIds frame); reflexivity.
Qed.

Lemma stream_buf_len_bound (packetIds : list Z) (dataLength : Z) :
  (stream_buf_len packetIds dataLength <= 255)%nat.
Proof.
  unfold stream_buf_len.
  pose proof (wrap8_range (wrap8 (dataLength + wrap8 (Z.of_nat (length packetIds))) + 3)).
  lia.
Qed.

(** What [process_frame] makes of a frame with an integrity violation. *)
Lemma process_frame_violation (packetIds frame : list Z) :
  (length frame <= 255)%nat ->
  integrity_violation packetIds frame ->
  exists m, process_frame packetIds frame = FrameFatal m /\
            (m = BadHeader \/ (exists got expected, m = BadLength got expected)
             \/ exists sum, m = ChecksumMismatch sum).
Proof.
  intros Hsz [Hh|b1 rest -> Hl|entries checksum -> Hne Hk Hlen Hsum].
  - exists BadHeader. split; [|auto].
    destruct frame as [|b r]; [reflexivity|]. cbn [process_frame].
    destruct (Z.eqb_spec b 19) as [->|N]; [|reflexivity].
    exfalso. apply Hh. reflexivity.
  - eexists. split.
    + cbn [process_frame]. change (19 =? 19) with true. cbn [negb].
      destruct (Z.eqb_spec b1 (wrap8 (Z.of_nat (length (19 :: b1 :: rest)) - 3)))
        as [E|N]; [contradiction|]. reflexivity.
    + right. left. eauto.
  - eexists. split.
    + rewrite (process_wire_frame packetIds entries checksum Hne Hk Hlen Hsz).
      destruct (Z.eqb_spec (byte_sum (checked_bytes entries checksum)) 0);
        [contradiction|reflexivity].
    + right. right. eauto.
Qed.

Lemma ReadStream_first_frame (packetIds : list Z) (w : world) (dataLength : Z)
    (frame more : list Z) :
  stream_data_length packetIds 0 = Some dataLength ->
  length frame = stream_buf_len packetIds dataLength ->
  error_free (rx w) ->
  rx_bytes (rx w) = frame ++ more ->
  head (StreamPaused w) <> Some true ->
  exists w1,
    out w1 = out w /\ out_closed w1 = out_closed w /\ tx w1 = tx w /\
    match process_frame packetIds frame with
    | FrameFatal m => ReadStream packetIds w = (ExitFatal m, w1)
    | FramePanic => ReadStream packetIds w = (ExitPanic, w1)
    | FrameOk result =>
        exists x w' later,
          ReadStream packetIds w = (x, w') /\ out w' = out w ++ result :: later
    end.
Proof.
  intros Hdl Hl He Hb Hp.
  pose proof (ReadStream_enough_fuel packetIds w) as T.
  unfold ReadStream in T |- *. rewrite Hdl in T |- *. unfold read_fuel in T |- *.
  destruct (stream_loop_first_frame packetIds (rx_weight (rx w))
              (make_bytes (stream_buf_len packetIds dataLength)) w frame more)
    as (w1 & O & C & X & _ & _ & _ & _ & Eq);
    try assumption; [lia|rewrite make_bytes_length; exact Hl|].
  rewrite Eq in T |- *.
  exists w1. split_and!; try assumption.
  destruct (process_frame packetIds frame) as [result|m|]; try reflexivity.
  destruct (stream_loop (rx_weight (rx w)) packetIds frame (send_out result w1))
    as [x w'] eqn:L.
  cbn [fst] in T.
  apply stream_loop_run in L; [|exact T].
  apply stream_run_summary in L as (rounds & _ & Ho & _).
  exists x, w', (sent_frames rounds). split; [reflexivity|].
  rewrite Ho. cbn [out send_out log set_out]. rewrite O, <- app_assoc. reflexivity.
Qed.

(** *** Integrity violations *)

(** C2, as stated, fails: a frame whose header byte is 20 ends the process
    with "stream data doesn't start with header 19"; the channel is not
    closed and no consumer is left to see anything. *)
Lemma header_violation_exits_process :
  let frame := [20; 2; 7; 5; 242] in
  let r := ReadStream [SENSOR_BUMP_WHEELS_DROPS] (streaming [ok frame] []) in
  integrity_violation [SENSOR_BUMP_WHEELS_DROPS] frame /\
  r.1 = ExitFatal BadHeader /\
  next_receive r.1 r.2 = ProcessGone /\
  ~ ends_session_only r.1 r.2.
Proof.
  split_and!.
  - apply violation_header. cbn. intros H. inversion H.
  - vm_compute. reflexivity.
  - vm_compute. reflexivity.
  - intros [C _]. vm_compute in C. discriminate C.
Qed.

(** One frame of a session on a port that reports no error: as
    [stream_loop_first_frame], with what the iteration leaves of the pause
    polls and of the port. *)
Lemma stream_loop_frame_step (packetIds : list Z) (fuel : nat)
    (buf : list Z) (w : world) (frame more : list Z) :
  (rx_weight (rx w) < S fuel)%nat ->
  error_free (rx w) ->
  rx_bytes (rx w) = frame ++ more ->
  length frame = length buf ->
  frame <> [] ->
  head (StreamPaused w) <> Some true ->
  exists w1,
    out w1 = out w /\ out_closed w1 = out_closed w /\ tx w1 = tx w /\
    wx w1 = wx w /\ rx_bytes (rx w1) = more /\ error_free (rx w1) /\
    (rx_weight (rx w1) < rx_weight (rx w))%nat /\
    StreamPaused w1 = tail (StreamPaused w) /\
    stream_loop (S fuel) packetIds buf w
    = match process_frame packetIds frame with
      | FrameFatal m => (ExitFatal m, w1)
      | FramePanic => (ExitPanic, w1)
      | FrameOk result => stream_loop fuel packetIds frame (send_out result w1)
      end.
Proof.
  intros Hf He Hb Hl Hne Hp. cbn [stream_loop].
  destruct (poll_pause w) as [paused w0] eqn:P.
  assert (paused = false /\ StreamPaused w0 = tail (StreamPaused w)) as [-> Hps].
  { unfold poll_pause in P. destruct (StreamPaused w) as [|b ps] eqn:E.
    - inversion P; subst. split; [reflexivity|]. rewrite E. reflexivity.
    - inversion P; subst. destruct paused; [exfalso; apply Hp; reflexivity|].
      split; reflexivity. }
  apply poll_pause_frame in P as (P1 & P2 & P3 & P4 & P5 & P6).
  destruct (read_frame_accumulates (read_fuel w0) buf O w0) as (w1 & R & B & F).
  - unfold read_fuel. lia.
  - lia.
  - rewrite P1. exact He.
  - rewrite P1, Hb, length_app. lia.
  - rewrite P1, Hb, Nat.sub_0_r, <- Hl in R, B.
    rewrite take_0, take_app_length in R. rewrite drop_app_length in B.
    cbn [app] in R.
    pose proof R as R'.
    apply read_frame_spec in R'
      as (R1 & R2 & R3 & R4 & R5 & reads & _ & _ & Wt & Sh).
    exists w1. split_and!; try congruence.
    + destruct Sh as [[_ [m Hm]]|(_ & _ & L)].
      * destruct reads; [discriminate|]. cbn [length] in Wt. rewrite <- P1. lia.
      * exfalso. rewrite <- Hl in L. destruct frame; [congruence|cbn in L; lia].
    + rewrite R. destruct (process_frame packetIds frame); reflexivity.
Qed.

(** Any number of accepted frames, from any state of the loop: the reader
    delivers them in order and is back at the head of its loop with the
    rest of the port before it. *)
Lemma stream_loop_accepted_frames (packetIds : list Z) (n : nat)
    (frames : list (list Z)) (results : list (list (list Z))) :
  Forall2 (fun f res => length f = n /\
                        process_frame packetIds f = FrameOk res) frames results ->
  forall (fuel : nat) (buf : list Z) (w : world) (more : list Z),
    length buf = n ->
    (rx_weight (rx w) < fuel)%nat ->
    error_free (rx w) ->
    rx_bytes (rx w) = concat frames ++ more ->
    Forall (fun b => b = false) (take (length frames) (StreamPaused w)) ->
    exists fuel' buf' w1,
      stream_loop fuel packetIds buf w = stream_loop fuel' packetIds buf' w1 /\
      length buf' = n /\ (rx_weight (rx w1) < fuel')%nat /\
      out w1 = out w ++ results /\ out_closed w1 = out_closed w /\
      tx w1 = tx w /\ wx w1 = wx w /\
      rx_bytes (rx w1) = more /\ error_free (rx w1) /\
      StreamPaused w1 = drop (length frames) (StreamPaused w).
Proof.
  induction 1 as [|f res fs rs [Lf Pf] _ IH]; intros fuel buf w more Hbuf Hf He Hb Hp.
  - exists fuel, buf, w. rewrite app_nil_r. cbn [length drop].
    split_and!; try reflexivity; assumption.
  - destruct fuel as [|fuel]; [lia|].
    cbn [concat] in Hb. rewrite <- app_assoc in Hb.
    assert (Hne : f <> []) by (intros ->; discriminate Pf).
    assert (Hh : head (StreamPaused w) <> Some true).
    { cbn [length] in Hp. destruct (StreamPaused w) as [|b ps]; [discriminate|].
      cbn [take] in Hp. inversion Hp; subst. discriminate. }
    destruct (stream_loop_frame_step packetIds fuel buf w f (concat fs ++ more)
                Hf He Hb ltac:(lia) Hne Hh)
      as (w1 & O & C & T & W & B & E & Wt & P & Eq).
    rewrite Eq, Pf.
    destruct (IH fuel f (send_out res w1) more)
      as (fuel' & buf' & w2 & Q & L' & F' & O' & C' & T' & W' & B' & E' & P').
    + exact Lf.
    + change (rx (send_out res w1)) with (rx w1). lia.
    + exact E.
    + exact B.
    + change (StreamPaused (send_out res w1)) with (StreamPaused w1). rewrite P.
      cbn [length] in Hp. destruct (StreamPaused w) as [|b ps];
        [cbn [tail]; rewrite take_nil; constructor|].
      cbn [take tail] in *. inversion Hp; subst. assumption.
    + exists fuel', buf', w2. rewrite Q.
      cbn [out out_closed tx wx send_out log set_out] in *.
      split_and!; try congruence.
      * rewrite O', O, <- app_assoc. reflexivity.
      * rewrite P'. change (StreamPaused (send_out res w1)) with (StreamPaused w1).
        rewrite P. cbn [length]. destruct (StreamPaused w) as [|b ps];
          [cbn [tail]; rewrite !drop_nil|]; reflexivity.
Qed.

(** A violation in any frame: after any number of accepted frames, from
    any state of the loop. *)
Lemma stream_loop_violation (packetIds : list Z) (fuel : nat) (buf : list Z)
    (w : world) (frames : list (list Z)) (results : list (list (list Z)))
    (frame more : list Z) :
  (length buf <= 255)%nat ->
  (rx_weight (rx w) < fuel)%nat ->
  Forall2 (fun f res => length f = length buf /\
                        process_frame packetIds f = FrameOk res) frames results ->
  length frame = length buf ->
  error_free (rx w) ->
  rx_bytes (rx w) = concat frames ++ frame ++ more ->
  Forall (fun b => b = false) (take (S (length frames)) (StreamPaused w)) ->
  integrity_violation packetIds frame ->
  exists m w',
    stream_loop fuel packetIds buf w = (ExitFatal m, w') /\
    (m = BadHeader \/ (exists got expected, m = BadLength got expected)
     \/ exists sum, m = ChecksumMismatch sum) /\
    out w' = out w ++ results /\ out_closed w' = out_closed w /\ tx w' = tx w /\
    rx_bytes (rx w') = more.
Proof.
  intros Hsz Hf F Hl He Hb Hp Hv.
  destruct (process_frame_violation packetIds frame) as (m & Hm & Hk);
    [lia|exact Hv|].
  assert (Hp1 : Forall (fun b => b = false) (take (length frames) (StreamPaused w))).
  { replace (take (length frames) (StreamPaused w))
      with (take (length frames) (take (S (length frames)) (StreamPaused w)))
      by (rewrite take_take; f_equal; lia).
    apply Forall_take, Hp. }
  destruct (stream_loop_accepted_frames packetIds (length buf) frames results F
              fuel buf w (frame ++ more) eq_refl Hf He Hb Hp1)
    as (fuel' & buf' & w1 & Q & L' & F' & O' & C' & T' & W' & B' & E' & P').
  destruct fuel' as [|fuel']; [lia|].
  destruct (stream_loop_first_frame packetIds fuel' buf' w1 frame more)
    as (w2 & O & C & X & _ & B & _ & _ & Eq); try assumption; [congruence| |].
  { rewrite P'. rewrite <- (take_drop (length frames) (StreamPaused w)) in Hp.
    destruct (drop (length frames) (StreamPaused w)) as [|b ps] eqn:D;
      [discriminate|].
    intros [= ->].
    assert (In1 : true ∈ take (S (length frames))
                           (take (length frames) (StreamPaused w) ++ true :: ps)).
    { destruct (Nat.le_gt_cases (length frames) (length (StreamPaused w))) as [G|G].
      - rewrite take_app_ge by (rewrite length_take; lia).
        rewrite length_take. replace (length frames `min` length (StreamPaused w))%nat
          with (length frames) by lia.
        replace (S (length frames) - length frames)%nat with 1%nat by lia.
        apply elem_of_app. right. apply list_elem_of_here.
      - rewrite drop_ge in D by lia. discriminate D. }
    rewrite Forall_forall in Hp. specialize (Hp _ In1). discriminate Hp. }
  rewrite Hm in Eq. exists m, w2. rewrite Q, Eq.
  split_and!; congruence.
Qed.

(** C2 (amended).  A stream-frame integrity violation (header byte not 19,
    length byte mismatch, or checksum mismatch) ends the host process: the
    reader reports it with [log.Fatalf] and the process exits.  The frame
    is not delivered, nothing is written to the port, and the session's
    channel is left as it was, open: no error value reaches the consumer.
    (1) For any frame of a session: the port delivers, without a read
    error and in any number of batches, any number of frames that the
    reader accepts and then a frame with a violation, and no pause is
    requested meanwhile; the accepted frames are delivered and the process
    exits at the violation.  (2) The same from any state of the reader's
    loop, whatever came before.  (3) Every run that ends in a [log.Fatalf]
    leaves the channel open and has written nothing. *)
Theorem integrity_violation_exits_process (packetIds : list Z) (w : world) :
  (forall (dataLength : Z) (frames : list (list Z))
          (results : list (list (list Z))) (frame more : list Z),
      stream_data_length packetIds 0 = Some dataLength ->
      Forall2 (fun f res => length f = stream_buf_len packetIds dataLength /\
                            process_frame packetIds f = FrameOk res)
              frames results ->
      length frame = stream_buf_len packetIds dataLength ->
      error_free (rx w) ->
      rx_bytes (rx w) = concat frames ++ frame ++ more ->
      Forall (fun b => b = false) (take (S (length frames)) (StreamPaused w)) ->
      integrity_violation packetIds frame ->
      exists m w',
        ReadStream packetIds w = (ExitFatal m, w') /\
        (m = BadHeader \/ (exists got expected, m = BadLength got expected)
         \/ exists sum, m = ChecksumMismatch sum) /\
        out w' = out w ++ results /\ out_closed w' = out_closed w /\
        tx w' = tx w /\ rx_bytes (rx w') = more /\
        next_receive (ExitFatal m) w' = ProcessGone) /\
  (forall (fuel : nat) (buf : list Z) (frames : list (list Z))
          (results : list (list (list Z))) (frame more : list Z),
      (length buf <= 255)%nat ->
      (rx_weight (rx w) < fuel)%nat ->
      Forall2 (fun f res => length f = length buf /\
                            process_frame packetIds f = FrameOk res)
              frames results ->
      length frame = length buf ->
      error_free (rx w) ->
      rx_bytes (rx w) = concat frames ++ frame ++ more ->
      Forall (fun b => b = false) (take (S (length frames)) (StreamPaused w)) ->
      integrity_violation packetIds frame ->
      exists m w',
        stream_loop fuel packetIds buf w = (ExitFatal m, w') /\
        out w' = out w ++ results /\ out_closed w' = out_closed w /\
        tx w' = tx w /\
        next_receive (ExitFatal m) w' = ProcessGone) /\
  (forall m w',
      ReadStream packetIds w = (ExitFatal m, w') ->
      out_closed w' = out_closed w /\ tx w' = tx w /\
      next_receive (ExitFatal m) w' = ProcessGone).
Proof.
  split_and!.
  - intros dl frames results frame more Hdl F Hl He Hb Hp Hv.
    unfold ReadStream. rewrite Hdl.
    destruct (stream_loop_violation packetIds (read_fuel w)
                (make_bytes (stream_buf_len packetIds dl)) w frames results
                frame more)
      as (m & w' & Q & K & O & C & T & B); rewrite ?make_bytes_length;
      try assumption.
    + apply stream_buf_len_bound.
    + unfold read_fuel. lia.
    + exists m, w'. split_and!; auto.
  - intros fuel buf frames results frame more Hsz Hf F Hl He Hb Hp Hv.
    destruct (stream_loop_violation packetIds fuel buf w frames results
                frame more Hsz Hf F Hl He Hb Hp Hv)
      as (m & w' & Q & K & O & C & T & B).
    exists m, w'. split_and!; auto.
  - intros m w' H.
    apply ReadStream_run in H as [(_ & D & _)|(dl & _ & Hrun)]; [discriminate D|].
    apply stream_run_summary in Hrun as (rounds & _ & _ & _ & C & X & _).
    split_and!; [exact C|exact X|reflexivity].
Qed.

Lemma integrity_violation_exits_process_witness :
  let frame := [19; 2; 7; 5; 243] in
  let w := streaming [ok [19; 2; 7]; ok [5; 242; 19]; ok [2; 7; 6; 241; 19; 2; 7];
                      ok [5; 243; 19]; ok [2; 7; 5; 242]] [] in
  exists m w',
    ReadStream [SENSOR_BUMP_WHEELS_DROPS] w = (ExitFatal m, w') /\
    out w' = [[[5]]; [[6]]] /\ out_closed w' = false /\
    rx_bytes (rx w') = [19; 2; 7; 5; 242].
Proof.
  intros frame w.
  destruct (proj1 (integrity_violation_exits_process [SENSOR_BUMP_WHEELS_DROPS] w)
              1 [[19; 2; 7; 5; 242]; [19; 2; 7; 6; 241]] [[[5]]; [[6]]]
              frame [19; 2; 7; 5; 242])
    as (m & w' & R & _ & O & C & _ & B & _).
  - vm_compute. reflexivity.
  - repeat constructor; vm_compute; reflexivity.
  - vm_compute. reflexivity.
  - repeat constructor.
  - reflexivity.
  - cbn. constructor.
  - apply (violation_checksum _ _ [(7, [5])] 243).
    + reflexivity.
    + discriminate.
    + reflexivity.
    + repeat constructor.
    + vm_compute. discriminate.
  - exists m, w'. split_and!; [exact R|exact O|exact C|exact B].
Defined.

(** *** A failed read in the middle of a frame *)

(** C3 (the code at the failing input).  The session reads packet 7; the
    port delivers the frame 19 2 7 5 242 twice, and reports an error other
    than [io.EOF] after the first two bytes.  The first accumulation stops
    with 19 2 in the buffer; [goto Loop] re-enters the [select], whose
    default case sets [bytesRead] to 0, so the next accumulation stores
    7 5 242 over the 19 2 and completes the buffer with the first two bytes
    of the second frame: 7 5 242 19 2.  The header check then ends the
    process, and no frame is delivered.  Without the failed read both
    frames are delivered. *)
Theorem read_error_restarts_frame :
  let frame := [19; 2; 7; 5; 242] in
  let ids := [SENSOR_BUMP_WHEELS_DROPS] in
  let failing := [ok [19; 2]; ([], Some (PortError 1)); ok [7; 5; 242]; ok frame] in
  let w := streaming failing [] in
  process_frame ids frame = FrameOk [[5]] /\
  (read_frame (read_fuel w) (make_bytes 5) O w).1
    = (FrameRetry, [19; 2; 0; 0; 0]) /\
  (read_frame (read_fuel w) [19; 2; 0; 0; 0] O
              (read_frame (read_fuel w) (make_bytes 5) O w).2).1
    = (FrameFull, [7; 5; 242; 19; 2]) /\
  (ReadStream ids w).1 = ExitFatal BadHeader /\
  out (ReadStream ids w).2 = [] /\
  out (ReadStream ids (streaming [ok [19; 2]; ok [7; 5; 242]; ok frame] [])).2
    = [[[5]]; [[5]]].
Proof. vm_compute. split_and!; reflexivity. Qed.

(** *** Acceptance of a frame *)

(** C4.  Take a frame on the wire made of the header 19, the length byte,
    entries whose payloads have the lengths of the table (as many entries
    as the session has ids; in particular the entries of the session's own
    ids) and a checksum byte.  The reader accepts it, and hands its payloads
    in order to [out <- result], if and only if the sum mod 256 of the bytes
    from the length byte to the checksum byte is 0; otherwise it refuses
    the frame with "computed checksum didn't match" and delivers nothing.
    First for the frame processing alone, then for [ReadStream] on a port
    that delivers the frame in any number of batches. *)
Theorem frame_accepted_iff_checksum (packetIds : list Z)
    (entries : list (Z * list Z)) (checksum : Z) :
  entries <> [] ->
  length entries = length packetIds ->
  Forall (fun e => Z.of_nat (length e.2) = packet_length_or_zero e.1) entries ->
  (length (wire_frame entries checksum) <= 255)%nat ->
  ((exists result, process_frame packetIds (wire_frame entries checksum) = FrameOk result)
   <-> byte_sum (checked_bytes entries checksum) = 0) /\
  (byte_sum (checked_bytes entries checksum) = 0 ->
   process_frame packetIds (wire_frame entries checksum) = FrameOk (map snd entries)) /\
  (byte_sum (checked_bytes entries checksum) <> 0 ->
   process_frame packetIds (wire_frame entries checksum)
   = FrameFatal (ChecksumMismatch (byte_sum (checked_bytes entries checksum)))) /\
  (forall (w : world) (dataLength : Z) (more : list Z),
      stream_data_length packetIds 0 = Some dataLength ->
      length (wire_frame entries checksum) = stream_buf_len packetIds dataLength ->
      error_free (rx w) ->
      rx_bytes (rx w) = wire_frame entries checksum ++ more ->
      head (StreamPaused w) <> Some true ->
      exists x w',
        ReadStream packetIds w = (x, w') /\
        ((exists later, out w' = out w ++ map snd entries :: later)
         <-> byte_sum (checked_bytes entries checksum) = 0) /\
        (byte_sum (checked_bytes entries checksum) <> 0 ->
         x = ExitFatal (ChecksumMismatch (byte_sum (checked_bytes entries checksum)))
         /\ out w' = out w)).
Proof.
  intros Hne Hk Hlen Hsz.
  pose proof (process_wire_frame packetIds entries checksum Hne Hk Hlen Hsz) as P.
  split_and!.
  - rewrite P.
    destruct (Z.eqb_spec (byte_sum (checked_bytes entries checksum)) 0) as [E|N].
    + split; [intros _; exact E|intros _; eexists; reflexivity].
    + split; [intros [r Hr]; discriminate Hr|intros E; contradiction].
  - intros E. rewrite P, E. reflexivity.
  - intros N. rewrite P.
    destruct (Z.eqb_spec (byte_sum (checked_bytes entries checksum)) 0);
      [contradiction|reflexivity].
  - intros w dl more Hdl Hl He Hb Hp.
    destruct (ReadStream_first_frame packetIds w dl _ more Hdl Hl He Hb Hp)
      as (w1 & O & C & X & R).
    rewrite P in R.
    destruct (Z.eqb_spec (byte_sum (checked_bytes entries checksum)) 0) as [E|N].
    + destruct R as (x & w' & later & R & Ho).
      exists x, w'. split_and!; [exact R| |contradiction].
      split; [intros _; exact E|intros _; exists later; exact Ho].
    + eexists _, w1. split_and!; [exact R| |intros _; split; [reflexivity|exact O]].
      split; [|contradiction].
      intros [later Ho]. exfalso. rewrite O in Ho.
      rewrite <- (app_nil_r (out w)) in Ho at 1.
      apply app_inv_head in Ho. discriminate Ho.
Qed.

Lemma frame_accepted_iff_checksum_witness :
  let ids := [SENSOR_BUMP_WHEELS_DROPS; SENSOR_DISTANCE] in
  let entries := [(7, [3]); (19, [10; 20])] in
  let w := streaming [ok [19; 5; 7]; ok [3; 19; 10; 20]; ok [192; 19; 5]] [] in
  process_frame ids (wire_frame entries 192) = FrameOk [[3]; [10; 20]] /\
  exists later, out (ReadStream ids w).2 = [[3]; [10; 20]] :: later.
Proof.
  intros ids entries w.
  destruct (frame_accepted_iff_checksum ids entries 192) as (_ & A & _ & B).
  - discriminate.
  - reflexivity.
  - repeat constructor.
  - cbn. lia.
  - split; [apply A; vm_compute; reflexivity|].
    destruct (B w 3 [19; 5]) as (x & w' & R & [_ D] & _).
    + vm_compute. reflexivity.
    + vm_compute. reflexivity.
    + repeat constructor.
    + reflexivity.
    + cbn. discriminate.
    + rewrite R. apply D. vm_compute. reflexivity.
Defined.

(** * Further properties of the driver *)

(** ** [Write] *)

Lemma S_Write_accepts (p : list Z) (w : world) :
  let r := S_Write p w in
  (r.1.1 <= length p)%nat /\
  tx r.2 = tx w ++ take r.1.1 p /\
  events r.2 = events w ++ [EvWrite (take r.1.1 p)].
Proof.
  unfold S_Write. destruct (wx w) as [|[|n err] rest]; cbn;
    rewrite ?firstn_all; split_and!; try reflexivity; lia.
Qed.

(** X1.  [Write] returns nil only when the port has accepted the op code
    and the whole payload, in that order.  When the op code is not
    accepted the payload is never offered to the port: the call has made
    one write, of at most the op code byte.  When the payload fails, the
    port has taken the op code and a prefix of the payload. *)
Theorem Write_nil_means_sent (opcode : Z) (p : list Z) (w : world) :
  let r := Write opcode p w in
  (r.1 = None -> tx r.2 = tx w ++ opcode :: p) /\
  (r.1 = Some (FailedWritingOpcode opcode) ->
   exists q, (q = [] \/ q = [opcode]) /\
             tx r.2 = tx w ++ q /\ events r.2 = events w ++ [EvWrite q]) /\
  (r.1 = Some (FailedWritingCommand p) ->
   exists n, tx r.2 = tx w ++ opcode :: take n p) /\
  (r.1 = None \/ r.1 = Some (FailedWritingOpcode opcode)
   \/ r.1 = Some (FailedWritingCommand p)).
Proof.
  unfold Write.
  pose proof (S_Write_accepts [opcode] w) as (L1 & T1 & E1).
  destruct (S_Write [opcode] w) as [[n err] w1]. cbn [fst snd] in *.
  destruct (Nat.eqb_spec n 1) as [->|N1]; cbn [negb orb].
  - destruct err as [e|]; cbn [bool_decide decide_rel]; cbn.
    + split_and!; try discriminate; [|auto].
      intros _. exists [opcode]. auto.
    + pose proof (S_Write_accepts p w1) as (L2 & T2 & E2).
      destruct (S_Write p w1) as [[n2 err2] w2]. cbn [fst snd] in *.
      assert (T : tx w2 = tx w ++ opcode :: take n2 p).
      { rewrite T2, T1, <- app_assoc. reflexivity. }
      destruct (Nat.eqb_spec n2 (length p)) as [->|N2]; cbn [negb orb].
      * destruct err2 as [e2|]; cbn; split_and!; try discriminate; auto.
        -- intros _. eexists. exact T.
        -- intros _. rewrite T, firstn_all. reflexivity.
      * cbn. split_and!; try discriminate; auto.
        intros _. eexists. exact T.
  - cbn. split_and!; try discriminate; [|auto].
    intros _. exists (take n [opcode]). split_and!; [|exact T1|exact E1].
    destruct n as [|[|n]]; cbn in *; auto; lia.
Qed.

Lemma Write_nil_means_sent_witness :
  tx (Write Constants.LEDs [8; 0; 255] (port [])).2 = [139; 8; 0; 255].
Proof.
  pose proof (Write_nil_means_sent Constants.LEDs [8; 0; 255] (port [])) as H.
  cbv zeta in H. destruct H as [H _]. apply H. reflexivity.
Defined.

(** ** Encoding and decoding of 16-bit values *)

Lemma lor_shiftl_8 (hi lo : Z) :
  0 <= lo < 256 -> Z.lor lo (Z.shiftl hi 8) = hi * 256 + lo.
Proof.
  intros H. rewrite Z.shiftl_mul_pow2 by lia. change (2 ^ 8) with 256.
  rewrite Z.add_comm. apply eq_sym, Z.add_nocarry_lor.
  apply Z.bits_inj'. intros n Hn.
  rewrite Z.land_spec, Z.bits_0.
  destruct (Z.ltb_spec n 8) as [L|L].
  - replace (hi * 256) with (hi * 2 ^ 8) by reflexivity.
    rewrite Z.mul_pow2_bits_low by lia. apply andb_false_r.
  - replace lo with (lo mod 2 ^ 8) by (apply Z.mod_small; exact H).
    rewrite Z.mod_pow2_bits_high by lia. reflexivity.
Qed.

Lemma Uint16_PutUint16 (x : Z) : Uint16 (PutUint16 x) = Some (x mod 65536).
Proof.
  unfold Uint16, PutUint16. f_equal.
  rewrite lor_shiftl_8 by apply wrap8_range.
  unfold wrap8. rewrite Z.shiftr_div_pow2 by lia. change (2 ^ 8) with 256.
  change 65536 with (256 * 256).
  rewrite (Z.rem_mul_r x 256 256) by lia. lia.
Qed.

Lemma Pack_int16_round_trip_aux (v : Z) :
  -32768 <= v <= 32767 ->
  Pack [VInt16 v] = Some (PutUint16 (wrap16 v)) /\
  binary_Read_int16 (PutUint16 (wrap16 v)) = Some v.
Proof.
  intros H. split; [reflexivity|].
  unfold binary_Read_int16. rewrite Uint16_PutUint16. cbn [option_map].
  f_equal. unfold wrap16, to_int16. rewrite Z.mod_mod by lia.
  rewrite Zplus_mod_idemp_l. rewrite Z.mod_small; lia.
Qed.

(** X2.  What [Pack] writes for an [int16] is what [binary.Read] reads
    back: decoding the two bytes gives the value again, for every value of
    the type; and a [uint16] comes back through [Uint16]. *)
Theorem Pack_int16_round_trip (v : Z) :
  -32768 <= v <= 32767 ->
  (exists bs, Pack [VInt16 v] = Some bs /\ length bs = 2%nat /\
              binary_Read_int16 bs = Some v) /\
  (forall u, 0 <= u <= 65535 ->
             exists bs, Pack [VUint16 u] = Some bs /\ Uint16 bs = Some u).
Proof.
  intros H. split.
  - exists (PutUint16 (wrap16 v)). split_and!; try reflexivity.
    apply Pack_int16_round_trip_aux, H.
  - intros u Hu. exists (PutUint16 u). split; [reflexivity|].
    rewrite Uint16_PutUint16. f_equal. apply Z.mod_small. lia.
Qed.

Lemma Pack_int16_round_trip_witness :
  exists bs, Pack [VInt16 (-747)] = Some bs /\ length bs = 2%nat /\
             binary_Read_int16 bs = Some (-747).
Proof. apply (Pack_int16_round_trip (-747)). lia. Defined.

(** ** Parameterized commands *)

Lemma int16_payload (a b : Z) :
  -32768 <= a <= 32767 -> -32768 <= b <= 32767 ->
  exists payload,
    Pack [VInt16 a; VInt16 b] = Some payload /\ length payload = 4%nat /\
    binary_Read_int16 (take 2 payload) = Some a /\
    binary_Read_int16 (drop 2 payload) = Some b.
Proof.
  intros Ha Hb.
  destruct (Pack_int16_round_trip_aux a Ha) as (Ea & Ra).
  destruct (Pack_int16_round_trip_aux b Hb) as (Eb & Rb).
  exists (PutUint16 (wrap16 a) ++ PutUint16 (wrap16 b)).
  split_and!; [reflexivity|reflexivity|exact Ra|exact Rb].
Qed.

(** X3.  [Drive] with a velocity in [-500, 500] and a radius in
    [-2000, 2000], on a port that takes the writes, sends the op code 137
    and four bytes that decode, high byte first, to the velocity and the
    radius, and returns nil without reading.  With an argument out of
    range it returns an error and leaves the port untouched. *)
Theorem Drive_in_range_round_trip (velocity radius : Z) (w : world) :
  (-500 <= velocity <= 500 -> -2000 <= radius <= 2000 -> wx w = [] ->
   exists w' payload,
     Drive velocity radius w = Some (None, w') /\
     tx w' = tx w ++ 137 :: payload /\ length payload = 4%nat /\
     binary_Read_int16 (take 2 payload) = Some velocity /\
     binary_Read_int16 (drop 2 payload) = Some radius /\
     rx w' = rx w) /\
  (~ (-500 <= velocity <= 500 /\ -2000 <= radius <= 2000) ->
   exists e, Drive velocity radius w = Some (Some e, w)).
Proof.
  split.
  - intros Hv Hr Hw.
    destruct (int16_payload velocity radius) as (payload & P & L & Dv & Dr); try lia.
    unfold Drive. rewrite P.
    destruct (Z.leb_spec (-500) velocity), (Z.leb_spec velocity 500); try lia.
    destruct (Z.leb_spec (-2000) radius), (Z.leb_spec radius 2000); try lia.
    cbn [andb negb].
    pose proof (Write_frame Constants.Drive payload w)
      as (R & _ & _ & _ & wr & _ & _ & T & A).
    destruct (A Hw) as (-> & _ & N).
    destruct (Write Constants.Drive payload w) as [r w']. cbn [fst snd] in *.
    subst r. exists w', payload. split_and!; try assumption; try reflexivity.
    rewrite T. cbn. rewrite app_nil_r. reflexivity.
  - intros H. unfold Drive.
    destruct (Z.leb_spec (-500) velocity), (Z.leb_spec velocity 500);
      cbn [andb negb]; try (eexists; reflexivity).
    destruct (Z.leb_spec (-2000) radius), (Z.leb_spec radius 2000);
      cbn [andb negb]; try (eexists; reflexivity).
    lia.
Qed.

Lemma Drive_in_range_round_trip_witness :
  exists w' payload,
    Drive 200 (-100) (port []) = Some (None, w') /\
    tx w' = 137 :: payload /\
    binary_Read_int16 (take 2 payload) = Some 200 /\
    binary_Read_int16 (drop 2 payload) = Some (-100).
Proof.
  destruct (proj1 (Drive_in_range_round_trip 200 (-100) (port [])))
    as (w' & payload & D & T & _ & V & R & _); try lia; [reflexivity|].
  exists w', payload. auto.
Defined.

(** X4.  [DirectDrive] with both velocities in [-500, 500], on a port that
    takes the writes, sends the op code 145 and four bytes of which the
    first two decode to the right velocity and the last two to the left
    one (the order in which the simulator reads them back).  With either
    velocity out of range it returns an error naming both values and
    leaves the port untouched. *)
Theorem DirectDrive_round_trip (right left : Z) (w : world) :
  (-500 <= right <= 500 -> -500 <= left <= 500 -> wx w = [] ->
   exists w' data,
     DirectDrive right left w = Some (None, w') /\
     tx w' = tx w ++ 145 :: data /\ length data = 4%nat /\
     binary_Read_int16 (take 2 data) = Some right /\
     binary_Read_int16 (take 2 (drop 2 data)) = Some left) /\
  (~ (-500 <= right <= 500 /\ -500 <= left <= 500) ->
   DirectDrive right left w = Some (Some (InvalidVelocities right left), w)).
Proof.
  split.
  - intros Hv Hr Hw.
    destruct (int16_payload right left) as (payload & P & L & Dv & Dr); try lia.
    unfold DirectDrive. rewrite P.
    destruct (Z.leb_spec (-500) right), (Z.leb_spec right 500); try lia.
    destruct (Z.leb_spec (-500) left), (Z.leb_spec left 500); try lia.
    cbn [andb negb orb].
    pose proof (Write_frame Constants.DriveDirect payload w)
      as (R & _ & _ & _ & wr & _ & _ & T & A).
    destruct (A Hw) as (-> & _ & N).
    destruct (Write Constants.DriveDirect payload w) as [r w']. cbn [fst snd] in *.
    subst r. exists w', payload. split_and!; try assumption; try reflexivity.
    + rewrite T. cbn. rewrite app_nil_r. reflexivity.
    + rewrite take_ge; [exact Dr|]. rewrite length_drop. lia.
  - intros H. unfold DirectDrive.
    destruct (Z.leb_spec (-500) right), (Z.leb_spec right 500);
      cbn [andb negb orb]; try reflexivity.
    destruct (Z.leb_spec (-500) left), (Z.leb_spec left 500);
      cbn [andb negb orb]; try reflexivity.
    lia.
Qed.

Lemma DirectDrive_round_trip_witness :
  exists w' data,
    DirectDrive (-500) 500 (port []) = Some (None, w') /\
    tx w' = 145 :: data /\
    binary_Read_int16 (take 2 data) = Some (-500) /\
    binary_Read_int16 (take 2 (drop 2 data)) = Some 500.
Proof.
  destruct (proj1 (DirectDrive_round_trip (-500) 500 (port [])))
    as (w' & data & D & T & _ & V & R); try lia; [reflexivity|].
  exists w', data. auto.
Defined.

(** X5.  [LEDs], on a port that takes the writes, sends the op code 139,
    a byte in which bit 3 is [advance], bit 1 is [play] and every other bit
    ([0xF5]) is 0, then the colour and the intensity. *)
Theorem LEDs_bits (advance play : bool) (powerColor powerIntensity : Z) (w : world) :
  0 <= powerColor < 256 -> 0 <= powerIntensity < 256 -> wx w = [] ->
  exists w' ledBits,
    Roomba.LEDs advance play powerColor powerIntensity w = Some (None, w') /\
    tx w' = tx w ++ [139; ledBits; powerColor; powerIntensity] /\
    ledBits = 8 * Z.b2z advance + 2 * Z.b2z play /\
    Z.testbit ledBits 3 = advance /\ Z.testbit ledBits 1 = play /\
    Z.land ledBits 245 = 0.
Proof.
  intros Hc Hi Hw. unfold Roomba.LEDs.
  set (ledBits := if play
                  then wrap8 ((if advance then wrap8 (0 + 8) else 0) + 2)
                  else if advance then wrap8 (0 + 8) else 0).
  assert (B : ledBits = 8 * Z.b2z advance + 2 * Z.b2z play)
    by (destruct advance, play; reflexivity).
  change (Pack [VUint8 ledBits; VUint8 powerColor; VUint8 powerIntensity])
    with (Some [wrap8 ledBits; wrap8 powerColor; wrap8 powerIntensity]).
  rewrite (wrap8_small powerColor), (wrap8_small powerIntensity) by lia.
  rewrite (wrap8_small ledBits) by (rewrite B; destruct advance, play; cbn; lia).
  pose proof (Write_frame Constants.LEDs [ledBits; powerColor; powerIntensity] w)
    as (_ & _ & _ & _ & wr & _ & _ & T & A).
  destruct (A Hw) as (-> & _ & N).
  destruct (Write Constants.LEDs [ledBits; powerColor; powerIntensity] w) as [r w'].
  cbn [fst snd] in *. subst r.
  exists w', ledBits.
  split_and!; [reflexivity|exact T|exact B| | |];
    rewrite B; destruct advance, play; reflexivity.
Qed.

Lemma LEDs_bits_witness :
  exists w', Roomba.LEDs true false 255 128 (port []) = Some (None, w') /\
             tx w' = [139; 8; 255; 128].
Proof.
  destruct (LEDs_bits true false 255 128 (port []))
    as (w' & ledBits & L & T & B & _); try lia; [reflexivity|].
  exists w'. split; [exact L|]. rewrite T, B. reflexivity.
Defined.

(** X6.  [Control] sends the op codes 128 and 130, as two commands, on a
    port that takes the writes.  It drops the error of the first: when the
    port refuses the Start op code and takes what follows, [Control]
    returns nil although only 130 has been sent. *)
Theorem Control_drops_Start_error (w : world) :
  (wx w = [] ->
   (Roomba.Control w).1 = None /\ tx (Roomba.Control w).2 = tx w ++ [128; 130]) /\
  (forall e, wx w = [WriteSome 0 (Some e)] ->
             (Roomba.Start w).1 = Some (FailedWritingOpcode 128) /\
             (Roomba.Control w).1 = None /\
             tx (Roomba.Control w).2 = tx w ++ [130]).
Proof.
  unfold Roomba.Control, Roomba.Passive, Roomba.Start, WriteByte, Write, S_Write.
  split.
  - intros ->. cbn. rewrite <- !app_assoc. auto.
  - intros e ->. cbn. rewrite !app_nil_r. auto.
Qed.

Lemma Control_drops_Start_error_witness :
  (Roomba.Control (mkWorld [] [WriteSome 0 (Some (PortError 1))] [] [] [] false [])).1
  = None /\
  tx (Roomba.Control (mkWorld [] [WriteSome 0 (Some (PortError 1))] [] [] [] false [])).2
  = [130].
Proof.
  destruct (proj2 (Control_drops_Start_error
                     (mkWorld [] [WriteSome 0 (Some (PortError 1))] [] [] [] false []))
                  (PortError 1) eq_refl) as (_ & C & T).
  split; [exact C|exact T].
Defined.

(** ** Queries *)

(** The read loop only reads. *)
Lemma read_loop_frame (fuel : nat) :
  forall (packetId : Z) (result : list Z) (n : nat) (bytesToRead : Z) (w : world),
    let w' := (read_loop fuel packetId result n bytesToRead w).2 in
    wx w' = wx w /\ tx w' = tx w /\ StreamPaused w' = StreamPaused w /\
    out w' = out w /\ out_closed w' = out_closed w.
Proof.
  induction fuel as [|fuel IH]; intros packetId result n btr w; cbn [read_loop].
  - cbn. auto.
  - destruct (wrap8 (Z.of_nat n) <? btr); [|cbn; auto].
    destruct (length result <? n)%nat; [cbn; auto|].
    unfold Read.
    destruct (S_Read (length result - n) w) as [[[bs err] w1]|] eqn:R; [|cbn; auto].
    apply S_Read_frame in R as (X1 & X2 & X3 & X4 & X5 & _).
    destruct err as [e|]; [cbn; auto|].
    specialize (IH packetId (copy_at result n bs) (length bs)
                   (wrap8 (btr - wrap8 (Z.of_nat n))) w1).
    cbn zeta in IH. destruct IH as (I1 & I2 & I3 & I4 & I5).
    cbn zeta. split_and!; congruence.
Qed.

(** The buffer keeps its length through the loop. *)
Lemma read_loop_length (fuel : nat) :
  forall (packetId : Z) (result : list Z) (n : nat) (bytesToRead : Z) (w : world)
         (buf : list Z) (err : option error),
    (n <= length result)%nat ->
    bytesToRead <= Z.of_nat (length result) ->
    (length result <= 255)%nat ->
    (read_loop fuel packetId result n bytesToRead w).1 = Returns (buf, err) ->
    length buf = length result.
Proof.
  induction fuel as [|fuel IH]; intros packetId result n btr w buf err Hn Hb Hr;
    cbn [read_loop]; [discriminate|].
  rewrite (wrap8_small (Z.of_nat n)) by lia.
  destruct (Z.ltb_spec (Z.of_nat n) btr) as [L|L];
    [|cbn; intros H; inversion H; reflexivity].
  destruct (Nat.ltb_spec (length result) n) as [|_]; [lia|].
  unfold Read.
  destruct (S_Read (length result - n) w) as [[[bs e] w1]|] eqn:R; [|discriminate].
  apply S_Read_frame in R as (_ & _ & _ & _ & _ & _ & X7 & _).
  assert (C : length (copy_at result n bs) = length result)
    by (apply copy_at_length; lia).
  destruct e as [e|]; cbn [fst].
  - intros H. inversion H; subst. exact C.
  - intros H. apply IH in H; rewrite ?C in *; try lia.
    rewrite wrap8_small; lia.
Qed.

(** X7.  [Sensors] with an id that is not in the table returns an empty
    buffer and the error "unknown packet id" without touching the port.
    With a registered id, whatever the port delivers and also when a read
    fails, the buffer it returns has exactly the registered length; and on
    a port that takes the writes it has sent exactly the request, 142 and
    the id, whether it returns or waits for ever. *)
Theorem Sensors_buffer_and_request (packetId : Z) (w : world) :
  (SENSOR_PACKET_LENGTH !! packetId = None ->
   Sensors packetId w = (Returns ([], Some (UnknownPacketId packetId)), w)) /\
  (forall len buf err,
      SENSOR_PACKET_LENGTH !! packetId = Some len ->
      (Sensors packetId w).1 = Returns (buf, err) ->
      Z.of_nat (length buf) = len) /\
  (forall len,
      SENSOR_PACKET_LENGTH !! packetId = Some len ->
      wx w = [] ->
      tx (Sensors packetId w).2 = tx w ++ [142; packetId]).
Proof.
  unfold Sensors. split_and!.
  - intros ->. reflexivity.
  - intros len buf err Hreg. rewrite Hreg.
    pose proof (packet_length_bound _ _ Hreg) as B.
    destruct (Write Constants.Sensors [packetId] w) as [r w1].
    intros H. apply read_loop_length in H; rewrite ?make_bytes_length in *; lia.
  - intros len Hreg Hw. rewrite Hreg.
    pose proof (Write_frame Constants.Sensors [packetId] w)
      as (_ & _ & _ & _ & wr & _ & _ & T & A).
    destruct (A Hw) as (-> & _ & _).
    destruct (Write Constants.Sensors [packetId] w) as [r w1]. cbn [fst snd] in *.
    pose proof (read_loop_frame (read_fuel w1) packetId
                  (make_bytes (Z.to_nat len)) O len w1) as (_ & T' & _).
    rewrite T', T. reflexivity.
Qed.

Lemma Sensors_buffer_and_request_witness :
  let w := port [([10], Some (PortError 3))] in
  (Sensors SENSOR_DISTANCE w).1
  = Returns ([10; 0], Some (FailedReadingSensors SENSOR_DISTANCE (PortError 3))) /\
  Z.of_nat (length [10; 0]) = 2 /\
  tx (Sensors SENSOR_DISTANCE w).2 = [142; SENSOR_DISTANCE].
Proof.
  intros w.
  assert (R : SENSOR_PACKET_LENGTH !! SENSOR_DISTANCE = Some 2)
    by (vm_compute; reflexivity).
  assert (S : (Sensors SENSOR_DISTANCE w).1
              = Returns ([10; 0],
                         Some (FailedReadingSensors SENSOR_DISTANCE (PortError 3))))
    by (vm_compute; reflexivity).
  destruct (Sensors_buffer_and_request SENSOR_DISTANCE w) as (_ & L & T).
  split_and!; [exact S|exact (L 2 _ _ R S)|exact (T 2 R eq_refl)].
Defined.

(** *** [QueryList] *)

(** One entry whose bytes are at the head of the port, in one batch. *)
Lemma read_loop_served (packetId : Z) (p tl : list Z) (err : option error)
    (rest : list (list Z * option error)) (w : world) :
  1 <= Z.of_nat (length p) <= 52 ->
  rx w = (p ++ tl, err) :: rest ->
  (tl = [] -> err = None) ->
  exists w',
    read_loop (read_fuel w) packetId (make_bytes (length p)) O
              (Z.of_nat (length p)) w = (Returns (p, None), w') /\
    rx w' = (if decide (tl = []) then rest else (tl, err) :: rest) /\
    tx w' = tx w /\ wx w' = wx w.
Proof.
  intros B Hrx Htl. unfold read_fuel. rewrite Hrx, rx_weight_cons.
  set (fuel := (S (length (p ++ tl)) + rx_weight rest)%nat).
  cbn [read_loop]. change (wrap8 (Z.of_nat 0)) with 0.
  destruct (Z.ltb_spec 0 (Z.of_nat (length p))) as [_|]; [|lia].
  rewrite make_bytes_length. cbn [Nat.ltb Nat.leb].
  unfold Read, S_Read. rewrite Hrx, Nat.sub_0_r, Z.sub_0_r.
  assert (F : forall (q : list Z) w1,
             length q = length p ->
             read_loop fuel packetId
               (copy_at (make_bytes (length p)) 0 q) (length q)
               (wrap8 (Z.of_nat (length p))) w1 = (Returns (q, None), w1)).
  { intros q w1 Hq.
    rewrite copy_at_0_full by lia. rewrite Hq, Nat.sub_diag.
    cbn [make_bytes replicate]. rewrite app_nil_r.
    unfold fuel. cbn [Nat.add read_loop]. rewrite !wrap8_small by lia.
    rewrite Z.ltb_irrefl. reflexivity. }
  clearbody fuel.
  destruct (Nat.leb_spec (length (p ++ tl)) (length p)) as [L|L].
  - rewrite length_app in L. assert (tl = []) as -> by (destruct tl; [reflexivity|cbn in L; lia]).
    rewrite (Htl eq_refl). rewrite app_nil_r in *.
    eexists. split; [apply F; reflexivity|]. cbn. auto.
  - assert (tl <> []) by (intros ->; rewrite app_nil_r in L; lia).
    rewrite take_app_length, drop_app_length.
    eexists. split; [apply F; reflexivity|].
    destruct (decide (tl = [])); [contradiction|]. cbn. auto.
Qed.

Lemma packet_length_or_zero_Some (id len : Z) :
  SENSOR_PACKET_LENGTH !! id = Some len -> packet_length_or_zero id = len.
Proof. intros H. unfold packet_length_or_zero. rewrite H. reflexivity. Qed.

(** The entries served one after the other, then the entries that follow. *)
Lemma QueryList_read_served (payloads : list (list Z))
    (r r' : list (list Z * option error)) :
  served payloads r r' ->
  forall (ids ids' : list Z) (i : nat) (result : list (list Z)) (w : world),
    Forall2 (fun id p => SENSOR_PACKET_LENGTH !! id = Some (Z.of_nat (length p)))
            ids payloads ->
    rx w = r ->
    (i + length ids <= length result)%nat ->
    exists w',
      QueryList_read (ids ++ ids') i result w
      = QueryList_read ids' (i + length ids)
          (take i result ++ payloads ++ drop (i + length ids) result) w' /\
      rx w' = r' /\ tx w' = tx w /\ wx w' = wx w.
Proof.
  induction 1 as [r|p ps rest r' _ IH|p ps tl err rest r' Htl _ IH];
    intros ids ids' i result w F Hrx Hlen.
  - inversion F; subst. exists w. cbn [app length].
    rewrite Nat.add_0_r, take_drop. auto.
  - inversion F as [|id p0 ids0 ps0 Hid F']; subst.
    pose proof (packet_length_bound _ _ Hid) as B.
    destruct (read_loop_served id p [] None rest w B) as (w1 & R & X & T & W);
      [rewrite app_nil_r; exact Hrx|reflexivity|].
    cbn [app QueryList_read].
    rewrite (packet_length_or_zero_Some _ _ Hid), Nat2Z.id, R.
    cbn [length] in Hlen.
    destruct (IH ids0 ids' (S i) (<[i:=p]> result) w1 F') as (w' & Q & X' & T' & W');
      [destruct (decide ([] = [])); [exact X|contradiction]
      |rewrite length_insert; lia|].
    exists w'. split_and!; [|exact X'|congruence|congruence].
    rewrite Q. f_equal; [cbn [length]; lia|].
    rewrite insert_take_drop by lia.
    replace (take (S i) (take i result ++ p :: drop (S i) result))
      with (take i result ++ [p]).
    + rewrite <- app_assoc. cbn [app length]. f_equal. f_equal. f_equal.
      rewrite <- insert_take_drop by lia. rewrite drop_insert_lt by lia.
      f_equal. lia.
    + change (p :: drop (S i) result) with ([p] ++ drop (S i) result).
      rewrite app_assoc.
      replace (S i) with (length (take i result ++ [p]))
        by (rewrite length_app, length_take; cbn; lia).
      rewrite take_app_length. reflexivity.
  - inversion F as [|id p0 ids0 ps0 Hid F']; subst.
    pose proof (packet_length_bound _ _ Hid) as B.
    destruct (read_loop_served id p tl err rest w B) as (w1 & R & X & T & W);
      [exact Hrx|intros E; contradiction|].
    cbn [app QueryList_read].
    rewrite (packet_length_or_zero_Some _ _ Hid), Nat2Z.id, R.
    cbn [length] in Hlen.
    destruct (IH ids0 ids' (S i) (<[i:=p]> result) w1 F') as (w' & Q & X' & T' & W');
      [destruct (decide (tl = [])); [contradiction|exact X]
      |rewrite length_insert; lia|].
    exists w'. split_and!; [|exact X'|congruence|congruence].
    rewrite Q. f_equal; [cbn [length]; lia|].
    rewrite insert_take_drop by lia.
    replace (take (S i) (take i result ++ p :: drop (S i) result))
      with (take i result ++ [p]).
    + rewrite <- app_assoc. cbn [app length]. f_equal. f_equal. f_equal.
      rewrite <- insert_take_drop by lia. rewrite drop_insert_lt by lia.
      f_equal. lia.
    + change (p :: drop (S i) result) with ([p] ++ drop (S i) result).
      rewrite app_assoc.
      replace (S i) with (length (take i result ++ [p]))
        by (rewrite length_app, length_take; cbn; lia).
      rewrite take_app_length. reflexivity.
Qed.

Lemma QueryList_find_none (ids : list Z) :
  Forall (fun id => SENSOR_PACKET_LENGTH !! id <> None) ids ->
  list_find (fun id => SENSOR_PACKET_LENGTH !! id = None) ids = None.
Proof. intros H. apply list_find_None. exact H. Qed.

Lemma registered_payloads (ids : list Z) (payloads : list (list Z)) :
  Forall2 (fun id p => SENSOR_PACKET_LENGTH !! id = Some (Z.of_nat (length p)))
          ids payloads ->
  Forall (fun id => SENSOR_PACKET_LENGTH !! id <> None) ids /\
  length ids = length payloads.
Proof.
  induction 1 as [|id p ids ps H _ [IH1 IH2]]; [split; [constructor|reflexivity]|].
  split; [constructor; [congruence|exact IH1]|cbn; lia].
Qed.

(** [QueryList] on a port that serves the payloads. *)
Lemma QueryList_served (ids : list Z) (payloads : list (list Z))
    (w : world) (r' : list (list Z * option error)) :
  Forall2 (fun id p => SENSOR_PACKET_LENGTH !! id = Some (Z.of_nat (length p)))
          ids payloads ->
  served payloads (rx w) r' ->
  wx w = [] ->
  exists w',
    QueryList ids w = (Returns (payloads, None), w') /\
    rx w' = r' /\
    tx w' = tx w ++ 149 :: wrap8 (Z.of_nat (length ids)) :: ids.
Proof.
  intros F Sv Hw. destruct (registered_payloads ids payloads F) as [Reg Len].
  unfold QueryList. rewrite (QueryList_find_none ids Reg).
  pose proof (Write_frame Constants.QueryList
                (wrap8 (Z.of_nat (length ids)) :: ids) w)
    as (R & _ & _ & _ & wr & _ & _ & T & A).
  destruct (A Hw) as (-> & _ & _).
  destruct (Write Constants.QueryList (wrap8 (Z.of_nat (length ids)) :: ids) w)
    as [e w1]. cbn [fst snd] in *.
  destruct (QueryList_read_served payloads (rx w) r' Sv ids [] O
              (replicate (length ids) []) w1 F R) as (w' & Q & X & T' & _).
  { rewrite length_replicate. lia. }
  rewrite app_nil_r in Q. rewrite Q. cbn [QueryList_read Nat.add take app].
  rewrite drop_replicate, Nat.sub_diag. cbn [replicate]. rewrite app_nil_r.
  exists w'. split_and!; [reflexivity|exact X|].
  rewrite T', T. cbn. rewrite app_nil_r. reflexivity.
Qed.

(** X8.  [QueryList], for registered ids and a port that takes the writes
    and delivers the payloads one after the other without splitting any of
    them between two reads (all in one batch, one batch each, or anything
    in between), sends 149, the count and the ids in the order given, and
    returns the payloads in that same order, leaving in the port whatever
    follows them. *)
Theorem QueryList_in_request_order (ids : list Z) (payloads : list (list Z))
    (w : world) (r' : list (list Z * option error)) :
  Forall2 (fun id p => SENSOR_PACKET_LENGTH !! id = Some (Z.of_nat (length p)))
          ids payloads ->
  served payloads (rx w) r' ->
  wx w = [] ->
  exists w',
    QueryList ids w = (Returns (payloads, None), w') /\
    rx w' = r' /\
    tx w' = tx w ++ 149 :: wrap8 (Z.of_nat (length ids)) :: ids.
Proof.
  intros F Sv Hw.
  destruct (QueryList_served ids payloads w r' F Sv Hw) as (w' & Q & R & T).
  exists w'. split_and!; assumption.
Qed.

Lemma QueryList_in_request_order_witness :
  exists w',
    QueryList [SENSOR_WALL; SENSOR_DISTANCE; SENSOR_OI_MODE]
              (port [ok [35; 10; 20]; ok [2; 99]])
    = (Returns ([[35]; [10; 20]; [2]], None), w') /\
    rx w' = [ok [99]] /\ tx w' = [149; 3; 8; 19; 35].
Proof.
  apply (QueryList_in_request_order [SENSOR_WALL; SENSOR_DISTANCE; SENSOR_OI_MODE]
           [[35]; [10; 20]; [2]] (port [ok [35; 10; 20]; ok [2; 99]]) [ok [99]]).
  - repeat constructor; vm_compute; reflexivity.
  - apply (served_part [35] _ [10; 20] None); [discriminate|].
    apply served_whole.
    apply (served_part [2] _ [99] None); [discriminate|].
    apply served_nil.
  - reflexivity.
Defined.

(** X9.  [QueryList] validates the whole list before it writes: when some
    id is not in the table it returns an empty list and the error "unknown
    packet id" for the first such id, and the port is untouched (nothing
    written, nothing read). *)
Theorem QueryList_unknown_id (ids : list Z) (w : world) :
  (exists id, id ∈ ids /\ SENSOR_PACKET_LENGTH !! id = None) ->
  exists (k : nat) (id : Z),
    ids !! k = Some id /\ SENSOR_PACKET_LENGTH !! id = None /\
    (forall j y, ids !! j = Some y -> (j < k)%nat -> SENSOR_PACKET_LENGTH !! y <> None) /\
    QueryList ids w = (Returns ([], Some (UnknownPacketId id)), w).
Proof.
  intros (id0 & Hin & Hno). unfold QueryList.
  destruct (list_find (fun id => SENSOR_PACKET_LENGTH !! id = None) ids)
    as [[k id]|] eqn:E.
  - apply list_find_Some in E as (E1 & E2 & E3).
    exists k, id. split_and!; [exact E1|exact E2|exact E3|reflexivity].
  - exfalso. apply list_find_None in E. rewrite Forall_forall in E.
    exact (E id0 Hin Hno).
Qed.

Lemma QueryList_unknown_id_witness :
  exists k id,
    [SENSOR_WALL; 99; 100] !! k = Some id /\
    QueryList [SENSOR_WALL; 99; 100] (port [ok [35]])
    = (Returns ([], Some (UnknownPacketId id)), port [ok [35]]).
Proof.
  destruct (QueryList_unknown_id [SENSOR_WALL; 99; 100] (port [ok [35]]))
    as (k & id & K & _ & _ & Q).
  - exists 100. split; [|vm_compute; reflexivity].
    do 2 apply list_elem_of_further. apply list_elem_of_here.
  - exists k, id. split; [exact K|exact Q].
Defined.

Lemma insert_at_length {A : Type} (l1 l2 : list A) (x y : A) :
  <[length l1 := x]> (l1 ++ y :: l2) = l1 ++ x :: l2.
Proof. induction l1 as [|a l1 IH]; cbn; [reflexivity|]. f_equal. exact IH. Qed.

(** X10.  When the port fails in the middle of a batch query, [QueryList]
    returns, with the error "failed reading sensors data" for the id it
    was reading, a list as long as the request: the payloads read so far,
    then the buffer of that id, of its full length, with the bytes that
    came with the error and zeros after them, then a nil entry for every
    id that follows. *)
Theorem QueryList_read_error_partway (ids1 ids2 : list Z) (id len : Z)
    (payloads1 : list (list Z)) (bs : list Z) (e : error)
    (rest : list (list Z * option error)) (w : world) :
  Forall2 (fun id p => SENSOR_PACKET_LENGTH !! id = Some (Z.of_nat (length p)))
          ids1 payloads1 ->
  SENSOR_PACKET_LENGTH !! id = Some len ->
  Forall (fun id => SENSOR_PACKET_LENGTH !! id <> None) ids2 ->
  served payloads1 (rx w) ((bs, Some e) :: rest) ->
  Z.of_nat (length bs) <= len ->
  exists w',
    QueryList (ids1 ++ id :: ids2) w
    = (Returns (payloads1
                ++ (bs ++ make_bytes (Z.to_nat len - length bs))
                   :: replicate (length ids2) [],
                Some (FailedReadingSensors id e)), w') /\
    rx w' = rest.
Proof.
  intros F Hid Reg2 Sv Hbs.
  destruct (registered_payloads ids1 payloads1 F) as [Reg1 Len].
  pose proof (packet_length_bound _ _ Hid) as B.
  unfold QueryList. rewrite QueryList_find_none
    by (apply Forall_app; split; [exact Reg1|constructor; [congruence|exact Reg2]]).
  pose proof (Write_frame Constants.QueryList
                (wrap8 (Z.of_nat (length (ids1 ++ id :: ids2)))
                 :: ids1 ++ id :: ids2) w) as (R & _).
  destruct (Write Constants.QueryList
              (wrap8 (Z.of_nat (length (ids1 ++ id :: ids2)))
               :: ids1 ++ id :: ids2) w) as [r w1]. cbn [fst snd] in R.
  destruct (QueryList_read_served payloads1 (rx w) _ Sv ids1 (id :: ids2) O
              (replicate (length (ids1 ++ id :: ids2)) []) w1 F R)
    as (w2 & Q & X & _).
  { rewrite length_replicate, length_app. lia. }
  rewrite Q. cbn [Nat.add take app QueryList_read].
  rewrite (packet_length_or_zero_Some _ _ Hid).
  unfold read_fuel. rewrite X, rx_weight_cons. cbn [Nat.add read_loop].
  change (wrap8 (Z.of_nat 0)) with 0.
  destruct (Z.ltb_spec 0 len) as [_|]; [|lia].
  rewrite make_bytes_length. cbn [Nat.ltb Nat.leb].
  unfold Read, S_Read. rewrite X, Nat.sub_0_r.
  destruct (Nat.leb_spec (length bs) (Z.to_nat len)) as [_|]; [|lia].
  rewrite copy_at_0_full by lia.
  rewrite drop_replicate, length_app. cbn [length].
  replace (length ids1 + S (length ids2) - length ids1)%nat
    with (S (length ids2)) by lia.
  cbn [replicate]. rewrite Len, take_0. cbn [app].
  rewrite insert_at_length.
  eexists. split; reflexivity.
Qed.

Lemma QueryList_read_error_partway_witness :
  exists w',
    QueryList [SENSOR_WALL; SENSOR_DISTANCE; SENSOR_OI_MODE]
              (port [ok [35]; ([10], Some (PortError 2)); ok [7]])
    = (Returns ([[35]; [10; 0]; []],
                Some (FailedReadingSensors SENSOR_DISTANCE (PortError 2))), w') /\
    rx w' = [ok [7]].
Proof.
  apply (QueryList_read_error_partway [SENSOR_WALL] [SENSOR_OI_MODE]
           SENSOR_DISTANCE 2 [[35]] [10] (PortError 2) [ok [7]]
           (port [ok [35]; ([10], Some (PortError 2)); ok [7]])).
  - repeat constructor; vm_compute; reflexivity.
  - vm_compute. reflexivity.
  - repeat constructor. vm_compute. discriminate.
  - apply served_whole, served_nil.
  - cbn. lia.
Defined.

(** The second loop of [QueryList] writes only the slots of its ids, each
    with a buffer of the length of the table. *)
Lemma QueryList_read_shape (ids : list Z) :
  forall (i : nat) (result : list (list Z)) (w : world)
         (bufs : list (list Z)) (err : option error),
    (QueryList_read ids i result w).1 = Returns (bufs, err) ->
    length bufs = length result /\
    forall k,
      bufs !! k = result !! k \/
      ((i <= k)%nat /\
       exists id buf, ids !! (k - i)%nat = Some id /\ bufs !! k = Some buf /\
                      Z.of_nat (length buf) = packet_length_or_zero id).
Proof.
  induction ids as [|id ids IH]; intros i result w bufs err; cbn [QueryList_read].
  - cbn. intros H. inversion H; subst. split; [reflexivity|]. intros k. left. reflexivity.
  - pose proof (packet_length_or_zero_bound id) as B.
    pose proof (read_loop_length (read_fuel w) id
                  (make_bytes (Z.to_nat (packet_length_or_zero id))) O
                  (packet_length_or_zero id) w) as RL.
    rewrite make_bytes_length in RL.
    destruct (read_loop (read_fuel w) id
                (make_bytes (Z.to_nat (packet_length_or_zero id))) 0
                (packet_length_or_zero id) w) as [[[buf [e|]]| | |] w1];
      cbn [fst]; try discriminate.
    + intros H. inversion H; subst.
      specialize (RL buf (Some e)). rewrite length_insert. split; [reflexivity|].
      intros k. destruct (decide (k = i)) as [->|N].
      * destruct (decide (i < length result)%nat) as [L|L].
        -- right. split; [lia|]. exists id, buf.
           rewrite Nat.sub_diag, list_lookup_insert_eq by lia.
           split_and!; try reflexivity. rewrite RL; try lia. reflexivity.
        -- left. rewrite list_insert_ge by lia. reflexivity.
      * left. apply list_lookup_insert_ne. congruence.
    + intros H. apply IH in H as [HL HK]. rewrite length_insert in HL.
      specialize (RL buf None). split; [exact HL|].
      intros k. destruct (HK k) as [E|(Li & id' & buf' & E1 & E2 & E3)].
      * destruct (decide (k = i)) as [->|N].
        -- destruct (decide (i < length result)%nat) as [L|L].
           ++ right. split; [lia|]. exists id, buf.
              rewrite Nat.sub_diag, E, list_lookup_insert_eq by lia.
              split_and!; try reflexivity. rewrite RL; try lia. reflexivity.
           ++ left. rewrite E, list_insert_ge by lia. reflexivity.
        -- left. rewrite E. apply list_lookup_insert_ne. congruence.
      * right. split; [lia|]. exists id', buf'.
        replace (k - i)%nat with (S (k - S i)) by lia. auto.
Qed.

(** X11.  Whatever the port does, when [QueryList] returns for a list of
    registered ids, with or without an error, the list it returns has one
    entry per requested id, and the entry of an id is either empty (the id
    was not reached) or a buffer of the registered length of that id. *)
Theorem QueryList_result_shape (ids : list Z) (w : world)
    (bufs : list (list Z)) (err : option error) :
  Forall (fun id => SENSOR_PACKET_LENGTH !! id <> None) ids ->
  (QueryList ids w).1 = Returns (bufs, err) ->
  length bufs = length ids /\
  forall k id len,
    ids !! k = Some id -> SENSOR_PACKET_LENGTH !! id = Some len ->
    exists buf, bufs !! k = Some buf /\ (buf = [] \/ Z.of_nat (length buf) = len).
Proof.
  intros Reg. unfold QueryList. rewrite (QueryList_find_none ids Reg).
  destruct (Write Constants.QueryList (wrap8 (Z.of_nat (length ids)) :: ids) w)
    as [r w1].
  intros H. apply QueryList_read_shape in H as [HL HK].
  rewrite length_replicate in HL. split; [exact HL|].
  intros k id len Hk Hid.
  destruct (HK k) as [E|(_ & id' & buf & E1 & E2 & E3)].
  - exists []. split; [|left; reflexivity].
    rewrite E. apply lookup_replicate. split; [reflexivity|].
    apply lookup_lt_Some in Hk. exact Hk.
  - rewrite Nat.sub_0_r, Hk in E1. inversion E1; subst id'.
    exists buf. split; [exact E2|right].
    rewrite E3. apply packet_length_or_zero_Some, Hid.
Qed.

Lemma QueryList_result_shape_witness :
  length [[35]; [10; 0]; []] = length [SENSOR_WALL; SENSOR_DISTANCE; SENSOR_OI_MODE].
Proof.
  refine (proj1 (QueryList_result_shape
                   [SENSOR_WALL; SENSOR_DISTANCE; SENSOR_OI_MODE]
                   (port [ok [35]; ([10], Some (PortError 2)); ok [7]])
                   [[35]; [10; 0]; []]
                   (Some (FailedReadingSensors SENSOR_DISTANCE (PortError 2))) _ _)).
  - repeat constructor; vm_compute; discriminate.
  - vm_compute. reflexivity.
Defined.

(** ** The stream reader *)

Lemma stream_data_length_total (packetIds : list Z) :
  forall acc dataLength,
    stream_data_length packetIds acc = Some dataLength ->
    Forall (fun id => SENSOR_PACKET_LENGTH !! id <> None) packetIds /\
    dataLength mod 256 = (acc + total_length packetIds) mod 256.
Proof.
  induction packetIds as [|id ids IH]; intros acc dl; cbn [stream_data_length].
  - intros H. inversion H; subst. split; [constructor|]. cbn. f_equal. lia.
  - destruct (SENSOR_PACKET_LENGTH !! id) as [l|] eqn:E; [|discriminate].
    intros H. apply IH in H as [F H]. split; [constructor; [congruence|exact F]|].
    rewrite H.
    change (total_length (id :: ids))
      with (packet_length_or_zero id + total_length ids).
    rewrite (packet_length_or_zero_Some _ _ E). unfold wrap8.
    rewrite Zplus_mod_idemp_l. f_equal. lia.
Qed.

Lemma frame_body_length (entries : list (Z * list Z)) :
  Forall table_length entries ->
  Z.of_nat (length (frame_body entries))
  = total_length (map fst entries) + Z.of_nat (length entries).
Proof.
  induction 1 as [|[id p] es H _ IH]; [reflexivity|].
  unfold table_length in H. cbn [fst snd] in H.
  change (frame_body ((id, p) :: es)) with ((id :: p) ++ frame_body es).
  rewrite length_app.
  change (total_length (map fst ((id, p) :: es)))
    with (packet_length_or_zero id + total_length (map fst es)).
  cbn [length]. lia.
Qed.

Lemma total_length_nonneg (packetIds : list Z) : 0 <= total_length packetIds.
Proof.
  induction packetIds as [|id ids IH]; [cbn; lia|].
  change (total_length (id :: ids))
    with (packet_length_or_zero id + total_length ids).
  pose proof (packet_length_or_zero_bound id). lia.
Qed.

Lemma stream_buf_len_mod (packetIds : list Z) (dataLength : Z) :
  stream_data_length packetIds 0 = Some dataLength ->
  Z.of_nat (stream_buf_len packetIds dataLength)
  = (total_length packetIds + Z.of_nat (length packetIds) + 3) mod 256.
Proof.
  intros H. apply stream_data_length_total in H as [_ H]. cbn [Z.add] in H.
  unfold stream_buf_len, wrap8.
  rewrite Z2Nat.id by (apply Z.mod_pos_bound; lia).
  rewrite Z.add_mod_idemp_l by lia.
  replace (dataLength + Z.of_nat (length packetIds) mod 256 + 3)
    with (dataLength + 3 + Z.of_nat (length packetIds) mod 256) by lia.
  rewrite Z.add_mod_idemp_r by lia.
  replace (dataLength + 3 + Z.of_nat (length packetIds))
    with (dataLength + (3 + Z.of_nat (length packetIds))) by lia.
  rewrite <- Z.add_mod_idemp_l, H, Z.add_mod_idemp_l by lia.
  f_equal. lia.
Qed.

(** X12.  The buffer of a stream session is [dataLength + count + 3] bytes
    computed on a byte: its length is the sum of the registered lengths,
    plus the number of ids, plus 3, taken mod 256.  So when a frame of the
    session (header, length byte, one entry per id with the payload length
    of the table, checksum) is at most 255 bytes long, the buffer is
    exactly one frame long; a longer frame does not fit the buffer. *)
Theorem stream_buffer_is_one_frame (packetIds : list Z) (dataLength : Z) :
  stream_data_length packetIds 0 = Some dataLength ->
  Z.of_nat (stream_buf_len packetIds dataLength)
  = (total_length packetIds + Z.of_nat (length packetIds) + 3) mod 256 /\
  (forall (entries : list (Z * list Z)) (checksum : Z),
      map fst entries = packetIds ->
      Forall table_length entries ->
      ((length (wire_frame entries checksum) <= 255)%nat ->
       stream_buf_len packetIds dataLength = length (wire_frame entries checksum)) /\
      ((255 < length (wire_frame entries checksum))%nat ->
       (stream_buf_len packetIds dataLength < length (wire_frame entries checksum))%nat)).
Proof.
  intros H. pose proof (stream_buf_len_mod packetIds dataLength H) as E.
  split; [exact E|].
  intros entries checksum Hids Hlen.
  pose proof (frame_body_length entries Hlen) as FB.
  rewrite Hids in FB.
  assert (Hk : length entries = length packetIds) by (rewrite <- Hids, length_map; reflexivity).
  rewrite wire_frame_length.
  assert (T : total_length packetIds + Z.of_nat (length packetIds) + 3
              = Z.of_nat (length (frame_body entries) + 3)) by lia.
  rewrite T in E. split; intros L.
  - rewrite Z.mod_small in E by lia. lia.
  - pose proof (Z.mod_pos_bound (Z.of_nat (length (frame_body entries) + 3)) 256).
    lia.
Qed.

Lemma stream_buffer_is_one_frame_witness :
  stream_buf_len [SENSOR_BUMP_WHEELS_DROPS; SENSOR_DISTANCE] 3
  = length (wire_frame [(7, [3]); (19, [10; 20])] 192) /\
  Z.of_nat (stream_buf_len [6; 6; 6; 6; 6] 4) = (260 + 5 + 3) mod 256.
Proof.
  split.
  - refine (proj1 (proj2 (stream_buffer_is_one_frame
                            [SENSOR_BUMP_WHEELS_DROPS; SENSOR_DISTANCE] 3 _)
                         [(7, [3]); (19, [10; 20])] 192 _ _) _).
    + vm_compute. reflexivity.
    + reflexivity.
    + repeat constructor.
    + cbn. lia.
  - refine (proj1 (stream_buffer_is_one_frame [6; 6; 6; 6; 6] 4 _)).
    vm_compute. reflexivity.
Defined.

(** *** What an accepted buffer looks like *)

Lemma read_payload_Some (bytesToRead : nat) (r payload r2 : list Z) :
  read_payload bytesToRead r = Some (payload, r2) ->
  r = payload ++ r2 /\ length payload = bytesToRead.
Proof.
  rewrite read_payload_closed.
  destruct (Nat.eqb_spec bytesToRead 0) as [->|N].
  - intros H. inversion H. auto.
  - destruct (Nat.leb_spec bytesToRead (length r)) as [L|L]; [|discriminate].
    intros H. inversion H; subst. rewrite take_drop, length_take. split; [reflexivity|lia].
Qed.

(** The walk, read backwards: what it has consumed is a sequence of entries
    with the lengths of the table, and it stops on an empty rest or in
    front of a single byte. *)
Lemma frame_entries_sound (slots : nat) :
  forall (r : list Z) (sum : Z) (filled : list (list Z)) r' sum' filled',
    frame_entries slots r sum filled = WalkEnd r' sum' filled' ->
    exists entries,
      r = frame_body entries ++ r' /\
      Forall table_length entries /\
      filled' = filled ++ map snd entries /\
      sum' = add_bytes sum (frame_body entries) /\
      (length entries <= slots)%nat /\
      (r' <> [] -> length r' = 1%nat /\ entries <> []).
Proof.
  assert (Nil : forall (n : nat) (sum : Z) (filled : list (list Z)),
             exists entries : list (Z * list Z),
               [] = frame_body entries ++ [] /\
               Forall table_length entries /\
               filled = filled ++ map snd entries /\
               sum = add_bytes sum (frame_body entries) /\
               (length entries <= n)%nat /\
               (@nil Z <> [] -> length (@nil Z) = 1%nat /\ entries <> [])).
  { intros n sum filled. exists []. cbn [map]. rewrite !app_nil_r.
    split; [reflexivity|]. split; [constructor|]. split; [reflexivity|].
    split; [reflexivity|]. split; [cbn; lia|]. intros C. contradiction. }
  induction slots as [|slots IH]; intros r sum filled r' sum' filled' H;
    destruct r as [|id r1]; cbn [frame_entries] in H; try discriminate.
  - inversion H; subst. apply Nil.
  - inversion H; subst. apply Nil.
  - destruct (read_payload (Z.to_nat (packet_length_or_zero id)) r1)
      as [[payload r2]|] eqn:P; [|discriminate].
    apply read_payload_Some in P as [-> Lp].
    assert (T : table_length (id, payload)).
    { unfold table_length. cbn [fst snd]. rewrite Lp.
      pose proof (packet_length_or_zero_bound id). lia. }
    destruct (Nat.eqb_spec (length r2) 1) as [L1|L1].
    + inversion H; subst. exists [(id, payload)].
      unfold frame_body. cbn [map concat entry_bytes fst snd app].
      rewrite !app_nil_r.
      split; [reflexivity|]. split; [repeat constructor; exact T|].
      split; [reflexivity|]. split; [reflexivity|]. split; [cbn; lia|].
      intros _. split; [exact L1|discriminate].
    + apply IH in H as (entries & E1 & E2 & E3 & E4 & E5 & E6).
      exists ((id, payload) :: entries).
      change (frame_body ((id, payload) :: entries))
        with ((id :: payload) ++ frame_body entries).
      split; [rewrite E1; cbn [app]; rewrite <- !app_assoc; reflexivity|].
      split; [constructor; [exact T|exact E2]|].
      split; [rewrite E3, <- app_assoc; reflexivity|].
      split.
      { rewrite E4. cbn [app].
        change (add_bytes sum (id :: payload ++ frame_body entries))
          with (add_bytes (wrap8 (sum + id)) (payload ++ frame_body entries)).
        rewrite add_bytes_app. reflexivity. }
      split; [cbn [length]; lia|].
      intros N. destruct (E6 N) as [L _]. split; [exact L|discriminate].
Qed.

Lemma process_frame_sound_aux (packetIds buf : list Z) (result : list (list Z)) :
  (length buf <= 255)%nat ->
  process_frame packetIds buf = FrameOk result ->
  exists entries checksum,
    buf = wire_frame entries checksum /\
    entries <> [] /\
    (length entries <= length packetIds)%nat /\
    Forall table_length entries /\
    byte_sum (checked_bytes entries checksum) = 0 /\
    result = map snd entries ++ replicate (length packetIds - length entries) [].
Proof.
  intros Hsz H. unfold process_frame in H.
  destruct buf as [|b [|b1 r2]]; try discriminate.
  { destruct (negb (b =? 19)); discriminate. }
  destruct (Z.eqb_spec b 19) as [->|]; [|discriminate]. cbn [negb] in H.
  destruct (Z.eqb_spec b1 (wrap8 (Z.of_nat (length (19 :: b1 :: r2)) - 3)))
    as [Hb1|]; [|discriminate]. cbn [negb] in H.
  destruct (frame_entries (length packetIds) r2
              (wrap8 (Z.of_nat (length (19 :: b1 :: r2)) - 3)) [])
    as [r' sum' filled'| |] eqn:W; try discriminate.
  destruct r' as [|c r'']; [discriminate|].
  apply frame_entries_sound in W as (entries & E1 & E2 & E3 & E4 & E5 & E6).
  destruct E6 as [L Ne]; [discriminate|].
  destruct r''; [|discriminate L].
  destruct (Z.eqb_spec (wrap8 (sum' + c)) 0) as [Z0|]; [|discriminate].
  cbn [negb] in H. inversion H; subst result. clear H.
  cbn [app] in E3. subst filled'.
  assert (Hlen : Z.of_nat (length (19 :: b1 :: r2)) - 3
                 = Z.of_nat (length (frame_body entries))).
  { rewrite E1. cbn [length]. rewrite length_app. cbn [length]. lia. }
  assert (Hb : b1 = Z.of_nat (length (frame_body entries))).
  { rewrite Hb1, Hlen. apply wrap8_small.
    rewrite E1 in Hsz. cbn [length] in Hsz. rewrite length_app in Hsz. lia. }
  exists entries, c. split_and!; try assumption.
  - unfold wire_frame. rewrite <- Hb, <- E1. reflexivity.
  - unfold checked_bytes, byte_sum.
    transitivity (wrap8 (add_bytes 0 (Z.of_nat (length (frame_body entries))
                                      :: frame_body entries ++ [c])));
      [symmetry; apply (add_bytes_sum 0)|].
    change (add_bytes 0 (Z.of_nat (length (frame_body entries))
                         :: frame_body entries ++ [c]))
      with (add_bytes (wrap8 (Z.of_nat (length (frame_body entries))))
                      (frame_body entries ++ [c])).
    rewrite add_bytes_app.
    rewrite <- Hlen, <- E4.
    change (add_bytes sum' [c]) with (wrap8 (sum' + c)).
    rewrite Z0. reflexivity.
  - rewrite length_map. reflexivity.
Qed.

(** X13.  Nothing but a well-formed frame with a right checksum is
    accepted.  When the frame processing accepts a buffer (of at most 255
    bytes, as every buffer of [ReadStream] is), the buffer is a frame:
    header 19, the length byte, at least one and at most as many entries
    as the session has ids, each with the payload length that the table
    gives the id found in the frame, and a checksum byte that makes the
    bytes from the length byte on sum to 0 mod 256; and the result is the
    payloads of those entries in order, followed by a nil entry for every
    id of the session beyond them. *)
Theorem process_frame_sound (packetIds buf : list Z) (result : list (list Z)) :
  (length buf <= 255)%nat ->
  process_frame packetIds buf = FrameOk result ->
  exists entries checksum,
    buf = wire_frame entries checksum /\
    entries <> [] /\
    (length entries <= length packetIds)%nat /\
    Forall table_length entries /\
    byte_sum (checked_bytes entries checksum) = 0 /\
    result = map snd entries ++ replicate (length packetIds - length entries) [].
Proof.
  intros Hsz H.
  destruct (process_frame_sound_aux packetIds buf result Hsz H)
    as (entries & checksum & P).
  exists entries, checksum. exact P.
Qed.

Lemma process_frame_sound_witness :
  exists entries checksum,
    [19; 5; 7; 3; 19; 10; 20; 192] = wire_frame entries checksum /\
    byte_sum (checked_bytes entries checksum) = 0 /\
    [[3]; [10; 20]] = map snd entries ++ replicate (2 - length entries) [].
Proof.
  destruct (process_frame_sound [SENSOR_BUMP_WHEELS_DROPS; SENSOR_DISTANCE]
              [19; 5; 7; 3; 19; 10; 20; 192] [[3]; [10; 20]])
    as (entries & checksum & B & _ & _ & _ & S & R).
  - cbn. lia.
  - vm_compute. reflexivity.
  - exists entries, checksum. auto.
Defined.

(** *** Every frame a run delivers *)

Lemma read_frame_length (fuel : nat) :
  forall (buf : list Z) (n : nat) (w : world) r buf' w',
    (n <= length buf)%nat ->
    read_frame fuel buf n w = (r, buf', w') ->
    length buf' = length buf.
Proof.
  induction fuel as [|fuel IH]; intros buf n w r buf' w' Hn H; cbn [read_frame] in H.
  - inversion H. reflexivity.
  - destruct (Nat.ltb_spec n (length buf)) as [L|L]; [|inversion H; reflexivity].
    destruct (S_Read (length buf - n) w) as [[[bs err] w1]|] eqn:R;
      [|inversion H; reflexivity].
    apply S_Read_frame in R as (_ & _ & _ & _ & _ & _ & X7 & _).
    assert (C : length (copy_at buf n bs) = length buf)
      by (apply copy_at_length; lia).
    destruct err as [e|].
    + destruct e; inversion H; subst; exact C.
    + apply IH in H; [congruence|lia].
Qed.

(** What a read takes from the port. *)
Lemma S_Read_bytes (k : nat) (w w' : world) (bs : list Z) (err : option error) :
  S_Read k w = Some ((bs, err), w') ->
  rx_bytes (rx w) = bs ++ rx_bytes (rx w') /\
  (error_free (rx w) -> err = None /\ error_free (rx w')).
Proof.
  unfold S_Read. destruct (rx w) as [|[bs0 e0] rest] eqn:E; [discriminate|].
  destruct (Nat.leb_spec (length bs0) k) as [L|L]; intros H;
    inversion H; subst; clear H; cbn [rx log set_rx].
  - split; [reflexivity|]. intros F. inversion F; subst. cbn in *. auto.
  - rewrite !rx_bytes_cons, app_assoc, take_drop. split; [reflexivity|].
    intros F. inversion F; subst. cbn [snd] in *. split; [reflexivity|].
    constructor; assumption.
Qed.

(** The accumulation loop takes a stretch of the bytes of the port, in
    order; a buffer that it fills holds, from the offset on, exactly that
    stretch; and on a port that reports no error it ends neither on a
    retry nor on the end of the stream. *)
Lemma read_frame_consumes (fuel : nat) :
  forall (buf : list Z) (n : nat) (w : world) r buf' w',
    (n <= length buf)%nat ->
    read_frame fuel buf n w = (r, buf', w') ->
    exists g,
      rx_bytes (rx w) = g ++ rx_bytes (rx w') /\
      (r = FrameFull -> buf' = take n buf ++ g) /\
      (error_free (rx w) ->
       error_free (rx w') /\ r <> FrameRetry /\ r <> FrameEOF).
Proof.
  induction fuel as [|fuel IH]; intros buf n w r buf' w' Hn H; cbn [read_frame] in H.
  - inversion H; subst. exists []. split_and!; [reflexivity|discriminate|].
    intros F. split_and!; [exact F|discriminate|discriminate].
  - destruct (Nat.ltb_spec n (length buf)) as [L|L].
    + destruct (S_Read (length buf - n) w) as [[[bs err] w1]|] eqn:R.
      * pose proof (S_Read_bytes _ _ _ _ _ R) as [B E].
        apply S_Read_frame in R as (_ & _ & _ & _ & _ & _ & X7 & _).
        destruct err as [e|].
        -- exists bs. split; [|split].
           ++ destruct e; inversion H; subst; exact B.
           ++ intros ->. destruct e; discriminate H.
           ++ intros F. destruct (E F) as [N _]. discriminate N.
        -- apply IH in H as (g & G1 & G2 & G3);
             [|rewrite copy_at_length by lia; lia].
           exists (bs ++ g). split_and!.
           ++ rewrite B, G1, app_assoc. reflexivity.
           ++ intros Hr. rewrite (G2 Hr). unfold copy_at.
              rewrite app_assoc, take_app_length'
                by (rewrite length_app, length_take; lia).
              rewrite <- app_assoc. reflexivity.
           ++ intros F. apply G3. apply E, F.
      * inversion H; subst. exists []. split_and!; [reflexivity|discriminate|].
        intros F. split_and!; [exact F|discriminate|discriminate].
    + inversion H; subst. exists []. split_and!; [reflexivity| |].
      * intros _. rewrite take_ge by lia. rewrite app_nil_r. reflexivity.
      * intros F. split_and!; [exact F|discriminate|discriminate].
Qed.

(** The bytes a run takes from the port, in order: for each frame it
    delivers, bytes it gave up on a failed read and then the frame itself;
    and after the last delivered frame, what it took besides. *)
Lemma stream_run_frames (packetIds buf : list Z) (w : world) x w' :
  stream_run packetIds buf w x w' ->
  exists (parts : list (list Z * list Z)) (results : list (list (list Z)))
         (tail : list Z),
    rx_bytes (rx w)
    = concat (map (fun p => p.1 ++ p.2) parts) ++ tail ++ rx_bytes (rx w') /\
    out w' = out w ++ results /\
    Forall2 (fun p result => length p.2 = length buf /\
                             process_frame packetIds p.2 = FrameOk result)
            parts results /\
    (error_free (rx w) -> Forall (fun p => p.1 = []) parts).
Proof.
  induction 1 as
    [ buf w w0 P
    | buf w w0 buf1 w1 P R
    | buf w w0 buf1 w1 P R
    | buf w w0 buf1 w1 x w' P R _ IH
    | buf w w0 buf1 w1 m P R F
    | buf w w0 buf1 w1 P R F
    | buf w w0 buf1 w1 result x w' P R F _ IH ];
    apply poll_pause_frame in P as (P1 & P2 & P3 & P4 & P5 & P6).
  - exists [], [], []. rewrite app_nil_r.
    pose proof (Write_frame PauseResumeStream [0] (log EvPaused w0))
      as (W1 & _ & W3 & _).
    cbn [out rx close_out log set_out concat map app] in *.
    split_and!; [congruence|congruence|constructor|constructor].
  - pose proof (read_frame_spec _ _ _ _ _ _ _ R) as (_ & _ & _ & R4 & _).
    apply read_frame_consumes in R as (g & G & _); [|lia].
    exists [], [], g. rewrite app_nil_r. cbn [concat map app].
    split_and!; [congruence|congruence|constructor|constructor].
  - pose proof (read_frame_spec _ _ _ _ _ _ _ R) as (_ & _ & _ & R4 & _).
    apply read_frame_consumes in R as (g & G & _); [|lia].
    exists [], [], g. rewrite app_nil_r. cbn [concat map app].
    split_and!; [congruence|congruence|constructor|constructor].
  - pose proof (read_frame_spec _ _ _ _ _ _ _ R) as (_ & _ & _ & R4 & _).
    pose proof (read_frame_length _ _ _ _ _ _ _ (Nat.le_0_l _) R) as Lb.
    apply read_frame_consumes in R as (g & G & _ & Ge); [|lia].
    destruct IH as (parts & results & tail & I1 & I2 & I3 & I4).
    rewrite Lb in I3.
    destruct I3 as [|[s f] res ps rs [Lf Pf] I3].
    + exists [], [], (g ++ tail). cbn [concat map app] in *.
      split_and!; [|congruence|constructor|constructor].
      rewrite <- P1, G, I1, <- app_assoc. reflexivity.
    + exists ((g ++ s, f) :: ps), (res :: rs), tail.
      cbn [concat map app fst snd] in *. split_and!.
      * rewrite <- P1, G, I1, <- !app_assoc. reflexivity.
      * congruence.
      * constructor; [split; assumption|exact I3].
      * intros E. rewrite <- P1 in E. destruct (Ge E) as (_ & N & _).
        exfalso. apply N. reflexivity.
  - pose proof (read_frame_spec _ _ _ _ _ _ _ R) as (_ & _ & _ & R4 & _).
    apply read_frame_consumes in R as (g & G & _); [|lia].
    exists [], [], g. rewrite app_nil_r. cbn [concat map app].
    split_and!; [congruence|congruence|constructor|constructor].
  - pose proof (read_frame_spec _ _ _ _ _ _ _ R) as (_ & _ & _ & R4 & _).
    apply read_frame_consumes in R as (g & G & _); [|lia].
    exists [], [], g. rewrite app_nil_r. cbn [concat map app].
    split_and!; [congruence|congruence|constructor|constructor].
  - pose proof (read_frame_spec _ _ _ _ _ _ _ R) as (_ & _ & _ & R4 & _).
    pose proof (read_frame_length _ _ _ _ _ _ _ (Nat.le_0_l _) R) as Lb.
    apply read_frame_consumes in R as (g & G & Gf & Ge); [|lia].
    specialize (Gf eq_refl). rewrite take_0 in Gf. cbn [app] in Gf. subst g.
    destruct IH as (parts & results & tail & I1 & I2 & I3 & I4).
    rewrite Lb in I3.
    cbn [out rx send_out log set_out] in *.
    exists (([], buf1) :: parts), (result :: results), tail.
    cbn [concat map app fst snd]. split_and!.
    + rewrite <- P1, G, I1, <- !app_assoc. reflexivity.
    + rewrite I2, R4, P4, <- app_assoc. reflexivity.
    + constructor; [split; [exact Lb|exact F]|exact I3].
    + intros E. rewrite <- P1 in E. destruct (Ge E) as (E1 & _).
      constructor; [reflexivity|apply I4, E1].
Qed.

(** X14.  In every run of [ReadStream], whatever the port delivers and
    however the run ends, the values sent on the channel come, in order,
    from the bytes the run took from the port: these bytes are, for each
    value sent, a stretch that the reader gave up (empty on a port that
    reports no read error) and then a buffer that was a well-formed frame
    with a right checksum, whose payloads, in order, are the value, with
    one slot per id of the session; then what the run took after the last
    frame it delivered. *)
Theorem ReadStream_delivers_checked_frames (packetIds : list Z) (w : world) x w' :
  ReadStream packetIds w = (x, w') ->
  exists (parts : list (list Z * list Z)) (results : list (list (list Z)))
         (tail : list Z),
    rx_bytes (rx w)
    = concat (map (fun p => p.1 ++ p.2) parts) ++ tail ++ rx_bytes (rx w') /\
    out w' = out w ++ results /\
    Forall2 (fun p result => checked_frame packetIds p.2 result) parts results /\
    (error_free (rx w) -> Forall (fun p => p.1 = []) parts).
Proof.
  intros H.
  apply ReadStream_run in H as [(_ & _ & ->)|(dl & _ & Hrun)].
  { exists [], [], []. rewrite app_nil_r.
    split_and!; [reflexivity|reflexivity|constructor|constructor]. }
  apply stream_run_frames in Hrun as (parts & results & tail & B & O & F & E).
  exists parts, results, tail. split_and!; [exact B|exact O| |exact E].
  eapply Forall2_impl; [exact F|]. intros p result [Lb Pb]. cbn beta in *.
  rewrite make_bytes_length in Lb.
  pose proof (stream_buf_len_bound packetIds dl) as Bd.
  pose proof Pb as Pb'.
  apply process_frame_sound_aux in Pb' as (entries & c & Eb & Ne & Le & T & S & ->);
    [|lia].
  split_and!; [exact Pb| |].
  - rewrite length_app, length_map, length_replicate. lia.
  - exists entries, c. auto.
Qed.

Lemma ReadStream_delivers_checked_frames_witness :
  let w := streaming [ok [19; 2]; ([7; 5], Some (PortError 1));
                      ok [19; 2; 7]; ok [6; 241; 19]] [] in
  exists parts results tail,
    rx_bytes (rx w)
    = concat (map (fun p => p.1 ++ p.2) parts) ++ tail
      ++ rx_bytes (rx (ReadStream [SENSOR_BUMP_WHEELS_DROPS] w).2) /\
    results = [[[6]]] /\
    Forall2 (fun p result => checked_frame [SENSOR_BUMP_WHEELS_DROPS] p.2 result)
            parts results.
Proof.
  intros w.
  destruct (ReadStream_delivers_checked_frames [SENSOR_BUMP_WHEELS_DROPS] w
              (ReadStream [SENSOR_BUMP_WHEELS_DROPS] w).1
              (ReadStream [SENSOR_BUMP_WHEELS_DROPS] w).2)
    as (parts & results & tail & B & O & F & _).
  - destruct (ReadStream _ _). reflexivity.
  - exists parts, results, tail. split_and!; [exact B| |exact F].
    vm_compute in O. symmetry. exact O.
Defined.

(** *** A whole session *)

(** One more frame: as [stream_loop_first_frame], with what the iteration
    leaves of the pause polls and of the port. *)
Lemma stream_loop_next_frame (packetIds : list Z) (fuel : nat)
    (buf : list Z) (w : world) (frame more : list Z) (ps : list bool) :
  (rx_weight (rx w) < S fuel)%nat ->
  error_free (rx w) ->
  rx_bytes (rx w) = frame ++ more ->
  length frame = length buf ->
  frame <> [] ->
  StreamPaused w = false :: ps ->
  exists w1,
    out w1 = out w /\ out_closed w1 = out_closed w /\ tx w1 = tx w /\
    wx w1 = wx w /\ rx_bytes (rx w1) = more /\ error_free (rx w1) /\
    (rx_weight (rx w1) < rx_weight (rx w))%nat /\
    StreamPaused w1 = ps /\
    stream_loop (S fuel) packetIds buf w
    = match process_frame packetIds frame with
      | FrameFatal m => (ExitFatal m, w1)
      | FramePanic => (ExitPanic, w1)
      | FrameOk result => stream_loop fuel packetIds frame (send_out result w1)
      end.
Proof.
  intros Hf He Hb Hl Hne Hp. cbn [stream_loop].
  unfold poll_pause. rewrite Hp.
  set (w0 := set_StreamPaused ps w).
  destruct (read_frame_accumulates (read_fuel w0) buf O w0) as (w1 & R & B & F).
  - unfold read_fuel. lia.
  - lia.
  - exact He.
  - change (rx w0) with (rx w). rewrite Hb, length_app. lia.
  - change (rx w0) with (rx w) in R, B.
    rewrite Hb, Nat.sub_0_r, <- Hl in R, B.
    rewrite take_0, take_app_length in R. rewrite drop_app_length in B.
    cbn [app] in R.
    pose proof R as R'.
    apply read_frame_spec in R'
      as (R1 & R2 & R3 & R4 & R5 & reads & _ & _ & Wt & Sh).
    exists w1. split_and!; try assumption.
    + destruct Sh as [[_ [m Hm]]|(_ & _ & L)].
      * destruct reads; [discriminate|]. cbn [length] in Wt.
        change (rx w0) with (rx w) in Wt. lia.
      * exfalso. rewrite <- Hl in L. destruct frame; [congruence|cbn in L; lia].
    + rewrite R. destruct (process_frame packetIds frame); reflexivity.
Qed.

(** Frames, then the pause. *)
Lemma stream_loop_frames_then_pause (packetIds : list Z) (n : nat)
    (frames : list (list Z)) (results : list (list (list Z)))
    (more : list Z) (ps : list bool) :
  Forall2 (fun f res => length f = n /\
                        process_frame packetIds f = FrameOk res) frames results ->
  n <> O ->
  forall (fuel : nat) (buf : list Z) (w : world),
    length buf = n ->
    (rx_weight (rx w) < fuel)%nat ->
    error_free (rx w) ->
    rx_bytes (rx w) = concat frames ++ more ->
    StreamPaused w = replicate (length frames) false ++ true :: ps ->
    wx w = [] ->
    exists w',
      stream_loop fuel packetIds buf w = (ExitPaused, w') /\
      out w' = out w ++ results /\ out_closed w' = true /\
      tx w' = tx w ++ [150; 0] /\ rx_bytes (rx w') = more /\
      StreamPaused w' = ps.
Proof.
  intros F Hn.
  induction F as [|f res fs rs [Lf Pf] _ IH]; intros fuel buf w Hbuf Hf He Hb Hp Hw.
  - destruct fuel as [|fuel]; [lia|]. cbn [stream_loop].
    cbn [length replicate app] in Hp. unfold poll_pause. rewrite Hp.
    pose proof (Write_frame PauseResumeStream [0]
                  (log EvPaused (set_StreamPaused ps w)))
      as (W1 & W2 & W3 & _ & wr & _ & _ & W7 & W8).
    destruct (W8 Hw) as (-> & _ & _).
    destruct (Write PauseResumeStream [0] (log EvPaused (set_StreamPaused ps w)))
      as [r w1].
    cbn [fst snd] in *. eexists. split; [reflexivity|].
    cbn [tx out out_closed rx StreamPaused close_out log set_out set_StreamPaused] in *.
    rewrite W3, W7, W1, W2, app_nil_r. cbn in Hb.
    rewrite Hb. cbn. split_and!; reflexivity.
  - destruct fuel as [|fuel]; [lia|].
    cbn [length replicate app concat] in Hp, Hb. rewrite <- app_assoc in Hb.
    assert (Hne : f <> []) by (intros ->; cbn in Lf; lia).
    assert (Lfb : length f = length buf) by lia.
    destruct (stream_loop_next_frame packetIds fuel buf w f (concat fs ++ more) _
                Hf He Hb Lfb Hne Hp)
      as (w1 & O & C & T & W & B & E & Wt & P & Eq).
    rewrite Eq, Pf.
    destruct (IH fuel f (send_out res w1)) as (w' & Q & O' & C' & T' & B' & P').
    + exact Lf.
    + change (rx (send_out res w1)) with (rx w1). lia.
    + exact E.
    + exact B.
    + exact P.
    + cbn. congruence.
    + exists w'. split_and!; try assumption.
      * rewrite O'. cbn [out send_out log set_out]. rewrite O, <- app_assoc. reflexivity.
      * rewrite T'. cbn [tx send_out log set_out]. congruence.
Qed.

(** [Stream] on a port that delivers frames, then a pause. *)
Lemma Stream_session (packetIds : list Z) (dataLength : Z)
    (frames : list (list Z)) (results : list (list (list Z)))
    (more : list Z) (ps : list bool) (w : world) :
  stream_data_length packetIds 0 = Some dataLength ->
  stream_buf_len packetIds dataLength <> O ->
  Forall2 (fun f res => length f = stream_buf_len packetIds dataLength /\
                        process_frame packetIds f = FrameOk res) frames results ->
  error_free (rx w) ->
  rx_bytes (rx w) = concat frames ++ more ->
  StreamPaused w = replicate (length frames) false ++ true :: ps ->
  wx w = [] ->
  exists w',
    Stream packetIds w = (StreamStarted ExitPaused, w') /\
    tx w' = tx w ++ 148 :: wrap8 (Z.of_nat (length packetIds)) :: packetIds
                 ++ [150; 0] /\
    out w' = results /\ out_closed w' = true /\
    rx_bytes (rx w') = more /\ StreamPaused w' = ps.
Proof.
  intros Hdl Hn F He Hb Hp Hw. unfold Stream.
  pose proof (Write_frame SensorStream
                (wrap8 (Z.of_nat (length packetIds)) :: packetIds) w)
    as (W1 & W2 & _ & _ & wr & _ & _ & T & A).
  destruct (A Hw) as (-> & Wx & N).
  destruct (Write SensorStream (wrap8 (Z.of_nat (length packetIds)) :: packetIds) w)
    as [err w1]. cbn [fst snd] in *. subst err.
  unfold ReadStream. rewrite Hdl.
  destruct (stream_loop_frames_then_pause packetIds
              (stream_buf_len packetIds dataLength) frames results more ps F Hn
              (read_fuel (set_out [] false w1))
              (make_bytes (stream_buf_len packetIds dataLength))
              (set_out [] false w1))
    as (w' & Q & O & C & T' & B & P).
  - apply make_bytes_length.
  - unfold read_fuel. lia.
  - cbn [rx set_out]. rewrite W1. exact He.
  - cbn [rx set_out]. rewrite W1. exact Hb.
  - cbn [StreamPaused set_out]. rewrite W2. exact Hp.
  - exact Wx.
  - rewrite Q. exists w'. split_and!; try assumption; try reflexivity.
    rewrite T'. cbn [tx set_out]. rewrite T.
    cbn [written_bytes concat map flat_map is_write app omap mbind].
    rewrite <- app_assoc. f_equal. cbn.
    rewrite ?app_nil_r. reflexivity.
Qed.

(** X15.  A whole session.  [Stream], for a session whose buffer is not
    empty, on a port that takes the writes and delivers without error, in
    any number of batches, the bytes of a sequence of frames that the
    frame processing accepts, with a pause requested after the last of
    them: the start command (148, the count, the ids) is written; each
    frame is delivered, in order, none dropped and none twice; then the
    pause command 150 0 is written, once, and the channel is closed; the
    bytes that follow the frames stay in the port. *)
Theorem Stream_frames_then_pause (packetIds : list Z) (dataLength : Z)
    (frames : list (list Z)) (results : list (list (list Z)))
    (more : list Z) (ps : list bool) (w : world) :
  stream_data_length packetIds 0 = Some dataLength ->
  stream_buf_len packetIds dataLength <> O ->
  Forall2 (fun f res => length f = stream_buf_len packetIds dataLength /\
                        process_frame packetIds f = FrameOk res) frames results ->
  error_free (rx w) ->
  rx_bytes (rx w) = concat frames ++ more ->
  StreamPaused w = replicate (length frames) false ++ true :: ps ->
  wx w = [] ->
  exists w',
    Stream packetIds w = (StreamStarted ExitPaused, w') /\
    tx w' = tx w ++ 148 :: wrap8 (Z.of_nat (length packetIds)) :: packetIds
                 ++ [150; 0] /\
    out w' = results /\ out_closed w' = true /\
    rx_bytes (rx w') = more /\ StreamPaused w' = ps.
Proof.
  intros Hdl Hn F He Hb Hp Hw.
  destruct (Stream_session packetIds dataLength frames results more ps w
              Hdl Hn F He Hb Hp Hw) as (w' & H).
  exists w'. exact H.
Qed.

Lemma Stream_frames_then_pause_witness :
  exists w',
    Stream [SENSOR_BUMP_WHEELS_DROPS]
           (streaming [ok [19; 2]; ok [7; 5; 242; 19]; ok [2; 7; 6; 241; 19; 2]]
                      [false; false; true])
    = (StreamStarted ExitPaused, w') /\
    tx w' = [148; 1; 7; 150; 0] /\
    out w' = [[[5]]; [[6]]] /\ out_closed w' = true /\
    rx_bytes (rx w') = [19; 2].
Proof.
  destruct (Stream_frames_then_pause [SENSOR_BUMP_WHEELS_DROPS] 1
              [[19; 2; 7; 5; 242]; [19; 2; 7; 6; 241]] [[[5]]; [[6]]] [19; 2] []
              (streaming [ok [19; 2]; ok [7; 5; 242; 19]; ok [2; 7; 6; 241; 19; 2]]
                         [false; false; true]))
    as (w' & Q & T & O & C & B & _).
  - vm_compute. reflexivity.
  - vm_compute. discriminate.
  - repeat constructor; vm_compute; reflexivity.
  - repeat constructor.
  - reflexivity.
  - reflexivity.
  - reflexivity.
  - exists w'. split_and!; assumption.
Defined.

(** ** Opening the port *)

(** X16.  [MakeRoomba] never opens the port: it asks [Open] for 57600
    baud, which [Open] refuses before it calls [serial.OpenPort]; whatever
    the port name and whatever [serial.OpenPort] would answer, the error
    is "invalid baud rate: 57600" and [S] is not assigned. *)
Theorem MakeRoomba_invalid_baud (OpenPort : list Z -> Z -> world + error)
    (portName : list Z) :
  MakeRoomba OpenPort portName = (None, Some (InvalidBaudRate 57600)) /\
  forall baud p,
    Open OpenPort portName baud = (Some p, None) ->
    (baud = 115200 \/ baud = 19200) /\ OpenPort portName baud = inl p.
Proof.
  split; [reflexivity|]. intros baud p0. unfold Open.
  destruct (baud =? 115200) eqn:A; destruct (baud =? 19200) eqn:B; cbn [negb andb];
    try discriminate;
    (destruct (OpenPort portName baud) as [p|e] eqn:E; [|discriminate]);
    intros [= ->]; (split; [lia|reflexivity]).
Qed.

Lemma MakeRoomba_invalid_baud_witness :
  let OpenPort := fun (_ : list Z) (_ : Z) => @inl world error (port []) in
  MakeRoomba OpenPort [116; 116; 121] = (None, Some (InvalidBaudRate 57600)) /\
  (115200 = 115200 \/ 115200 = 19200).
Proof.
  intros OpenPort.
  destruct (MakeRoomba_invalid_baud OpenPort [116; 116; 121]) as [M O].
  split; [exact M|]. exact (proj1 (O 115200 (port []) eq_refl)).
Defined.

(** ** The simulator *)

Lemma mock_values_registered (id : Z) (v : list Z) :
  Sim.MockSensorValues !! id = Some v ->
  SENSOR_PACKET_LENGTH !! id = Some (Z.of_nat (length v)) /\ v <> [].
Proof.
  intros H. apply elem_of_list_to_map_2 in H.
  assert (F : Forall (fun e : Z * list Z =>
                        SENSOR_PACKET_LENGTH !! e.1 = Some (Z.of_nat (length e.2))
                        /\ e.2 <> []) Sim.mock_entries).
  { repeat constructor; vm_compute; congruence. }
  rewrite Forall_forall in F. exact (F _ H).
Qed.

Lemma stream_value_length (id : Z) :
  Z.of_nat (length (Sim.stream_value id)) = packet_length_or_zero id.
Proof.
  unfold Sim.stream_value.
  destruct (Sim.MockSensorValues !! id) as [v|] eqn:E.
  - apply mock_values_registered in E as [E _].
    unfold packet_length_or_zero. rewrite E. reflexivity.
  - rewrite make_bytes_length. pose proof (packet_length_or_zero_bound id). lia.
Qed.

(** The subtractions of the simulator undo the additions of the driver. *)
Lemma checksum_fold (bs : list Z) :
  forall c,
    fold_left (fun c b => wrap8 (c - b)) bs c mod 256
    = (c - fold_right Z.add 0 bs) mod 256.
Proof.
  induction bs as [|b bs IH]; intros c; cbn [fold_left fold_right].
  - f_equal. lia.
  - rewrite IH. unfold wrap8. rewrite Zminus_mod_idemp_l. f_equal. lia.
Qed.

Lemma checksum_closes (bs : list Z) : byte_sum (bs ++ [Sim.checksum bs]) = 0.
Proof.
  unfold byte_sum. rewrite fold_right_app. cbn [fold_right].
  assert (E : forall l a, fold_right Z.add a l = fold_right Z.add 0 l + a).
  { induction l as [|x l IH]; intros a; cbn [fold_right]; [lia|]. rewrite IH. lia. }
  rewrite E, Z.add_0_r, <- Zplus_mod_idemp_r.
  unfold Sim.checksum. rewrite checksum_fold, Zplus_mod_idemp_r.
  replace (fold_right Z.add 0 bs + (0 - fold_right Z.add 0 bs)) with 0 by lia.
  reflexivity.
Qed.

Lemma sensorValues_body (packetIds : list Z) :
  Sim.sensorValues packetIds = frame_body (stream_entries packetIds).
Proof.
  unfold Sim.sensorValues, frame_body, stream_entries.
  induction packetIds as [|id ids IH]; [reflexivity|].
  cbn [flat_map map concat entry_bytes fst snd]. rewrite IH. reflexivity.
Qed.

Lemma stream_entries_table (packetIds : list Z) :
  Forall table_length (stream_entries packetIds) /\
  map fst (stream_entries packetIds) = packetIds /\
  map snd (stream_entries packetIds) = map Sim.stream_value packetIds /\
  length (stream_entries packetIds) = length packetIds.
Proof.
  unfold stream_entries. split_and!.
  - apply Forall_map, Forall_forall. intros id _. apply stream_value_length.
  - rewrite map_map. cbn [fst]. apply map_id.
  - rewrite map_map. reflexivity.
  - apply length_map.
Qed.

(** The frame of the simulator is a wire frame. *)
Lemma stream_output_wire (packetIds : list Z) :
  Z.of_nat (length packetIds) + total_length packetIds + 3 <= 255 ->
  Sim.stream_output packetIds
  = wire_frame (stream_entries packetIds)
      (Sim.checksum (Z.of_nat (length (frame_body (stream_entries packetIds)))
                     :: frame_body (stream_entries packetIds))) /\
  (length (Sim.stream_output packetIds) <= 255)%nat /\
  Z.of_nat (length (Sim.stream_output packetIds))
  = total_length packetIds + Z.of_nat (length packetIds) + 3.
Proof.
  intros Hsz. destruct (stream_entries_table packetIds) as (T & F & _ & L).
  pose proof (frame_body_length _ T) as B. rewrite F, L in B.
  unfold Sim.stream_output. rewrite sensorValues_body.
  rewrite wrap8_small by lia. cbn [tl].
  assert (E : length (wire_frame (stream_entries packetIds)
                (Sim.checksum (Z.of_nat (length (frame_body (stream_entries packetIds)))
                               :: frame_body (stream_entries packetIds))))
              = (length (frame_body (stream_entries packetIds)) + 3)%nat)
    by apply wire_frame_length.
  split_and!; [reflexivity| |]; unfold wire_frame in E; cbn [app] in *; lia.
Qed.

(** The frame of the simulator under the frame processing of the driver. *)
Lemma stream_output_accepted (packetIds : list Z) :
  packetIds <> [] ->
  Z.of_nat (length packetIds) + total_length packetIds + 3 <= 255 ->
  process_frame packetIds (Sim.stream_output packetIds)
  = FrameOk (map Sim.stream_value packetIds) /\
  forall dataLength,
    stream_data_length packetIds 0 = Some dataLength ->
    length (Sim.stream_output packetIds) = stream_buf_len packetIds dataLength.
Proof.
  intros Hne Hsz.
  destruct (stream_output_wire packetIds Hsz) as (W & Lw & Lz).
  destruct (stream_entries_table packetIds) as (T & F & Sn & L).
  split.
  - rewrite W. rewrite process_wire_frame.
    + pose proof (checksum_closes
                    (Z.of_nat (length (frame_body (stream_entries packetIds)))
                     :: frame_body (stream_entries packetIds))) as C.
      cbn [app] in C. unfold checked_bytes. rewrite C.
      cbn [Z.eqb]. rewrite Sn. reflexivity.
    + intros E. apply Hne. rewrite <- F, E. reflexivity.
    + exact L.
    + exact T.
    + rewrite <- W. exact Lw.
  - intros dl H. apply stream_buf_len_mod in H.
    rewrite Z.mod_small in H by lia. lia.
Qed.

(** X17.  The frame the simulator builds for a stream request is one the
    driver accepts: for a list of ids, not empty, whose frame is at most
    255 bytes long, [ReadStream]'s frame processing finds the header, the
    length byte and a checksum that closes the sum, and delivers, for each
    id in order, the value the simulator streams for it (its mock value,
    or zero bytes of the registered length).  When the ids are registered,
    the frame is as long as the buffer of the session. *)
Theorem simulator_frame_accepted (packetIds : list Z) :
  packetIds <> [] ->
  Z.of_nat (length packetIds) + total_length packetIds + 3 <= 255 ->
  process_frame packetIds (Sim.stream_output packetIds)
  = FrameOk (map Sim.stream_value packetIds) /\
  forall dataLength,
    stream_data_length packetIds 0 = Some dataLength ->
    length (Sim.stream_output packetIds) = stream_buf_len packetIds dataLength.
Proof.
  intros Hne Hsz.
  destruct (stream_output_accepted packetIds Hne Hsz) as [P L].
  split; [exact P|exact L].
Qed.

Lemma simulator_frame_accepted_witness :
  process_frame [SENSOR_DISTANCE; SENSOR_CLIFF_LEFT; SENSOR_CURRENT]
    [19; 8; 19; 10; 20; 9; 0; 23; 253; 21; 149]
  = FrameOk [[10; 20]; [0]; [253; 21]].
Proof.
  refine (proj1 (simulator_frame_accepted
                   [SENSOR_DISTANCE; SENSOR_CLIFF_LEFT; SENSOR_CURRENT] _ _)).
  - discriminate.
  - vm_compute. discriminate.
Defined.

(** *** Reads of the simulator *)

Lemma bind_returns {A B : Type} (m : Sim.M A) (k : A -> Sim.M B)
    (s s' : Sim.RoombaSimulator) (a : A) :
  m s = (Returns a, s') -> Sim.bind m k s = k a s'.
Proof. intros H. unfold Sim.bind. rewrite H. reflexivity. Qed.

(** A step that returns by computation. *)
Ltac sim_ret :=
  lazymatch goal with
  | |- context [Sim.bind ?m ?k ?s] => rewrite (bind_returns m k s _ _ eq_refl)
  end.

(** A read of [n] bytes from a write that has them. *)
Lemma read_chunk (n : nat) (p bs : list Z) (rest : list (list Z * option error))
    (s : Sim.RoombaSimulator) :
  Sim.rw_in s = ok (p ++ bs) :: rest ->
  length p = n -> n <> O ->
  Sim.read n s
  = (Returns p,
     Sim.mkSim (remaining bs rest) (Sim.writeQ s) (Sim.ReadBytes s ++ p)
               (Sim.RequestedVelocity s) (Sim.RequestedRadius s)).
Proof.
  intros H L N. unfold Sim.read, S_Read, port. cbn [rx]. rewrite H. unfold ok.
  destruct (length (p ++ bs) <=? n)%nat eqn:E.
  - apply Nat.leb_le in E. rewrite length_app in E.
    assert (bs = []) as -> by (destruct bs; [reflexivity|cbn in E; lia]).
    rewrite app_nil_r. cbn [rx log set_rx].
    rewrite L, Nat.eqb_refl. reflexivity.
  - apply Nat.leb_gt in E. rewrite length_app in E.
    assert (Hb : bs <> []) by (intros ->; cbn in E; lia).
    rewrite <- L, take_app_length, drop_app_length, Nat.eqb_refl.
    cbn [rx log set_rx negb]. destruct bs; [congruence|]. reflexivity.
Qed.

(** A short read: the bytes are taken and the empty slice comes back. *)
Lemma read_short (n : nat) (p : list Z) (rest : list (list Z * option error))
    (s : Sim.RoombaSimulator) :
  Sim.rw_in s = ok p :: rest ->
  (length p < n)%nat ->
  Sim.read n s
  = (Returns [],
     Sim.mkSim rest (Sim.writeQ s) (Sim.ReadBytes s)
               (Sim.RequestedVelocity s) (Sim.RequestedRadius s)).
Proof.
  intros H L. unfold Sim.read, S_Read, port. cbn [rx]. rewrite H. unfold ok.
  destruct (length p <=? n)%nat eqn:E; [|apply Nat.leb_gt in E; lia].
  destruct (n =? length p)%nat eqn:E'; [apply Nat.eqb_eq in E'; lia|].
  reflexivity.
Qed.

Lemma write_room (b : list Z) (s : Sim.RoombaSimulator) :
  (length (Sim.writeQ s) < Sim.writeQ_capacity)%nat ->
  Sim.write b s
  = (Returns tt,
     Sim.mkSim (Sim.rw_in s) (Sim.writeQ s ++ [b]) (Sim.ReadBytes s)
               (Sim.RequestedVelocity s) (Sim.RequestedRadius s)).
Proof.
  intros H. unfold Sim.write.
  destruct (length (Sim.writeQ s) <? Sim.writeQ_capacity)%nat eqn:E;
    [reflexivity|apply Nat.ltb_ge in E; lia].
Qed.

(** The loop of the case [QueryList] on the ids of a request. *)
Lemma query_loop_ids (ids bs : list Z) (rest : list (list Z * option error)) :
  forall s : Sim.RoombaSimulator,
    Sim.rw_in s = remaining (ids ++ bs) rest ->
    (length (Sim.writeQ s) + length ids <= Sim.writeQ_capacity)%nat ->
    Sim.query_loop (length ids) s
    = (Returns tt,
       Sim.mkSim (remaining bs rest)
                 (Sim.writeQ s ++ map (fun id => Sim.requested_value id s) ids)
                 (Sim.ReadBytes s ++ ids)
                 (Sim.RequestedVelocity s) (Sim.RequestedRadius s)).
Proof.
  induction ids as [|id ids IH]; intros s H C.
  - cbn [length Sim.query_loop map]. unfold Sim.ret. rewrite !app_nil_r.
    cbn [app] in H. rewrite <- H. destruct s; reflexivity.
  - cbn [length Sim.query_loop]. cbn [app remaining] in H.
    rewrite (bind_returns _ _ _ _ _
               (read_chunk 1 [id] (ids ++ bs) rest s H eq_refl (Nat.neq_succ_0 0))).
    do 2 sim_ret.
    cbn [length] in C.
    erewrite bind_returns; [|apply write_room; cbn [Sim.writeQ]; lia].
    rewrite IH; cbn [Sim.rw_in Sim.writeQ Sim.ReadBytes Sim.RequestedVelocity
                       Sim.RequestedRadius]; [|reflexivity|rewrite length_app; cbn; lia].
    cbn [map]. rewrite <- !app_assoc. reflexivity.
Qed.

(** The first loop of the case [SensorStream] on the ids of a request. *)
Lemma read_ids_ids (ids bs : list Z) (rest : list (list Z * option error)) :
  forall s : Sim.RoombaSimulator,
    Sim.rw_in s = remaining (ids ++ bs) rest ->
    Sim.read_ids (length ids) s
    = (Returns ids,
       Sim.mkSim (remaining bs rest) (Sim.writeQ s) (Sim.ReadBytes s ++ ids)
                 (Sim.RequestedVelocity s) (Sim.RequestedRadius s)).
Proof.
  induction ids as [|id ids IH]; intros s H.
  - cbn [length Sim.read_ids]. unfold Sim.ret. rewrite app_nil_r.
    cbn [app] in H. rewrite <- H. destruct s; reflexivity.
  - cbn [length Sim.read_ids]. cbn [app remaining] in H.
    rewrite (bind_returns _ _ _ _ _
               (read_chunk 1 [id] (ids ++ bs) rest s H eq_refl (Nat.neq_succ_0 0))).
    sim_ret.
    erewrite bind_returns; [|apply IH; reflexivity].
    unfold Sim.ret. cbn [Sim.rw_in Sim.writeQ Sim.ReadBytes Sim.RequestedVelocity
                           Sim.RequestedRadius].
    rewrite <- app_assoc. reflexivity.
Qed.

(** *** One command *)

Ltac sim_opcode :=
  cbv beta iota delta
    [Z.eqb Pos.eqb Constants.Sensors Constants.QueryList Constants.SensorStream
     Constants.Start Constants.Safe Constants.PauseResumeStream
     Constants.DriveDirect Constants.Drive].

Ltac sim_fields :=
  cbn [Sim.rw_in Sim.writeQ Sim.ReadBytes Sim.RequestedVelocity
       Sim.RequestedRadius].

Lemma executeCMD_opcode (opcode : Z) (rest : list (list Z * option error))
    (k : list Z -> Sim.M (option Sim.exec_error)) (s : Sim.RoombaSimulator) :
  Sim.rw_in s = ok [opcode] :: rest ->
  Sim.bind (Sim.read 1) k s
  = k [opcode] (Sim.mkSim rest (Sim.writeQ s) (Sim.ReadBytes s ++ [opcode])
                          (Sim.RequestedVelocity s) (Sim.RequestedRadius s)).
Proof.
  intros H. apply bind_returns.
  exact (read_chunk 1 [opcode] [] rest s H eq_refl (Nat.neq_succ_0 0)).
Qed.

Lemma executeCMD_blocks (s : Sim.RoombaSimulator) :
  Sim.rw_in s = [] -> Sim.executeCMD s = (Blocks, s).
Proof.
  intros H. unfold Sim.executeCMD, Sim.bind, Sim.read, S_Read, port. cbn [rx].
  rewrite H. reflexivity.
Qed.

Lemma bind_then_None {A : Type} (m : Sim.M A) (s s' : Sim.RoombaSimulator) (a : A) :
  m s = (Returns a, s') ->
  Sim.bind m (fun _ => Sim.ret (@None Sim.exec_error)) s = (Returns None, s').
Proof. intros H. unfold Sim.bind. rewrite H. reflexivity. Qed.

Ltac sim_done :=
  unfold Sim.requested_value, Sim.modify, Sim.set_RequestedRadius,
    Sim.set_RequestedVelocity, Sim.ret;
  sim_fields; cbn [remaining]; rewrite <- ?app_assoc; reflexivity.

Lemma executeCMD_Sensors (id : Z) (rest : list (list Z * option error))
    (s : Sim.RoombaSimulator) :
  Sim.rw_in s = ok [142] :: ok [id] :: rest ->
  (length (Sim.writeQ s) < Sim.writeQ_capacity)%nat ->
  Sim.executeCMD s
  = (Returns None,
     Sim.mkSim rest (Sim.writeQ s ++ [Sim.requested_value id s])
               (Sim.ReadBytes s ++ [142; id])
               (Sim.RequestedVelocity s) (Sim.RequestedRadius s)).
Proof.
  intros H C. unfold Sim.executeCMD. rewrite (executeCMD_opcode 142 _ _ s H).
  sim_opcode. apply bind_then_None with (a := tt).
  erewrite bind_returns;
    [|apply (read_chunk 1 [id] [] rest); [reflexivity|reflexivity|discriminate]].
  do 2 sim_ret. rewrite write_room by (sim_fields; exact C).
  sim_done.
Qed.

Lemma executeCMD_QueryList (ids : list Z) (rest : list (list Z * option error))
    (s : Sim.RoombaSimulator) :
  Sim.rw_in s = ok [149] :: ok (wrap8 (Z.of_nat (length ids)) :: ids) :: rest ->
  (length (Sim.writeQ s) + length ids <= Sim.writeQ_capacity)%nat ->
  Sim.executeCMD s
  = (Returns None,
     Sim.mkSim rest
               (Sim.writeQ s ++ map (fun id => Sim.requested_value id s) ids)
               (Sim.ReadBytes s ++ 149 :: wrap8 (Z.of_nat (length ids)) :: ids)
               (Sim.RequestedVelocity s) (Sim.RequestedRadius s)).
Proof.
  intros H C. unfold Sim.executeCMD. rewrite (executeCMD_opcode 149 _ _ s H).
  sim_opcode. apply bind_then_None with (a := tt).
  erewrite bind_returns;
    [|apply (read_chunk 1 [wrap8 (Z.of_nat (length ids))] ids rest);
      [reflexivity|reflexivity|discriminate]].
  sim_ret.
  assert (W : wrap8 (Z.of_nat (length ids)) = Z.of_nat (length ids)).
  { apply wrap8_small. unfold Sim.writeQ_capacity in C. lia. }
  rewrite W at 1. rewrite Nat2Z.id.
  pose proof (query_loop_ids ids [] rest) as Q. rewrite app_nil_r in Q.
  rewrite Q; sim_fields; [|reflexivity|exact C].
  sim_done.
Qed.

Lemma executeCMD_SensorStream (ids : list Z) (rest : list (list Z * option error))
    (s : Sim.RoombaSimulator) :
  Sim.rw_in s = ok [148] :: ok (wrap8 (Z.of_nat (length ids)) :: ids) :: rest ->
  (length ids <= 255)%nat ->
  (length (Sim.writeQ s) < Sim.writeQ_capacity)%nat ->
  Sim.executeCMD s
  = (Returns None,
     Sim.mkSim rest (Sim.writeQ s ++ [Sim.stream_output ids])
               (Sim.ReadBytes s ++ 148 :: wrap8 (Z.of_nat (length ids)) :: ids)
               (Sim.RequestedVelocity s) (Sim.RequestedRadius s)).
Proof.
  intros H L C. unfold Sim.executeCMD. rewrite (executeCMD_opcode 148 _ _ s H).
  sim_opcode. apply bind_then_None with (a := tt).
  erewrite bind_returns;
    [|apply (read_chunk 1 [wrap8 (Z.of_nat (length ids))] ids rest);
      [reflexivity|reflexivity|discriminate]].
  sim_ret.
  assert (W : wrap8 (Z.of_nat (length ids)) = Z.of_nat (length ids)).
  { apply wrap8_small. lia. }
  rewrite W at 1. rewrite Nat2Z.id.
  pose proof (read_ids_ids ids [] rest) as Q. rewrite app_nil_r in Q.
  erewrite bind_returns; [|apply Q; reflexivity].
  rewrite write_room by (sim_fields; exact C).
  sim_done.
Qed.

Lemma executeCMD_Drive (pv pr : list Z) (rest : list (list Z * option error))
    (s : Sim.RoombaSimulator) :
  Sim.rw_in s = ok [137] :: ok (pv ++ pr) :: rest ->
  length pv = 2%nat -> length pr = 2%nat ->
  Sim.executeCMD s
  = (Returns None,
     Sim.mkSim rest (Sim.writeQ s) (Sim.ReadBytes s ++ 137 :: pv ++ pr) pv pr).
Proof.
  intros H Lv Lr. unfold Sim.executeCMD. rewrite (executeCMD_opcode 137 _ _ s H).
  sim_opcode. apply bind_then_None with (a := tt).
  erewrite bind_returns;
    [|apply (read_chunk 2 pv pr rest); [reflexivity|exact Lv|discriminate]].
  sim_ret.
  assert (Hr : pr <> []) by (intros ->; discriminate).
  erewrite bind_returns;
    [|apply (read_chunk 2 pr [] rest);
      [sim_fields; rewrite app_nil_r; destruct pr; [congruence|reflexivity]
      |exact Lr|discriminate]].
  sim_done.
Qed.

Lemma serve_step (fuel : nat) (s s' : Sim.RoombaSimulator)
    (r : option Sim.exec_error) :
  Sim.executeCMD s = (Returns r, s') ->
  Sim.serve (S fuel) s = Sim.serve fuel s'.
Proof. intros H. cbn [Sim.serve]. rewrite H. reflexivity. Qed.

(** *** The writer goroutine *)

Lemma writer_nonempty (q : list (list Z)) :
  Forall (fun v => v <> []) q -> Sim.writer q = q.
Proof.
  induction 1 as [|v q H _ IH]; [reflexivity|].
  cbn [Sim.writer]. destruct v; [congruence|]. cbn. rewrite IH. reflexivity.
Qed.

Lemma writer_stopped (q later : list (list Z)) :
  Sim.writer (q ++ [] :: later) = Sim.writer q.
Proof.
  induction q as [|v q IH]; [reflexivity|].
  cbn [app Sim.writer]. destruct (length v =? 0)%nat; [reflexivity|].
  rewrite IH. reflexivity.
Qed.

Lemma served_ok (ps : list (list Z)) (r : list (list Z * option error)) :
  served ps (map ok ps ++ r) r.
Proof.
  induction ps as [|p ps IH]; [constructor|].
  cbn [map app]. apply served_whole, IH.
Qed.

(** *** The driver against the simulator *)

Lemma Sensors_served (id : Z) (p : list Z) (rest : list (list Z * option error))
    (w : world) :
  SENSOR_PACKET_LENGTH !! id = Some (Z.of_nat (length p)) ->
  rx w = ok p :: rest ->
  wx w = [] ->
  exists w',
    Sensors id w = (Returns (p, None), w') /\
    rx w' = rest /\ tx w' = tx w ++ [142; id] /\ wx w' = [].
Proof.
  intros Hreg Hrx Hw. unfold Sensors. rewrite Hreg.
  pose proof (packet_length_bound _ _ Hreg) as B.
  pose proof (Write_frame Constants.Sensors [id] w)
    as (R & _ & _ & _ & wr & _ & _ & T & A).
  destruct (A Hw) as (-> & Wx & _).
  destruct (Write Constants.Sensors [id] w) as [r w1]. cbn [fst snd] in *.
  destruct (read_loop_served id p [] None rest w1 B) as (w' & L & X & T' & W');
    [rewrite app_nil_r, R; exact Hrx|reflexivity|].
  rewrite Nat2Z.id, L. exists w'. split_and!; [reflexivity|exact X| |congruence].
  rewrite T', T. reflexivity.
Qed.

Lemma Drive_sends (velocity radius : Z) (payload : list Z) (w : world) :
  -500 <= velocity <= 500 -> -2000 <= radius <= 2000 ->
  Pack [VInt16 velocity; VInt16 radius] = Some payload ->
  wx w = [] ->
  exists w',
    Drive velocity radius w = Some (None, w') /\
    rx w' = rx w /\ tx w' = tx w ++ 137 :: payload /\ wx w' = [].
Proof.
  intros Hv Hr P Hw. unfold Drive. rewrite P.
  destruct (Z.leb_spec (-500) velocity), (Z.leb_spec velocity 500); try lia.
  destruct (Z.leb_spec (-2000) radius), (Z.leb_spec radius 2000); try lia.
  cbn [andb negb].
  pose proof (Write_frame Constants.Drive payload w)
    as (R & _ & _ & _ & wr & _ & _ & T & A).
  destruct (A Hw) as (-> & Wx & N).
  destruct (Write Constants.Drive payload w) as [r w']. cbn [fst snd] in *.
  subst r. exists w'. split_and!; try assumption; try reflexivity.
  rewrite T. cbn. rewrite app_nil_r. reflexivity.
Qed.

Lemma mock_requested (ids : list Z) (values : list (list Z))
    (s : Sim.RoombaSimulator) :
  Forall2 (fun id v => Sim.MockSensorValues !! id = Some v) ids values ->
  map (fun id => Sim.requested_value id s) ids = values /\
  Forall (fun v => v <> []) values /\
  Forall2 (fun id p => SENSOR_PACKET_LENGTH !! id = Some (Z.of_nat (length p)))
          ids values.
Proof.
  induction 1 as [|id v ids values H _ (IH1 & IH2 & IH3)];
    [split_and!; constructor|].
  destruct (mock_values_registered id v H) as [Hreg Hne].
  split_and!; [|constructor; assumption|constructor; assumption].
  cbn [map]. unfold Sim.requested_value at 1. rewrite H, IH1. reflexivity.
Qed.

(** X18.  [QueryList] against the simulator, for up to 15 ids that have a
    mock value: the simulator, reading the request the driver writes (149,
    then the count and the ids), reads it to its end and queues one value
    for each id, the mock values in the order of the ids; the driver,
    reading what the writer goroutine writes, returns these values in
    that order and leaves nothing in the port. *)
Theorem QueryList_against_simulator (ids : list Z) (values : list (list Z)) :
  Forall2 (fun id v => Sim.MockSensorValues !! id = Some v) ids values ->
  (length ids <= 15)%nat ->
  exists s' w',
    Sim.executeCMD
      (Sim.MakeRoombaSim [ok [149]; ok (wrap8 (Z.of_nat (length ids)) :: ids)])
    = (Returns None, s') /\
    Sim.rw_in s' = [] /\ Sim.writeQ s' = values /\
    QueryList ids (port (Sim.replies s')) = (Returns (values, None), w') /\
    tx w' = 149 :: wrap8 (Z.of_nat (length ids)) :: ids /\ rx w' = [].
Proof.
  intros F L.
  set (s0 := Sim.MakeRoombaSim [ok [149]; ok (wrap8 (Z.of_nat (length ids)) :: ids)]).
  destruct (mock_requested ids values s0 F) as (V & Ne & Reg).
  pose proof (executeCMD_QueryList ids [] s0 eq_refl) as E.
  rewrite V in E. cbn [Sim.writeQ s0 Sim.MakeRoombaSim app length Nat.add] in E.
  specialize (E L).
  eexists.
  destruct (QueryList_served ids values (port (map ok values)) [] Reg) as (w' & Q & R & T).
  { cbn [rx port]. rewrite <- (app_nil_r (map ok values)) at 1. apply served_ok. }
  { reflexivity. }
  exists w'. split_and!; [exact E|reflexivity|reflexivity| |exact T|exact R].
  unfold Sim.replies. cbn [Sim.writeQ]. rewrite writer_nonempty by exact Ne. exact Q.
Qed.

Lemma QueryList_against_simulator_witness :
  exists s' w',
    Sim.executeCMD (Sim.MakeRoombaSim [ok [149]; ok [3; 19; 23; 7]])
    = (Returns None, s') /\
    Sim.writeQ s' = [[10; 20]; [253; 21]; [3]] /\
    QueryList [SENSOR_DISTANCE; SENSOR_CURRENT; SENSOR_BUMP_WHEELS_DROPS]
              (port (Sim.replies s'))
    = (Returns ([[10; 20]; [253; 21]; [3]], None), w').
Proof.
  destruct (QueryList_against_simulator
              [SENSOR_DISTANCE; SENSOR_CURRENT; SENSOR_BUMP_WHEELS_DROPS]
              [[10; 20]; [253; 21]; [3]])
    as (s' & w' & E & _ & Q & D & _).
  - repeat constructor.
  - cbn. lia.
  - exists s', w'. split_and!; assumption.
Defined.

(** X19.  [Stream] against the simulator, for registered ids, at least
    one, whose frame is at most 255 bytes long: the simulator, reading the
    request the driver writes (148, then the count and the ids), reads it
    to its end and queues one frame, and only one; the reader of the
    driver takes the frame for a whole frame of the session and delivers,
    for each id in order, the value the simulator streams for it; paused
    after that frame it writes 150 0 and closes the channel. *)
Theorem Stream_against_simulator (ids : list Z) (dataLength : Z) (ps : list bool) :
  ids <> [] ->
  stream_data_length ids 0 = Some dataLength ->
  Z.of_nat (length ids) + total_length ids + 3 <= 255 ->
  exists s' w',
    Sim.executeCMD
      (Sim.MakeRoombaSim [ok [148]; ok (wrap8 (Z.of_nat (length ids)) :: ids)])
    = (Returns None, s') /\
    Sim.rw_in s' = [] /\ Sim.writeQ s' = [Sim.stream_output ids] /\
    Stream ids (streaming (Sim.replies s') (false :: true :: ps))
    = (StreamStarted ExitPaused, w') /\
    out w' = [map Sim.stream_value ids] /\ out_closed w' = true /\
    tx w' = 148 :: wrap8 (Z.of_nat (length ids)) :: ids ++ [150; 0] /\
    rx_bytes (rx w') = [].
Proof.
  intros Hne Hdl Hsz.
  set (s0 := Sim.MakeRoombaSim [ok [148]; ok (wrap8 (Z.of_nat (length ids)) :: ids)]).
  pose proof (total_length_nonneg ids) as TN.
  assert (E : Sim.executeCMD s0
              = (Returns None,
                 Sim.mkSim [] [Sim.stream_output ids]
                   (148 :: wrap8 (Z.of_nat (length ids)) :: ids) [0; 0] [0; 0])).
  { apply (executeCMD_SensorStream ids [] s0 eq_refl); [lia|].
    cbn. unfold Sim.writeQ_capacity. lia. }
  destruct (stream_output_accepted ids Hne Hsz) as [P Len].
  specialize (Len dataLength Hdl).
  destruct (stream_output_wire ids Hsz) as (_ & _ & Lz).
  assert (Hf : Sim.stream_output ids <> []).
  { intros N. rewrite N in Lz. cbn [length] in Lz. lia. }
  eexists.
  destruct (Stream_session ids dataLength [Sim.stream_output ids]
              [map Sim.stream_value ids] [] ps
              (streaming [ok (Sim.stream_output ids)] (false :: true :: ps)) Hdl)
    as (w' & Q & T & O & C & B & _).
  - rewrite <- Len. intros N. apply Hf. destruct (Sim.stream_output ids);
      [reflexivity|discriminate].
  - constructor; [|constructor]. split; [exact Len|exact P].
  - repeat constructor.
  - cbn. rewrite !app_nil_r. reflexivity.
  - reflexivity.
  - reflexivity.
  - exists w'. split_and!; [exact E|reflexivity|reflexivity| |exact O|exact C|exact T|exact B].
    unfold Sim.replies. cbn [Sim.writeQ]. rewrite writer_nonempty; [exact Q|].
    constructor; [exact Hf|constructor].
Qed.

Lemma Stream_against_simulator_witness :
  exists s' w',
    Sim.executeCMD (Sim.MakeRoombaSim [ok [148]; ok [2; 19; 9]])
    = (Returns None, s') /\
    Stream [SENSOR_DISTANCE; SENSOR_CLIFF_LEFT]
           (streaming (Sim.replies s') [false; true])
    = (StreamStarted ExitPaused, w') /\
    out w' = [[[10; 20]; [0]]] /\ out_closed w' = true.
Proof.
  destruct (Stream_against_simulator [SENSOR_DISTANCE; SENSOR_CLIFF_LEFT] 3 [])
    as (s' & w' & E & _ & _ & Q & O & C & _).
  - discriminate.
  - reflexivity.
  - vm_compute. discriminate.
  - exists s', w'. split_and!; assumption.
Defined.

Lemma requested_velocity (s : Sim.RoombaSimulator) :
  Sim.requested_value SENSOR_REQUESTED_VELOCITY s = Sim.RequestedVelocity s /\
  Sim.requested_value SENSOR_REQUESTED_RADIUS s = Sim.RequestedRadius s.
Proof.
  unfold Sim.requested_value.
  replace (Sim.MockSensorValues !! SENSOR_REQUESTED_VELOCITY)
    with (@None (list Z)) by (vm_compute; reflexivity).
  replace (Sim.MockSensorValues !! SENSOR_REQUESTED_RADIUS)
    with (@None (list Z)) by (vm_compute; reflexivity).
  split; reflexivity.
Qed.

(** X20.  [Drive], then [Sensors] for the packets 39 and 40, against the
    simulator: for a velocity and a radius in range, the simulator reads
    the four bytes of the [Drive] command as two values of two bytes,
    answers the two requests with them, and waits for the next command;
    the driver gets the two values back, and decoded as in [DriveDirect]
    they are the velocity and the radius that were sent. *)
Theorem Drive_then_Sensors_against_simulator (velocity radius : Z) :
  -500 <= velocity <= 500 -> -2000 <= radius <= 2000 ->
  exists payload pv pr s' w1 w2 w3,
    let s0 := Sim.MakeRoombaSim
                [ok [137]; ok payload; ok [142]; ok [39]; ok [142]; ok [40]] in
    Pack [VInt16 velocity; VInt16 radius] = Some payload /\
    Sim.serve (Sim.serve_fuel s0) s0 = (Blocks, s') /\
    Sim.rw_in s' = [] /\ Sim.writeQ s' = [pv; pr] /\
    binary_Read_int16 pv = Some velocity /\
    binary_Read_int16 pr = Some radius /\
    Drive velocity radius (port (Sim.replies s')) = Some (None, w1) /\
    Sensors SENSOR_REQUESTED_VELOCITY w1 = (Returns (pv, None), w2) /\
    Sensors SENSOR_REQUESTED_RADIUS w2 = (Returns (pr, None), w3) /\
    tx w3 = 137 :: payload ++ [142; 39; 142; 40] /\ rx w3 = [].
Proof.
  intros Hv Hr.
  destruct (Pack_int16_round_trip_aux velocity) as [_ Dv]; [lia|].
  destruct (Pack_int16_round_trip_aux radius) as [_ Dr]; [lia|].
  set (pv := PutUint16 (wrap16 velocity)) in *.
  set (pr := PutUint16 (wrap16 radius)) in *.
  exists (pv ++ pr), pv, pr.
  set (s0 := Sim.MakeRoombaSim
               [ok [137]; ok (pv ++ pr); ok [142]; ok [39]; ok [142]; ok [40]]).
  set (s1 := Sim.mkSim [ok [142]; ok [39]; ok [142]; ok [40]] []
                       (137 :: pv ++ pr) pv pr).
  set (s2 := Sim.mkSim [ok [142]; ok [40]] [pv]
                       ((137 :: pv ++ pr) ++ [142; 39]) pv pr).
  set (s3 := Sim.mkSim [] [pv; pr]
                       (((137 :: pv ++ pr) ++ [142; 39]) ++ [142; 40]) pv pr).
  assert (E1 : Sim.executeCMD s0 = (Returns None, s1))
    by (apply (executeCMD_Drive pv pr _ s0); reflexivity).
  assert (E2 : Sim.executeCMD s1 = (Returns None, s2)).
  { rewrite (executeCMD_Sensors 39 [ok [142]; ok [40]] s1 eq_refl)
      by (cbn; unfold Sim.writeQ_capacity; lia).
    pose proof (proj1 (requested_velocity s1)) as V.
    change SENSOR_REQUESTED_VELOCITY with 39 in V. rewrite V. reflexivity. }
  assert (E3 : Sim.executeCMD s2 = (Returns None, s3)).
  { rewrite (executeCMD_Sensors 40 [] s2 eq_refl)
      by (cbn; unfold Sim.writeQ_capacity; lia).
    pose proof (proj2 (requested_velocity s2)) as V.
    change SENSOR_REQUESTED_RADIUS with 40 in V. rewrite V. reflexivity. }
  assert (F : Sim.serve_fuel s0 = 16%nat) by reflexivity.
  destruct (Drive_sends velocity radius (pv ++ pr) (port [ok pv; ok pr]))
    as (w1 & D & R1 & T1 & W1); [lia|lia|reflexivity|reflexivity|].
  destruct (Sensors_served SENSOR_REQUESTED_VELOCITY pv [ok pr] w1)
    as (w2 & S2 & R2 & T2 & W2); [reflexivity|exact R1|exact W1|].
  destruct (Sensors_served SENSOR_REQUESTED_RADIUS pr [] w2)
    as (w3 & S3 & R3 & T3 & W3); [reflexivity|exact R2|exact W2|].
  exists s3, w1, w2, w3. cbv zeta. split_and!;
    [reflexivity| |reflexivity|reflexivity|exact Dv|exact Dr|exact D|exact S2
    |exact S3| |exact R3].
  - rewrite F, (serve_step _ _ _ _ E1), (serve_step _ _ _ _ E2),
      (serve_step _ _ _ _ E3).
    cbn [Sim.serve]. rewrite executeCMD_blocks by reflexivity. reflexivity.
  - rewrite T3, T2, T1. cbn [tx port app]. rewrite <- !app_assoc. reflexivity.
Qed.

Lemma Drive_then_Sensors_against_simulator_witness :
  exists payload pv pr s' w1 w2 w3,
    Pack [VInt16 (-200); VInt16 500] = Some payload /\
    Sim.serve 16 (Sim.MakeRoombaSim
                    [ok [137]; ok payload; ok [142]; ok [39]; ok [142]; ok [40]])
    = (Blocks, s') /\
    Sim.writeQ s' = [pv; pr] /\
    binary_Read_int16 pv = Some (-200) /\ binary_Read_int16 pr = Some 500 /\
    Drive (-200) 500 (port (Sim.replies s')) = Some (None, w1) /\
    Sensors SENSOR_REQUESTED_VELOCITY w1 = (Returns (pv, None), w2) /\
    Sensors SENSOR_REQUESTED_RADIUS w2 = (Returns (pr, None), w3).
Proof.
  destruct (Drive_then_Sensors_against_simulator (-200) 500)
    as (payload & pv & pr & s' & w1 & w2 & w3 & H); [lia|lia|].
  cbv zeta in H. destruct H as (P & E & _ & Q & Dv & Dr & D & S2 & S3 & _).
  exists payload, pv, pr, s', w1, w2, w3. split_and!; try assumption.
  injection P as <-. exact E.
Defined.

Lemma Sensors_blocks (id len : Z) (w : world) :
  SENSOR_PACKET_LENGTH !! id = Some len ->
  rx w = [] ->
  (Sensors id w).1 = Blocks.
Proof.
  intros Hreg Hrx. unfold Sensors. rewrite Hreg.
  pose proof (packet_length_bound _ _ Hreg) as B.
  pose proof (Write_frame Constants.Sensors [id] w) as (R & _).
  destruct (Write Constants.Sensors [id] w) as [r w1]. cbn [fst snd] in *.
  unfold read_fuel. cbn [read_loop]. change (wrap8 (Z.of_nat 0)) with 0.
  destruct (Z.ltb_spec 0 len) as [_|]; [|lia].
  cbn [Nat.ltb Nat.leb]. unfold Read.
  rewrite (proj2 (S_Read_blocks _ w1)) by congruence. reflexivity.
Qed.

(** X21.  A [Sensors] request for a packet the simulator has no value for
    (no mock value, and not one of the packets 39 and 40) makes it queue
    an empty value.  The writer goroutine ends at an empty value: whatever
    the simulator queues afterwards, nothing more is written to the
    client.  For a registered id and a client that had nothing waiting,
    the driver's [Sensors] then waits for ever for its answer. *)
Theorem unmocked_sensor_stops_the_writer (id : Z)
    (rest : list (list Z * option error)) (s : Sim.RoombaSimulator) :
  Sim.MockSensorValues !! id = None ->
  id <> SENSOR_REQUESTED_VELOCITY -> id <> SENSOR_REQUESTED_RADIUS ->
  Sim.rw_in s = ok [142] :: ok [id] :: rest ->
  (length (Sim.writeQ s) < 15)%nat ->
  exists s',
    Sim.executeCMD s = (Returns None, s') /\
    Sim.rw_in s' = rest /\
    Sim.writeQ s' = Sim.writeQ s ++ [[]] /\
    (forall later,
        Sim.writer (Sim.writeQ s' ++ later) = Sim.writer (Sim.writeQ s)) /\
    (is_Some (SENSOR_PACKET_LENGTH !! id) -> Sim.writeQ s = [] ->
     (Sensors id (port (Sim.replies s'))).1 = Blocks).
Proof.
  intros Hm Hv Hr H C.
  assert (V : Sim.requested_value id s = []).
  { unfold Sim.requested_value. rewrite Hm.
    destruct (Z.eqb_spec id SENSOR_REQUESTED_RADIUS); [contradiction|].
    destruct (Z.eqb_spec id SENSOR_REQUESTED_VELOCITY); [contradiction|].
    reflexivity. }
  pose proof (executeCMD_Sensors id rest s H C) as E. rewrite V in E.
  eexists. split_and!; [exact E|reflexivity|reflexivity| |].
  - intros later. cbn [Sim.writeQ]. rewrite <- app_assoc. apply writer_stopped.
  - intros [len Hreg] Q. unfold Sim.replies. cbn [Sim.writeQ]. rewrite Q.
    apply (Sensors_blocks id len); [exact Hreg|reflexivity].
Qed.

Lemma unmocked_sensor_stops_the_writer_witness :
  exists s',
    Sim.executeCMD (Sim.MakeRoombaSim [ok [142]; ok [SENSOR_CLIFF_LEFT]])
    = (Returns None, s') /\
    Sim.writeQ s' = [[]] /\
    Sim.writer (Sim.writeQ s' ++ [[1]; [2; 3]]) = [] /\
    (Sensors SENSOR_CLIFF_LEFT (port (Sim.replies s'))).1 = Blocks.
Proof.
  destruct (unmocked_sensor_stops_the_writer SENSOR_CLIFF_LEFT []
              (Sim.MakeRoombaSim [ok [142]; ok [SENSOR_CLIFF_LEFT]]))
    as (s' & E & _ & Q & W & B).
  - vm_compute. reflexivity.
  - discriminate.
  - discriminate.
  - reflexivity.
  - cbn. lia.
  - exists s'. split_and!; [exact E|exact Q|apply W|].
    apply B; [|reflexivity].
    exists 1. vm_compute. reflexivity.
Defined.

(** X22.  The commands of one byte against the simulator.  [WriteByte]
    writes the op code and then makes a write of no bytes.  For an op code
    that takes no argument in the simulator, the simulator reads the op
    code, logs it in [ReadBytes], finds nothing in the empty write, which
    it takes for a failed read of an op code, and waits for the next
    command: it queues nothing. *)
Theorem WriteByte_against_simulator (opcode : Z) :
  ~ opcode ∈ [Constants.Sensors; Constants.QueryList; Constants.SensorStream;
              Constants.PauseResumeStream; Constants.DriveDirect;
              Constants.Drive] ->
  exists s' w',
    WriteByte opcode (port []) = (None, w') /\
    writes_of (events w') = [[opcode]; []] /\
    Sim.serve 4 (Sim.MakeRoombaSim [ok [opcode]; ok []]) = (Blocks, s') /\
    Sim.rw_in s' = [] /\ Sim.ReadBytes s' = [opcode] /\ Sim.writeQ s' = [].
Proof.
  intros N.
  set (s0 := Sim.MakeRoombaSim [ok [opcode]; ok []]).
  set (s1 := Sim.mkSim [ok []] [] [opcode] [0; 0] [0; 0]).
  set (s2 := Sim.mkSim [] [] [opcode] [0; 0] [0; 0]).
  assert (E1 : Sim.executeCMD s0 = (Returns None, s1)).
  { unfold Sim.executeCMD. rewrite (executeCMD_opcode opcode [ok []] _ s0 eq_refl).
    cbv beta iota. apply bind_then_None with (a := tt).
    repeat match goal with
           | |- context [opcode =? ?c] =>
               destruct (Z.eqb_spec opcode c);
               [try (exfalso; apply N; subst opcode; set_solver)|]
           end; reflexivity. }
  assert (E2 : Sim.executeCMD s1 = (Returns (Some Sim.FailedReadingOpcode), s2)).
  { unfold Sim.executeCMD.
    erewrite bind_returns; [|apply (read_short 1 [] []); [reflexivity|cbn; lia]].
    reflexivity. }
  pose proof (Write_frame opcode [] (port []))
    as (_ & _ & _ & _ & wr & Ev & _ & _ & A).
  destruct (A eq_refl) as (-> & _ & Wn).
  unfold WriteByte.
  destruct (Write opcode [] (port [])) as [r w']. cbn [fst snd] in *. subst r.
  exists s2, w'. split_and!; try reflexivity.
  - rewrite Ev. reflexivity.
  - rewrite (serve_step _ _ _ _ E1), (serve_step _ _ _ _ E2).
    cbn [Sim.serve]. rewrite executeCMD_blocks by reflexivity. reflexivity.
Qed.

Lemma WriteByte_against_simulator_witness :
  exists s' w',
    Roomba.Clean (port []) = (None, w') /\
    writes_of (events w') = [[135]; []] /\
    Sim.serve 4 (Sim.MakeRoombaSim [ok [135]; ok []]) = (Blocks, s') /\
    Sim.ReadBytes s' = [135] /\ Sim.writeQ s' = [].
Proof.
  destruct (WriteByte_against_simulator Constants.Cover)
    as (s' & w' & W & Ev & E & _ & R & Q).
  - intros H.
    repeat (apply elem_of_cons in H; destruct H as [H|H]; [discriminate H|]).
    apply elem_of_nil in H. exact H.
  - exists s', w'. split_and!; assumption.
Defined.

(** X23.  [Stop] ends the writer goroutine and nothing else: it queues an
    empty value and leaves the input alone.  The loop of [serve] goes on:
    a [Sensors] request that follows is read to its end and its value is
    queued, but the client is written nothing more than before. *)
Theorem Stop_ends_only_the_writer (id : Z) (rest : list (list Z * option error))
    (s : Sim.RoombaSimulator) :
  Sim.rw_in s = ok [142] :: ok [id] :: rest ->
  (length (Sim.writeQ s) + 2 <= 15)%nat ->
  exists s1 s2,
    Sim.Stop s = (Returns tt, s1) /\ Sim.rw_in s1 = Sim.rw_in s /\
    Sim.executeCMD s1 = (Returns None, s2) /\ Sim.rw_in s2 = rest /\
    Sim.writeQ s2 = Sim.writeQ s ++ [[]; Sim.requested_value id s] /\
    Sim.replies s2 = Sim.replies s.
Proof.
  intros H C. unfold Sim.Stop.
  rewrite write_room by (unfold Sim.writeQ_capacity; lia).
  eexists. eexists. split_and!; [reflexivity|reflexivity| | | |].
  - apply (executeCMD_Sensors id rest); [exact H|].
    cbn [Sim.writeQ]. rewrite length_app. cbn. unfold Sim.writeQ_capacity. lia.
  - reflexivity.
  - cbn [Sim.writeQ]. rewrite <- app_assoc. reflexivity.
  - unfold Sim.replies. cbn [Sim.writeQ]. rewrite <- app_assoc.
    cbn [app]. rewrite writer_stopped. reflexivity.
Qed.

Lemma Stop_ends_only_the_writer_witness :
  exists s1 s2,
    Sim.Stop (Sim.MakeRoombaSim [ok [142]; ok [SENSOR_WALL]]) = (Returns tt, s1) /\
    Sim.executeCMD s1 = (Returns None, s2) /\
    Sim.writeQ s2 = [[]; [35]] /\ Sim.replies s2 = [].
Proof.
  destruct (Stop_ends_only_the_writer SENSOR_WALL []
              (Sim.MakeRoombaSim [ok [142]; ok [SENSOR_WALL]]))
    as (s1 & s2 & St & _ & E & _ & Q & R).
  - reflexivity.
  - cbn. lia.
  - exists s1, s2. split_and!; assumption.
Defined.
